(** * mayalookassigner.commands: a shallow embedding and its properties

    The module glues three collaborators together: the Maya scene API
    ([maya.cmds] and [colorbleed.maya.lib]), the avalon document database
    ([avalon.io], [avalon.api]) and Python's [json] / [copy] libraries.
    Collaborators are explicit parameters of the embedded functions; the
    functions of [commands.py] themselves are transcribed line by line.

    Python values are modelled twice:
    - [pyval]: immutable trees, used by the code that only reads and builds
      values ([create_asset_id_hash], [create_items_from_selection],
      [fetch_looks], [process_queued_item], ...);
    - [Heap]: a store of mutable objects addressed by references, used by the
      code that copies and mutates ([create_queue_out_data],
      [create_queue_in_data], [copy.deepcopy], [json]). *)

From Stdlib Require Import ZArith Ascii String List Lia DecimalString.
From stdpp Require Import base option list strings gmap.

Local Open Scope string_scope.
Local Open Scope list_scope.
Set Warnings "-register-all".

(** ** Outcomes of Python computations *)

Inductive exn :=
| KeyError (key : string)
| TypeError
| AttributeError
| AssertionError
| IndexError
| ValueError
| InvalidId.

(** [Stuck] is an artefact of the model (fuel exhausted, dangling
    reference); no Python behaviour corresponds to it. *)
Inductive outcome (A : Type) :=
| Ok (a : A)
| Raise (e : exn)
| Stuck.
Arguments Ok {A} a.
Arguments Raise {A} e.
Arguments Stuck {A}.

(** ** Database ids: [bson.ObjectId]

    An ObjectId wraps bytes, 12 of them when the database made it; [str]
    renders them as lower-case hexadecimal digits, two per byte.  Given a
    text, the constructor checks that it is 24 characters long and hands it
    to [bytes.fromhex], which reads pairs of hexadecimal digits of either
    case and passes over ASCII whitespace before a pair.  A text of 24
    characters that holds whitespace between its pairs is therefore
    accepted, and the id made of it has fewer than 12 bytes. *)

Definition ObjectId := list Byte.byte.

Definition valid_oid (o : ObjectId) : Prop := length o = 12.

Definition hex_char (n : N) : ascii :=
  match n with
  | 0 => "0" | 1 => "1" | 2 => "2" | 3 => "3" | 4 => "4" | 5 => "5"
  | 6 => "6" | 7 => "7" | 8 => "8" | 9 => "9" | 10 => "a" | 11 => "b"
  | 12 => "c" | 13 => "d" | 14 => "e" | _ => "f"
  end%N%char.

Definition hex_value (c : ascii) : option N :=
  let n := N_of_ascii c in
  if ((48 <=? n) && (n <=? 57))%N then Some (n - 48)%N
  else if ((97 <=? n) && (n <=? 102))%N then Some (n - 87)%N
  else if ((65 <=? n) && (n <=? 70))%N then Some (n - 55)%N
  else None.

Definition byte_hex (b : Byte.byte) : string :=
  let n := Byte.to_N b in
  String (hex_char (n / 16)) (String (hex_char (n mod 16)) EmptyString).

(** [str(oid)] *)
Fixpoint oid_str (o : ObjectId) : string :=
  match o with
  | [] => EmptyString
  | b :: bs => byte_hex b +:+ oid_str bs
  end.

(** The characters [bytes.fromhex] passes over: tab, line feed, vertical
    tab, form feed, carriage return and space. *)
Definition is_space (c : ascii) : bool :=
  let n := N_of_ascii c in
  (((9 <=? n) && (n <=? 13)) || (n =? 32))%N.

(** [bytes.fromhex]: whitespace is passed over where a pair of digits may
    start, not between the two digits of a pair; [None] stands for its
    [ValueError]. *)
Fixpoint bytes_from_hex (s : string) : option (list Byte.byte) :=
  match s with
  | EmptyString => Some []
  | String c rest =>
      if is_space c then bytes_from_hex rest
      else
        match rest with
        | String lo rest' =>
            match hex_value c, hex_value lo, bytes_from_hex rest' with
            | Some h, Some l, Some bs =>
                match Byte.of_N (16 * h + l) with
                | Some b => Some (b :: bs)
                | None => None
                end
            | _, _, _ => None
            end
        | EmptyString => None
        end
  end.

(** [ObjectId(s)] for a text argument [s] *)
Definition ObjectId_of_string (s : string) : outcome ObjectId :=
  if Nat.eqb (String.length s) 24 then
    match bytes_from_hex s with
    | Some bs => Ok bs
    | None => Raise InvalidId
    end
  else Raise InvalidId.

(** ** Python values as trees *)

Inductive atom :=
| ANone
| ABool (b : bool)
| AInt (z : Z)
| AStr (s : string)
| AOid (o : ObjectId).

Inductive pyval :=
| PAtom (a : atom)
| PList (items : list pyval)
| PDict (fields : list (string * pyval)).

Abbreviation PNone := (PAtom ANone).
Abbreviation PStr s := (PAtom (AStr s)).
Abbreviation POid o := (PAtom (AOid o)).

Definition byte_eqb (x y : Byte.byte) : bool := N.eqb (Byte.to_N x) (Byte.to_N y).

Definition atom_eqb (x y : atom) : bool :=
  match x, y with
  | ANone, ANone => true
  | ABool a, ABool b => Bool.eqb a b
  | AInt a, AInt b => Z.eqb a b
  | AStr a, AStr b => String.eqb a b
  | AOid a, AOid b =>
      (fix go (a b : list Byte.byte) : bool :=
         match a, b with
         | [], [] => true
         | x :: a', y :: b' => byte_eqb x y && go a' b'
         | _, _ => false
         end) a b
  | _, _ => false
  end.

(** Python's [==] on trees *)
Fixpoint pyval_eqb (x y : pyval) : bool :=
  match x, y with
  | PAtom a, PAtom b => atom_eqb a b
  | PList xs, PList ys =>
      (fix go (xs ys : list pyval) : bool :=
         match xs, ys with
         | [], [] => true
         | x :: xs', y :: ys' => pyval_eqb x y && go xs' ys'
         | _, _ => false
         end) xs ys
  | PDict xs, PDict ys =>
      (fix go (xs ys : list (string * pyval)) : bool :=
         match xs, ys with
         | [], [] => true
         | (k, x) :: xs', (k', y) :: ys' =>
             String.eqb k k' && pyval_eqb x y && go xs' ys'
         | _, _ => false
         end) xs ys
  | _, _ => false
  end.

(** Truth value of a Python object ([if x:], [assert x], [not x]) *)
Definition truthy (v : pyval) : bool :=
  match v with
  | PAtom ANone => false
  | PAtom (ABool b) => b
  | PAtom (AInt z) => negb (Z.eqb z 0)
  | PAtom (AStr s) => negb (String.eqb s "")
  | PAtom (AOid _) => true
  | PList l => match l with [] => false | _ => true end
  | PDict d => match d with [] => false | _ => true end
  end.

(** Dictionaries are association lists in insertion order. *)
Fixpoint dict_get {V : Type} (k : string) (d : list (string * V)) : option V :=
  match d with
  | [] => None
  | (k', v) :: d' => if String.eqb k k' then Some v else dict_get k d'
  end.

(** [d[k] = v]: replace in place, or append a new key *)
Fixpoint dict_set {V : Type} (k : string) (v : V) (d : list (string * V))
  : list (string * V) :=
  match d with
  | [] => [(k, v)]
  | (k', v') :: d' =>
      if String.eqb k k' then (k', v) :: d' else (k', v') :: dict_set k v d'
  end.

(** [x[key]] for a text key *)
Definition getitem (x : pyval) (key : string) : outcome pyval :=
  match x with
  | PDict d => match dict_get key d with
               | Some v => Ok v
               | None => Raise (KeyError key)
               end
  | _ => Raise TypeError
  end.

(** ** Text *)

Fixpoint str_mem (c : ascii) (s : string) : bool :=
  match s with
  | EmptyString => false
  | String c' s' => Ascii.eqb c c' || str_mem c s'
  end.

(** [s.split(sep)] for a one-character separator *)
Fixpoint split_on (sep : ascii) (s : string) : list string :=
  match s with
  | EmptyString => [EmptyString]
  | String c rest =>
      if Ascii.eqb c sep then EmptyString :: split_on sep rest
      else match split_on sep rest with
           | [] => [String c EmptyString]
           | w :: ws => String c w :: ws
           end
  end.

(** The substring of [s] before the first occurrence of [sep] (all of [s]
    when [sep] does not occur), written directly from the specification's
    wording; [split_on_head] relates it to [split_on]. *)
Fixpoint before_first (sep : ascii) (s : string) : string :=
  match s with
  | EmptyString => EmptyString
  | String c rest =>
      if Ascii.eqb c sep then EmptyString else String c (before_first sep rest)
  end.

(** [l[0]] *)
Definition index0 {A : Type} (l : list A) : outcome A :=
  match l with
  | [] => Raise IndexError
  | x :: _ => Ok x
  end.

(** ** The scene collaborator *)

Definition node := string.

Record scene := {
  (** [cmds.listRelatives(nodes, fullPath=True)]: [None] when there are no
      children *)
  listRelatives : list node -> option (list node);
  (** [cmds.ls(node, showNamespace=True)] *)
  ls_showNamespace : node -> list string;
  (** [cmds.sets(name, query=True)]: [None] for an empty set *)
  sets_query : string -> option (list node);
  (** [cmds.ls(members, type="objectSet")] *)
  ls_objectSet : option (list node) -> list node;
  (** [cblib.get_id(node)]: the [cbId] attribute, [None] when absent *)
  get_id : node -> option string;
}.

(** ** Asset grouping *)

(** [node_id_hash[asset_id].append(node)] on a [defaultdict(list)] *)
Fixpoint hash_append (asset_id : string) (n : node)
  (h : list (string * list node)) : list (string * list node) :=
  match h with
  | [] => [(asset_id, [n])]
  | (k, ns) :: h' =>
      if String.eqb asset_id k then (k, ns ++ [n]) :: h'
      else (k, ns) :: hash_append asset_id n h'
  end.

Section AssetGrouping.
Variable sc : scene.

Fixpoint create_asset_id_hash_loop (nodes : list node)
  (node_id_hash : list (string * list node))
  : outcome (list (string * list node)) :=
  match nodes with
  | [] => Ok node_id_hash
  | n :: rest =>
      match get_id sc n with
      | None => create_asset_id_hash_loop rest node_id_hash
      | Some value =>
          match index0 (split_on ":" value) with
          | Ok asset_id =>
              create_asset_id_hash_loop rest
                (hash_append asset_id n node_id_hash)
          | Raise e => Raise e
          | Stuck => Stuck
          end
      end
  end.

(** [nodes] is [None] when the caller passes Python's [None], which the
    [for] statement rejects. *)
Definition create_asset_id_hash (nodes : option (list node))
  : outcome (list (string * list node)) :=
  match nodes with
  | None => Raise TypeError
  | Some l => create_asset_id_hash_loop l []
  end.
End AssetGrouping.

(** The grouping key of a node as the specification words it: nothing for a
    node without identifier, else the identifier up to its first colon. *)
Definition asset_key (sc : scene) (n : node) : option string :=
  match get_id sc n with
  | Some value => Some (before_first ":" value)
  | None => None
  end.

Definition has_asset_key (sc : scene) (k : string) (n : node) : bool :=
  match asset_key sc n with
  | Some k' => String.eqb k' k
  | None => false
  end.

(** ** Effects: the logger, the assignment collaborator, the container registry *)

Inductive log_level := INFO | WARNING.

(** A log record keeps the format string and the values substituted in it. *)
Record log_record := {
  level : log_level;
  message : string;
  args : list pyval;
}.

Record container := {
  objectName : string;
  loader : string;
}.

Record world := {
  (** records emitted through [log] *)
  logged : list log_record;
  (** calls [cblib.assign_look_by_version(nodes, version_id)] made so far *)
  assigned : list (pyval * pyval);
  (** calls [api.remove(container)] made so far *)
  removed : list container;
}.

(** A computation over a state of type [S]: it ends with a value, with an
    exception, or stuck, and leaves a state in each case. *)
Definition St (S A : Type) : Type := S -> outcome A * S.

Definition ret {S A : Type} (a : A) : St S A := fun w => (Ok a, w).

Definition raise {S A : Type} (e : exn) : St S A := fun w => (Raise e, w).

Definition bind {S A B : Type} (m : St S A) (k : A -> St S B) : St S B :=
  fun w =>
    match m w with
    | (Ok a, w') => k a w'
    | (Raise e, w') => (Raise e, w')
    | (Stuck, w') => (Stuck, w')
    end.

Definition lift {S A : Type} (o : outcome A) : St S A := fun w => (o, w).

Abbreviation M := (St world).

Declare Scope py_scope.
Delimit Scope py_scope with py.
Notation "'let!' x ':=' m 'in' k" := (bind m (fun x => k))
  (at level 10, x name, m at level 100, k at level 200) : py_scope.
Notation "m ';;' k" := (bind m (fun _ => k))
  (at level 100, k at level 200, right associativity) : py_scope.
Local Open Scope py_scope.

Definition log_warning (msg : string) (xs : list pyval) : M unit :=
  fun w =>
    (Ok tt, {| logged := logged w ++ [{| level := WARNING; message := msg; args := xs |}];
               assigned := assigned w; removed := removed w |}).

Definition assign_look_by_version (nodes version_id : pyval) : M unit :=
  fun w =>
    (Ok tt, {| logged := logged w;
               assigned := assigned w ++ [(nodes, version_id)];
               removed := removed w |}).

Definition api_remove (c : container) : M unit :=
  fun w =>
    (Ok tt, {| logged := logged w; assigned := assigned w;
               removed := removed w ++ [c] |}).

(** [for x in l: body x] *)
Fixpoint for_each {A : Type} (l : list A) (body : A -> M unit) : M unit :=
  match l with
  | [] => ret tt
  | x :: l' => body x ;; for_each l' body
  end.

(** ** The database collaborator

    [io.find_one(filter, projection, sort)] over a collection of documents.
    A filter is a conjunction of field equalities; the projection keeps
    [_id] and the named fields; a descending sort on a field compares the
    field values with the database's ordering [value_leb] (a missing field
    counts as null) and the first document of the sorted matches is
    returned. *)

Definition document := list (string * pyval).

Record avalon := {
  documents : list document;
  (** the database's ordering of field values *)
  value_leb : pyval -> pyval -> bool;
  (** [cblib.list_looks(asset_id)]: the look subsets of an asset *)
  list_looks : pyval -> list pyval;
  (** [api.registered_host().ls()] *)
  host_ls : list container;
  (** ["%s" % x] and [str(x)] for a container value *)
  repr : pyval -> string;
}.

Definition doc_matches (filter : list (string * pyval)) (d : document) : bool :=
  forallb (fun '(k, v) =>
             match dict_get k d with
             | Some x => pyval_eqb x v
             | None => false
             end) filter.

Definition project (fields : list string) (d : document) : document :=
  List.filter (fun '(k, _) =>
                 String.eqb k "_id" || existsb (String.eqb k) fields) d.

Definition field_or_null (k : string) (d : document) : pyval :=
  match dict_get k d with
  | Some v => v
  | None => PNone
  end.

Section Database.
Variable av : avalon.

(** insertion into a list sorted in descending order of [key]; an element
    is placed after the elements that compare equal to it *)
Fixpoint insert_desc (key : string) (d : document) (sorted : list document)
  : list document :=
  match sorted with
  | [] => [d]
  | d' :: rest =>
      if value_leb av (field_or_null key d) (field_or_null key d')
      then d' :: insert_desc key d rest
      else d :: d' :: rest
  end.

Definition sort_desc (key : string) (ds : list document) : list document :=
  fold_left (fun acc d => insert_desc key d acc) ds [].

Definition find_one (filter : list (string * pyval))
  (projection : list string) (sort : option string) : option document :=
  let found := List.filter (doc_matches filter) (documents av) in
  let ordered := match sort with
                 | Some key => sort_desc key found
                 | None => found
                 end in
  match ordered with
  | [] => None
  | d :: _ => Some (project projection d)
  end.
End Database.

(** [str(x)] for a value that is no container *)
Definition atom_str (a : atom) : string :=
  match a with
  | ANone => "None"
  | ABool true => "True"
  | ABool false => "False"
  | AInt z => NilZero.string_of_int (Z.to_int z)
  | AStr s => s
  | AOid o => oid_str o
  end.

(** A document returned by [find_one] as a Python value *)
Definition doc_value (d : option document) : pyval :=
  match d with
  | Some fields => PDict fields
  | None => PNone
  end.

(** [str(x)] and ["%s" % x] *)
Definition py_str (av : avalon) (x : pyval) : string :=
  match x with
  | PAtom a => atom_str a
  | _ => repr av x
  end.

(** ** The functions of [commands.py] *)

Section Commands.
Variable sc : scene.
Variable av : avalon.

(** lines 29-40 *)
Definition get_namespace_from_node (n : node) : M string :=
  match ls_showNamespace sc n with
  | [_; ns] => ret ns
  | _ => raise ValueError
  end.

(** lines 43-62; [fuel] bounds the number of iterations of [while True] *)
Fixpoint list_descendents_loop (fuel : nat) (nodes : list node)
  (result : list node) : outcome (list node) :=
  match fuel with
  | O => Stuck
  | S fuel' =>
      match listRelatives sc nodes with
      | Some (c :: cs) =>
          list_descendents_loop fuel' (c :: cs) (result ++ c :: cs)
      | _ => Ok result
      end
  end.

Definition list_descendents (fuel : nat) (nodes : list node)
  : outcome (list node) :=
  list_descendents_loop fuel nodes [].

(** lines 170-194 *)
Definition fetch_looks_step (asset_name : pyval) (subset : pyval)
  : M pyval :=
  let! subset_id := lift (getitem subset "_id") in
  let version :=
    find_one av [("type", PStr "version"); ("parent", subset_id)]
      ["name"; "parent"] (Some "name") in
  let! subset_name := lift (getitem subset "name") in
  ret (PDict [("asset_name", asset_name);
              ("subset", subset_name);
              ("version", doc_value version)]).

Fixpoint fetch_looks_loop (asset_name : pyval) (subsets : list pyval)
  (publish_looks : list pyval) : M (list pyval) :=
  match subsets with
  | [] => ret publish_looks
  | subset :: rest =>
      let! look := fetch_looks_step asset_name subset in
      fetch_looks_loop asset_name rest (publish_looks ++ [look])
  end.

Definition fetch_looks (asset : pyval) : M (list pyval) :=
  let! asset_name := lift (getitem asset "name") in
  let! asset_id := lift (getitem asset "_id") in
  fetch_looks_loop asset_name (list_looks av asset_id) [].

(** lines 125-167 *)
Definition node_values (nodes : list node) : pyval :=
  PList (map (fun n => PStr n) nodes).

Definition create_item (_id : string) (nodes : list node) : M (option pyval) :=
  let! oid := lift (ObjectId_of_string _id) in
  let document := find_one av [("_id", POid oid)] ["name"] None in
  if negb (truthy (doc_value document)) then
    log_warning "Id not found in the database, skipping '%s'." [PStr _id] ;;
    log_warning "Nodes: %s" [node_values nodes] ;;
    ret None
  else
    let! looks := fetch_looks (doc_value document) in
    let! first := lift (index0 nodes) in
    let! namespace := get_namespace_from_node first in
    let! name := lift (getitem (doc_value document) "name") in
    let asset := namespace +:+ " : " +:+ py_str av name in
    let! asset_name := lift (getitem (doc_value document) "name") in
    ret (Some (PDict [("asset", PStr asset);
                      ("asset_name", asset_name);
                      ("document", doc_value document);
                      ("looks", PList looks);
                      ("_id", PStr _id);
                      ("nodes", node_values nodes)])).

Fixpoint create_items_loop (id_hashes : list (string * list node))
  (asset_view_items : list pyval) : M (list pyval) :=
  match id_hashes with
  | [] => ret asset_view_items
  | (_id, nodes) :: rest =>
      let! item := create_item _id nodes in
      match item with
      | None => create_items_loop rest asset_view_items
      | Some it => create_items_loop rest (asset_view_items ++ [it])
      end
  end.

Definition create_items_from_selection (content : option (list node))
  : M (list pyval) :=
  let! id_hashes := lift (create_asset_id_hash sc content) in
  match id_hashes with
  | [] => ret []
  | _ => create_items_loop id_hashes []
  end.

(** lines 79-102 *)
Fixpoint get_all_assets_loop (containers : list container)
  (items : list pyval) : M (list pyval) :=
  match containers with
  | [] => ret items
  | c :: rest =>
      if String.eqb (loader c) "LookLoader" then
        get_all_assets_loop rest items
      else
        let container_name := objectName c in
        let content := sets_query sc container_name in
        let! view_items := create_items_from_selection content in
        match view_items with
        | [] => get_all_assets_loop rest items
        | _ => get_all_assets_loop rest (items ++ view_items)
        end
  end.

Definition get_all_assets : M (list pyval) :=
  get_all_assets_loop (host_ls av) [].

(** lines 197-212 *)
Definition process_queued_item (entry : pyval) : M unit :=
  let! nodes :=
    match entry with
    | PDict d => match dict_get "nodes" d with
                 | Some v => ret v
                 | None => ret (PList [])
                 end
    | _ => raise AttributeError
    end in
  if negb (truthy nodes) then raise AssertionError
  else
    let! version := lift (getitem entry "version") in
    let! version_id := lift (getitem version "_id") in
    assign_look_by_version nodes version_id.

(** lines 266-291 *)
(** the [for look_set in look_sets: ... break / else] statement: [true]
    when the loop ends without [break] *)
Fixpoint no_look_set_in_use (look_sets : list node) : bool :=
  match look_sets with
  | [] => true
  | look_set :: rest =>
      match sets_query sc look_set with
      | Some (_ :: _) => false
      | _ => no_look_set_in_use rest
      end
  end.

Fixpoint collect_unused (containers : list container)
  (unused : list container) : list container :=
  match containers with
  | [] => unused
  | c :: rest =>
      if String.eqb (loader c) "LookLoader" then
        let members := sets_query sc (objectName c) in
        let look_sets := ls_objectSet sc members in
        if no_look_set_in_use look_sets
        then collect_unused rest (unused ++ [c])
        else collect_unused rest unused
      else collect_unused rest unused
  end.

Definition remove_unused_looks : M unit :=
  let unused := collect_unused (host_ls av) [] in
  for_each unused (fun c =>
    log_warning "Removing unused look container: %s" [PStr (objectName c)] ;;
    api_remove c).
End Commands.

(** ** Specification vocabulary for the look queries *)

(** [d] is a version document under the subset with id [subset_id]. *)
Definition version_under (subset_id : pyval) (d : document) : bool :=
  doc_matches [("type", PStr "version"); ("parent", subset_id)] d.

(** [v] is what the specification asks of a look record's version field:
    null when the subset has no version document, else the projection of a
    version document under the subset whose name no other such document
    exceeds in the database's ordering. *)
Definition highest_named_version (av : avalon) (subset_id v : pyval) : Prop :=
  (v = PNone
   /\ forall d, In d (documents av) -> version_under subset_id d = false)
  \/ (exists d,
        In d (documents av)
        /\ version_under subset_id d = true
        /\ v = PDict (project ["name"; "parent"] d)
        /\ forall d', In d' (documents av) ->
                      version_under subset_id d' = true ->
                      value_leb av (field_or_null "name" d')
                                   (field_or_null "name" d) = true).

(** The database's ordering is a total preorder. *)
Definition total_preorder (leb : pyval -> pyval -> bool) : Prop :=
  (forall x y, leb x y = true \/ leb y x = true)
  /\ (forall x y z, leb x y = true -> leb y z = true -> leb x z = true).

(** ** Specification vocabulary for containers *)

Definition is_look_container (c : container) : bool :=
  String.eqb (loader c) "LookLoader".

(** The member shader sets of a look container. *)
Definition member_sets (sc : scene) (c : container) : list node :=
  ls_objectSet sc (sets_query sc (objectName c)).

(** A set has contents. *)
Definition has_contents (sc : scene) (s : node) : bool :=
  match sets_query sc s with
  | Some (_ :: _) => true
  | _ => false
  end.

(** At least one member set of the container has contents. *)
Definition look_in_use (sc : scene) (c : container) : bool :=
  existsb (has_contents sc) (member_sets sc c).

Definition removal_warning (c : container) : log_record :=
  {| level := WARNING;
     message := "Removing unused look container: %s";
     args := [PStr (objectName c)] |}.

(** The loop of [get_all_assets] on containers none of which is a look
    container: [create_items_from_selection] on what the scene answers for
    the set of each container, one container after the other, the items
    concatenated. For a set without members the scene answers [None], and
    that is what [create_items_from_selection] is given. *)
Fixpoint gather_view_items (sc : scene) (av : avalon) (cs : list container)
  : M (list pyval) :=
  match cs with
  | [] => ret []
  | c :: rest =>
      let! view_items :=
        create_items_from_selection sc av (sets_query sc (objectName c)) in
      let! more := gather_view_items sc av rest in
      ret (view_items ++ more)
  end.

(** The member nodes of a container; a container without members has
    none. *)
Definition member_nodes (sc : scene) (c : container) : list node :=
  match sets_query sc (objectName c) with
  | Some nodes => nodes
  | None => []
  end.

(** The view items of the member nodes of the given containers,
    concatenated. *)
Fixpoint view_items_of_members (sc : scene) (av : avalon) (cs : list container)
  : M (list pyval) :=
  match cs with
  | [] => ret []
  | c :: rest =>
      let! view_items :=
        create_items_from_selection sc av (Some (member_nodes sc c)) in
      let! more := view_items_of_members sc av rest in
      ret (view_items ++ more)
  end.

(** [get_all_assets] as the specification words it: the containers tagged
    [LookLoader] contribute nothing, and the result is the concatenation
    of the view items of the other containers' member nodes, in the order
    of the host's list. *)
Definition get_all_assets_spec (sc : scene) (av : avalon) : M (list pyval) :=
  view_items_of_members sc av
    (List.filter (fun c => negb (String.eqb (loader c) "LookLoader")) (host_ls av)).

(** ** Specification vocabulary for view items *)

(** A look subset document carries the two fields [fetch_looks] reads. *)
Definition subset_has_fields (s : pyval) : Prop :=
  exists sid sname, getitem s "_id" = Ok sid /\ getitem s "name" = Ok sname.

(** The record [fetch_looks] builds for a subset that carries both fields. *)
Definition look_record (av : avalon) (asset_name subset : pyval) : pyval :=
  match getitem subset "_id", getitem subset "name" with
  | Ok sid, Ok sname =>
      PDict [("asset_name", asset_name);
             ("subset", sname);
             ("version",
              doc_value (find_one av [("type", PStr "version"); ("parent", sid)]
                           ["name"; "parent"] (Some "name")))]
  | _, _ => PNone
  end.

(** The asset id is the text of a database id: the constructor accepts
    it. *)
Definition well_formed_id (k : string) : Prop :=
  exists oid, ObjectId_of_string k = Ok oid.

(** The document the database holds for the asset id [k], if any. *)
Definition asset_document (av : avalon) (k : string) : option document :=
  match ObjectId_of_string k with
  | Ok oid => find_one av [("_id", POid oid)] ["name"] None
  | _ => None
  end.

(** The asset id has a matching document. *)
Definition known_id (av : avalon) (k : string) : bool :=
  truthy (doc_value (asset_document av k)).

(** Nothing the view item of the group is built from is missing: the asset
    document has a name, its look subsets have ids and names, and the scene
    resolves the first node to a name and a namespace. *)
Definition buildable (sc : scene) (av : avalon) (k : string) (ns : list node)
  : Prop :=
  forall doc, asset_document av k = Some doc ->
    (exists name aid,
        dict_get "name" doc = Some name
        /\ dict_get "_id" doc = Some aid
        /\ Forall subset_has_fields (list_looks av aid))
    /\ (forall n, index0 ns = Ok n ->
                  exists a b, ls_showNamespace sc n = [a; b]).

Definition missing_id_warnings (k : string) (ns : list node) : list log_record :=
  [{| level := WARNING;
      message := "Id not found in the database, skipping '%s'.";
      args := [PStr k] |};
   {| level := WARNING; message := "Nodes: %s"; args := [node_values ns] |}].

(** The group's asset id has a matching document. *)
Definition group_known (av : avalon) (g : string * list node) : bool :=
  known_id av (fst g).

(** ** Specification vocabulary for the scene hierarchy *)

(** [n] lies below one of [roots] in the child relation [children]. *)
Inductive descendant (children : node -> list node) (roots : list node)
  : node -> Prop :=
| descendant_child p c :
    In p roots -> In c (children p) -> descendant children roots c
| descendant_step p c :
    descendant children roots p -> In c (children p) ->
    descendant children roots c.

(** [listRelatives] answers with the immediate children of the nodes it is
    given, and with [None] only when none of them has a child. *)
Definition lists_children (sc : scene) (children : node -> list node) : Prop :=
  forall ns,
    match listRelatives sc ns with
    | None => forall p, In p ns -> children p = []
    | Some cs => forall c, In c cs <-> exists p, In p ns /\ In c (children p)
    end.

(** A finite acyclic child relation: every node has a height that bounds
    the length of the chains below it. *)
Definition finite_acyclic (children : node -> list node) : Prop :=
  exists height : node -> nat,
    forall p c, In c (children p) -> height c < height p.

(** [result] accumulates the answers of querying the children of the
    frontier again and again, up to the first query without children. *)
Inductive expansion (sc : scene) : list node -> list node -> Prop :=
| expansion_stop nodes :
    listRelatives sc nodes = None \/ listRelatives sc nodes = Some [] ->
    expansion sc nodes []
| expansion_more nodes c cs rest :
    listRelatives sc nodes = Some (c :: cs) ->
    expansion sc (c :: cs) rest ->
    expansion sc nodes ((c :: cs) ++ rest).

(** ** A small scene and database, used to exercise the statements *)

Module Demo.

Definition id_a : string := "aaaaaaaaaaaaaaaaaaaaaaaa".
Definition id_b : string := "bbbbbbbbbbbbbbbbbbbbbbbb".
Definition id_c : string := "cccccccccccccccccccccccc".
Definition id_s : string := "0123456789abcdef01234567".
Definition id_v1 : string := "111111111111111111111111".
Definition id_v2 : string := "222222222222222222222222".

Definition oid (s : string) : ObjectId :=
  match ObjectId_of_string s with
  | Ok o => o
  | _ => []
  end.

Definition children (n : node) : list node :=
  if String.eqb n "|grp" then ["|grp|a1"; "|grp|a2"]
  else if String.eqb n "|grp|a1" then ["|grp|a1|shape"]
  else [].

Definition height (n : node) : nat :=
  if String.eqb n "|grp" then 2
  else if String.eqb n "|grp|a1" then 1
  else 0.

Definition sc : scene := {|
  listRelatives := fun ns =>
    match flat_map children ns with
    | [] => None
    | cs => Some cs
    end;
  ls_showNamespace := fun n => [n; "hero_01"];
  sets_query := fun name =>
    if String.eqb name "modelA_CON"
    then Some ["|grp|a1"; "|grp|a2"; "|b1"; "|c1"; "|plain"]
    else if String.eqb name "lookA_CON" then Some ["lookA_SG"; "lookA_file"]
    else if String.eqb name "lookB_CON" then Some ["lookB_SG"]
    else if String.eqb name "lookA_SG" then Some ["|grp|a1"]
    else None;
  ls_objectSet := fun members =>
    match members with
    | Some l =>
        List.filter (fun n => String.eqb n "lookA_SG" || String.eqb n "lookB_SG") l
    | None => []
    end;
  get_id := fun n =>
    if String.eqb n "|grp|a1" then Some (id_a +:+ ":5c1a")
    else if String.eqb n "|grp|a2" then Some (id_a +:+ ":5c1b")
    else if String.eqb n "|b1" then Some (id_b +:+ ":77")
    else if String.eqb n "|c1" then Some id_c
    else if String.eqb n "|bad" then Some "A1B2:shaderX"
    else None
|}.

Definition asset_a : document :=
  [("_id", POid (oid id_a)); ("type", PStr "asset"); ("name", PStr "hero")].
Definition asset_b : document :=
  [("_id", POid (oid id_b)); ("type", PStr "asset"); ("name", PStr "villain")].
Definition subset_a : document :=
  [("_id", POid (oid id_s)); ("type", PStr "subset"); ("name", PStr "lookMain");
   ("parent", POid (oid id_a))].
Definition version_1 : document :=
  [("_id", POid (oid id_v1)); ("type", PStr "version"); ("name", PAtom (AInt 1));
   ("parent", POid (oid id_s))].
Definition version_2 : document :=
  [("_id", POid (oid id_v2)); ("type", PStr "version"); ("name", PAtom (AInt 2));
   ("parent", POid (oid id_s))].

Definition int_key (v : pyval) : Z :=
  match v with
  | PAtom (AInt z) => z
  | _ => (-1)%Z
  end.

Definition look_a : container := {| objectName := "lookA_CON"; loader := "LookLoader" |}.
Definition look_b : container := {| objectName := "lookB_CON"; loader := "LookLoader" |}.
Definition model_a : container := {| objectName := "modelA_CON"; loader := "ModelLoader" |}.

Definition av : avalon := {|
  documents := [asset_a; version_1; subset_a; version_2; asset_b];
  value_leb := fun x y => Z.leb (int_key x) (int_key y);
  list_looks := fun asset_id =>
    if pyval_eqb asset_id (POid (oid id_a)) then [PDict subset_a] else [];
  host_ls := [model_a; look_a; look_b];
  repr := fun _ => "<container>"
|}.

Definition w0 : world := {| logged := []; assigned := []; removed := [] |}.

End Demo.

(** ** Mutable objects: the store, [copy.deepcopy], [json]

    Lists and dictionaries are objects of a store, held by reference;
    everything else is an immutable atom. A location is an index of the
    store; allocation appends. *)

Module Heap.

Abbreviation loc := nat.

Inductive hval :=
| HAtom (a : atom)
| HRef (l : loc).

Inductive obj :=
| ODict (fields : list (string * hval))
| OList (items : list hval).

Abbreviation heap := (list obj).

Record state := {
  store : heap;
  (** how many ids [ObjectId()] has generated so far *)
  generated : nat;
}.

Abbreviation H := (St state).

Definition set_store (h : heap) (s : state) : state :=
  {| store := h; generated := generated s |}.

Definition alloc (o : obj) : H loc :=
  fun s => (Ok (length (store s)), set_store (store s ++ [o]) s).

Definition read (l : loc) : H obj :=
  fun s =>
    match store s !! l with
    | Some o => (Ok o, s)
    | None => (Stuck, s)
    end.

Definition write (l : loc) (o : obj) : H unit :=
  fun s => (Ok tt, set_store (<[l := o]> (store s)) s).

(** [x[key]] *)
Definition getitem (x : hval) (key : string) : H hval :=
  match x with
  | HAtom _ => raise TypeError
  | HRef l =>
      let! o := read l in
      match o with
      | ODict d => match dict_get key d with
                   | Some v => ret v
                   | None => raise (KeyError key)
                   end
      | OList _ => raise TypeError
      end
  end.

(** [x[key] = v] *)
Definition setitem (x : hval) (key : string) (v : hval) : H unit :=
  match x with
  | HAtom _ => raise TypeError
  | HRef l =>
      let! o := read l in
      match o with
      | ODict d => write l (ODict (dict_set key v d))
      | OList _ => raise TypeError
      end
  end.

(** [y.append(v)] on the list object at [y] *)
Definition append (y : loc) (v : hval) : H unit :=
  let! o := read y in
  match o with
  | OList items => write y (OList (items ++ [v]))
  | ODict _ => raise AttributeError
  end.

(** *** [copy.deepcopy]

    The memo maps the objects copied so far to their copies; it is
    consulted before an object is copied, and extended with the fresh, still
    empty copy before the components are copied into it. *)

Abbreviation memo := (gmap nat nat).

Fixpoint copy_items (rec : hval -> memo -> H (hval * memo)) (y : loc)
  (items : list hval) (m : memo) : H memo :=
  match items with
  | [] => ret m
  | a :: rest =>
      let! r := rec a m in
      append y (fst r) ;;
      copy_items rec y rest (snd r)
  end.

Fixpoint copy_fields (rec : hval -> memo -> H (hval * memo)) (y : loc)
  (fields : list (string * hval)) (m : memo) : H memo :=
  match fields with
  | [] => ret m
  | (k, v) :: rest =>
      let! r := rec v m in
      setitem (HRef y) k (fst r) ;;
      copy_fields rec y rest (snd r)
  end.

Fixpoint deepcopy (fuel : nat) (x : hval) (m : memo) : H (hval * memo) :=
  match x with
  | HAtom _ => ret (x, m)
  | HRef l =>
      match m !! l with
      | Some y => ret (HRef y, m)
      | None =>
          match fuel with
          | O => lift Stuck
          | S fuel' =>
              let! o := read l in
              match o with
              | OList items =>
                  let! y := alloc (OList []) in
                  let! m' := copy_items (deepcopy fuel') y items (<[l := y]> m) in
                  ret (HRef y, m')
              | ODict fields =>
                  let! y := alloc (ODict []) in
                  let! m' := copy_fields (deepcopy fuel') y fields (<[l := y]> m) in
                  ret (HRef y, m')
              end
          end
      end
  end.

(** *** [json]

    The JSON text is represented by its syntax tree, a [pyval] without
    database ids. Encoding a database id raises [TypeError]. A circular
    structure, for which [json] raises [ValueError], exhausts any fuel
    here. *)

Fixpoint encode_items (rec : hval -> outcome pyval) (items : list hval)
  : outcome (list pyval) :=
  match items with
  | [] => Ok []
  | a :: rest =>
      match rec a with
      | Ok t => match encode_items rec rest with
                | Ok ts => Ok (t :: ts)
                | Raise e => Raise e
                | Stuck => Stuck
                end
      | Raise e => Raise e
      | Stuck => Stuck
      end
  end.

Fixpoint encode_fields (rec : hval -> outcome pyval)
  (fields : list (string * hval)) : outcome (list (string * pyval)) :=
  match fields with
  | [] => Ok []
  | (k, v) :: rest =>
      match rec v with
      | Ok t => match encode_fields rec rest with
                | Ok ts => Ok ((k, t) :: ts)
                | Raise e => Raise e
                | Stuck => Stuck
                end
      | Raise e => Raise e
      | Stuck => Stuck
      end
  end.

Fixpoint json_encode (fuel : nat) (h : heap) (x : hval) : outcome pyval :=
  match x with
  | HAtom (AOid _) => Raise TypeError
  | HAtom a => Ok (PAtom a)
  | HRef l =>
      match fuel with
      | O => Stuck
      | S fuel' =>
          match h !! l with
          | None => Stuck
          | Some (OList items) =>
              match encode_items (json_encode fuel' h) items with
              | Ok ts => Ok (PList ts)
              | Raise e => Raise e
              | Stuck => Stuck
              end
          | Some (ODict fields) =>
              match encode_fields (json_encode fuel' h) fields with
              | Ok ts => Ok (PDict ts)
              | Raise e => Raise e
              | Stuck => Stuck
              end
          end
      end
  end.

(** [json.dumps(items)] for the Python list of the values [items] *)
Definition json_dumps (fuel : nat) (items : list hval) : H (list pyval) :=
  fun s => (encode_items (json_encode fuel (store s)) items, s).

(** [dict(pairs)]: a later pair overrides an earlier one with the same key *)
Definition dict_of_pairs {V : Type} (pairs : list (string * V))
  : list (string * V) :=
  fold_left (fun d kv => dict_set (fst kv) (snd kv) d) pairs [].

(** decoding the members of an array, or of an object, one after the other *)
Definition decode_items (decode : pyval -> H hval)
  : list pyval -> H (list hval) :=
  fix go (ts : list pyval) : H (list hval) :=
    match ts with
    | [] => ret []
    | t' :: ts' =>
        let! v := decode t' in
        let! vs := go ts' in
        ret (v :: vs)
    end.

Definition decode_fields (decode : pyval -> H hval)
  : list (string * pyval) -> H (list (string * hval)) :=
  fix go (fs : list (string * pyval)) : H (list (string * hval)) :=
    match fs with
    | [] => ret []
    | kv :: fs' =>
        let! v := decode (snd kv) in
        let! kvs := go fs' in
        ret ((fst kv, v) :: kvs)
    end.

Fixpoint json_decode (t : pyval) : H hval :=
  match t with
  | PAtom a => ret (HAtom a)
  | PList items =>
      let! vs := decode_items json_decode items in
      let! l := alloc (OList vs) in
      ret (HRef l)
  | PDict fields =>
      let! kvs := decode_fields json_decode fields in
      let! l := alloc (ODict (dict_of_pairs kvs)) in
      ret (HRef l)
  end.

(** [json.loads(text)] for the text of a JSON array *)
Definition json_loads (doc : list pyval) : H (list hval) :=
  decode_items json_decode doc.

(** *** The queue conversions of [commands.py] *)

Section Queue.
(** the ids [ObjectId()] generates, in order *)
Variable generate : nat -> ObjectId.
(** [str(x)] for a list or a dictionary *)
Variable container_str : heap -> loc -> string.

(** [str(x)] *)
Definition str (x : hval) : H hval :=
  fun s =>
    match x with
    | HAtom a => (Ok (HAtom (AStr (atom_str a))), s)
    | HRef l => (Ok (HAtom (AStr (container_str (store s) l))), s)
    end.

(** [io.ObjectId(x)] *)
Definition ObjectId_new (x : hval) : H hval :=
  match x with
  | HAtom ANone =>
      fun s => (Ok (HAtom (AOid (generate (generated s)))),
                {| store := store s; generated := S (generated s) |})
  | HAtom (AStr text) =>
      match ObjectId_of_string text with
      | Ok o => ret (HAtom (AOid o))
      | Raise e => raise e
      | Stuck => lift Stuck
      end
  | HAtom (AOid o) => ret (HAtom (AOid o))
  | _ => raise TypeError
  end.

(** lines 215-234 *)
Fixpoint create_queue_out_data_loop (fuel : nat) (queue_items : list hval)
  (items : list hval) : H (list hval) :=
  match queue_items with
  | [] => ret items
  | item :: rest =>
      let! copied := deepcopy fuel item ∅ in
      let new_item := fst copied in
      let! document := getitem item "document" in
      let! id := getitem document "_id" in
      let! id_text := str id in
      let! new_document := getitem new_item "document" in
      setitem new_document "_id" id_text ;;
      let! document := getitem item "document" in
      let! parent := getitem document "parent" in
      let! parent_text := str parent in
      let! new_document := getitem new_item "document" in
      setitem new_document "parent" parent_text ;;
      create_queue_out_data_loop fuel rest (items ++ [new_item])
  end.

Definition create_queue_out_data (fuel : nat) (queue_items : list hval)
  : H (list hval) :=
  create_queue_out_data_loop fuel queue_items [].

(** lines 237-254 *)
Fixpoint create_queue_in_data_loop (fuel : nat) (queue_items : list hval)
  (items : list hval) : H (list hval) :=
  match queue_items with
  | [] => ret items
  | item :: rest =>
      let! copied := deepcopy fuel item ∅ in
      let new_item := fst copied in
      let! document := getitem item "document" in
      let! id := getitem document "_id" in
      let! oid := ObjectId_new id in
      let! new_document := getitem new_item "document" in
      setitem new_document "_id" oid ;;
      let! parent := getitem document "parent" in
      let! parent_oid := ObjectId_new parent in
      let! new_document := getitem new_item "document" in
      setitem new_document "parent" parent_oid ;;
      create_queue_in_data_loop fuel rest (items ++ [new_item])
  end.

Definition create_queue_in_data (fuel : nat) (queue_items : list hval)
  : H (list hval) :=
  create_queue_in_data_loop fuel queue_items [].

(** [create_queue_out_data], [json.dumps], [json.loads],
    [create_queue_in_data], one after the other *)
Definition round_trip (fuel : nat) (queue_items : list hval)
  : H (list hval) :=
  let! out := create_queue_out_data fuel queue_items in
  let! text := json_dumps fuel out in
  let! loaded := json_loads text in
  create_queue_in_data fuel loaded.
End Queue.

(** *** Specification vocabulary for the store *)

(** A stored reference points into a store of [n] objects. *)
Definition wf_val (n : nat) (v : hval) : Prop :=
  match v with
  | HRef l => l < n
  | HAtom _ => True
  end.

(** The references of an object point into the store and the keys of a
    dictionary are pairwise distinct. *)
Definition wf_obj (n : nat) (o : obj) : Prop :=
  match o with
  | OList items => Forall (wf_val n) items
  | ODict fields =>
      NoDup (map fst fields) /\ Forall (fun kv => wf_val n (snd kv)) fields
  end.

Definition wf_heap (h : heap) : Prop := Forall (wf_obj (length h)) h.

(** [h'] has every object of [h], unchanged, at its location. *)
Definition unchanged (h h' : heap) : Prop :=
  forall l o, h !! l = Some o -> h' !! l = Some o.

(** [y] is [x] with every reference renamed along [m]. *)
Definition vrel (m : memo) (x y : hval) : Prop :=
  match x, y with
  | HAtom a, HAtom b => a = b
  | HRef l, HRef l' => m !! l = Some l'
  | _, _ => False
  end.

(** Two dictionary entries have the same key and, unless the key is one of
    [changed], values that agree up to the renaming [m]. *)
Definition frel (changed : list string) (m : memo) (e e' : string * hval)
  : Prop :=
  fst e = fst e' /\ (In (fst e) changed \/ vrel m (snd e) (snd e')).

(** [o'] is [o] up to the renaming [m], but for the values under the keys
    [changed]. *)
Definition orel (changed : list string) (m : memo) (o o' : obj) : Prop :=
  match o, o' with
  | OList xs, OList ys => Forall2 (vrel m) xs ys
  | ODict d, ODict d' => Forall2 (frel changed m) d d'
  | _, _ => False
  end.

(** The location of the dictionary under [item["document"]], if any. *)
Definition document_of (h : heap) (item : hval) : option loc :=
  match item with
  | HRef li =>
      match h !! li with
      | Some (ODict d) =>
          match dict_get "document" d with
          | Some (HRef ld) => Some ld
          | _ => None
          end
      | _ => None
      end
  | HAtom _ => None
  end.

(** [item'], in the store [h'], is a deep copy of [item], in the store [h],
    in which only the values under [_id] and [parent] of the document may
    differ: a renaming [m] takes every object reached from [item] to a
    location that [h] does not have, and the object there is the renamed
    original, but for those two keys of the document's dictionary. *)
Definition converted_copy (h h' : heap) (item item' : hval) : Prop :=
  exists m : memo,
    vrel m item item'
    /\ forall l l', m !! l = Some l' ->
         length h <= l'
         /\ exists o o',
              h !! l = Some o /\ h' !! l' = Some o'
              /\ orel (if decide (document_of h item = Some l)
                       then ["_id"; "parent"] else []) m o o'.

(** The unfolding of a value of the store into a tree, to depth [fuel]. *)
Fixpoint reify (fuel : nat) (h : heap) (x : hval) : option pyval :=
  match x with
  | HAtom a => Some (PAtom a)
  | HRef l =>
      match fuel with
      | O => None
      | S fuel' =>
          match h !! l with
          | None => None
          | Some (OList items) =>
              match mapM (reify fuel' h) items with
              | Some ts => Some (PList ts)
              | None => None
              end
          | Some (ODict fields) =>
              match mapM (fun kv => match reify fuel' h (snd kv) with
                                    | Some t => Some (fst kv, t)
                                    | None => None
                                    end) fields with
              | Some ts => Some (PDict ts)
              | None => None
              end
          end
      end
  end.

(** No database id occurs in the tree. *)
Fixpoint no_oid (t : pyval) : bool :=
  match t with
  | PAtom (AOid _) => false
  | PAtom _ => true
  | PList items => forallb no_oid items
  | PDict fields => forallb (fun kv => no_oid (snd kv)) fields
  end.

(** The tree of a queue item whose document's [_id] and [parent] are the
    database ids [a] and [b], and which holds no other database id. *)
Definition queue_item_tree (a b : ObjectId) (t : pyval) : Prop :=
  exists fields dfields,
    t = PDict fields
    /\ dict_get "document" fields = Some (PDict dfields)
    /\ dict_get "_id" dfields = Some (POid a)
    /\ dict_get "parent" dfields = Some (POid b)
    /\ valid_oid a /\ valid_oid b
    /\ (forall k v, In (k, v) fields -> k <> "document" -> no_oid v = true)
    /\ (forall k v, In (k, v) dfields -> k <> "_id" -> k <> "parent" ->
                    no_oid v = true).

(** [h'] extends [h]: it is at least as long and agrees with [h] on the
    locations of [h] (all of them, or all but [y]). *)
Definition extends (h h' : heap) : Prop :=
  length h <= length h' /\ forall l, l < length h -> h' !! l = h !! l.

Definition extends_but (y : loc) (h h' : heap) : Prop :=
  length h <= length h'
  /\ forall l, l < length h -> l <> y -> h' !! l = h !! l.

(** The memo of a copy in progress, for originals in a store of [n0]
    objects: the copies lie beyond the originals, inside the current store,
    and no two originals share a copy. *)
Definition memo_ok (n0 len : nat) (m : memo) : Prop :=
  (forall l l', m !! l = Some l' -> n0 <= l' < len)
  /\ (forall l1 l2 l', m !! l1 = Some l' -> m !! l2 = Some l' -> l1 = l2).

(** What [deepcopy] needs of the state it starts in, for originals in the
    store [h0]. *)
Definition copy_pre (h0 : heap) (s : state) (m : memo) (x : hval) : Prop :=
  unchanged h0 (store s)
  /\ wf_heap (store s)
  /\ wf_val (length h0) x
  /\ memo_ok (length h0) (length (store s)) m.

(** The objects memoised between [m] and [m'] are finished copies. *)
Definition copies_done (h0 : heap) (s s' : state) (m m' : memo) : Prop :=
  forall l l', m' !! l = Some l' -> m !! l = None ->
    length (store s) <= l'
    /\ exists o o',
         h0 !! l = Some o /\ store s' !! l' = Some o' /\ orel [] m' o o'.

(** What [deepcopy] ensures when it returns [y] and the memo [m']. *)
Definition copy_post (h0 : heap) (s : state) (m : memo) (x y : hval)
  (m' : memo) (s' : state) : Prop :=
  m ⊆ m'
  /\ vrel m' x y
  /\ memo_ok (length h0) (length (store s')) m'
  /\ wf_heap (store s')
  /\ copies_done h0 s s' m m'.

(** The contract of a copier [rec] for originals in [h0] that unfold to
    depth [n]. *)
Definition copy_contract (h0 : heap) (n : nat)
  (rec : hval -> memo -> H (hval * memo)) : Prop :=
  forall x m s r s',
    copy_pre h0 s m x -> rec x m s = (r, s') ->
    extends (store s) (store s')
    /\ generated s' = generated s
    /\ (forall y m', r = Ok (y, m') -> copy_post h0 s m x y m' s')
    /\ (forall t, reify n h0 x = Some t -> exists y m', r = Ok (y, m')).

(** Two dictionary entries have the same key; under a key recorded in
    [written] the second holds the recorded value, under any other key the
    values agree up to the renaming [m]. *)
Definition frelc (written : list (string * hval)) (m : memo)
  (e e' : string * hval) : Prop :=
  fst e = fst e'
  /\ match dict_get (fst e) written with
     | Some v' => snd e' = v'
     | None => vrel m (snd e) (snd e')
     end.

Definition orelc (written : list (string * hval)) (m : memo) (o o' : obj)
  : Prop :=
  match o, o' with
  | OList xs, OList ys => Forall2 (vrel m) xs ys
  | ODict d, ODict d' => Forall2 (frelc written m) d d'
  | _, _ => False
  end.

(** The copy [y] of [x] while its document is being rewritten: [m] renames
    the objects reached from [x], in [h0], to distinct locations from [N]
    on, and the object at such a location, in [h], is the renamed original,
    but for the values [written] so far into the copy of the document. *)
Definition item_inv (h0 : heap) (N : nat) (h : heap) (x y : hval) (m : memo)
  (written : list (string * hval)) : Prop :=
  vrel m x y
  /\ (forall l1 l2 l', m !! l1 = Some l' -> m !! l2 = Some l' -> l1 = l2)
  /\ forall l l', m !! l = Some l' ->
       N <= l'
       /\ exists o o',
            h0 !! l = Some o /\ h !! l' = Some o'
            /\ orelc (if decide (document_of h0 x = Some l)
                      then written else []) m o o'.

(** A conversion of a field value: it leaves the store alone and returns an
    atom that [R] relates to its argument. *)
Definition conv_ok (conv : hval -> H hval) (R : hval -> hval -> Prop) : Prop :=
  forall v s r s',
    conv v s = (r, s') ->
    store s' = store s
    /\ forall v', r = Ok v' -> (exists a, v' = HAtom a) /\ R v v'.

(** [y], in [h'], is the deep copy of the queue item [x], of [h0], whose
    document holds under [_id] and [parent] values that [R] relates to the
    original ones. *)
Definition converted (R : hval -> hval -> Prop) (h0 h' : heap) (x y : hval)
  : Prop :=
  exists m li d ld dd vi vp vi' vp',
    x = HRef li
    /\ h0 !! li = Some (ODict d)
    /\ dict_get "document" d = Some (HRef ld)
    /\ h0 !! ld = Some (ODict dd)
    /\ dict_get "_id" dd = Some vi
    /\ dict_get "parent" dd = Some vp
    /\ R vi vi' /\ R vp vp'
    /\ item_inv h0 (length h0) h' x y m [("parent", vp'); ("_id", vi')].

(** What [str] and [ObjectId] do to an atom. *)
Definition str_rel (v v' : hval) : Prop :=
  forall a, v = HAtom a -> v' = HAtom (AStr (atom_str a)).

Definition oid_rel (v v' : hval) : Prop :=
  forall text o, v = HAtom (AStr text) -> ObjectId_of_string text = Ok o ->
                 v' = HAtom (AOid o).

(** The queue item [x], of [h0], has a document with the two id fields, on
    which the conversion [conv] succeeds, and unfolds to depth [fuel]. *)
Definition convertible (conv : hval -> H hval) (fuel : nat) (h0 : heap)
  (x : hval) : Prop :=
  (exists t, reify fuel h0 x = Some t)
  /\ exists li d ld dd vi vp,
       x = HRef li
       /\ h0 !! li = Some (ODict d)
       /\ dict_get "document" d = Some (HRef ld)
       /\ h0 !! ld = Some (ODict dd)
       /\ dict_get "_id" dd = Some vi
       /\ dict_get "parent" dd = Some vp
       /\ (forall s, exists v' s1, conv vi s = (Ok v', s1))
       /\ (forall s, exists v' s1, conv vp s = (Ok v', s1)).

(** The nesting depth of a tree. *)
Fixpoint depth (t : pyval) : nat :=
  match t with
  | PAtom _ => 0
  | PList items => S (list_max (map depth items))
  | PDict fields => S (list_max (map (fun kv => depth (snd kv)) fields))
  end.

(** [P] holds of every member of the list. *)
Definition all_of {A : Type} (P : A -> Prop) (l : list A) : Prop :=
  fold_right (fun x Q => P x /\ Q) True l.

(** Every dictionary of the tree has pairwise distinct keys. *)
Fixpoint wf_tree (t : pyval) : Prop :=
  match t with
  | PAtom _ => True
  | PList items => all_of wf_tree items
  | PDict fields =>
      NoDup (map fst fields) /\ all_of (fun kv => wf_tree (snd kv)) fields
  end.

(** The JSON text [create_queue_out_data] makes of a queue item whose
    document has the database ids [a] and [b]: the two ids are replaced by
    their texts. *)
Definition out_document (a b : ObjectId) (dfields : list (string * pyval))
  : list (string * pyval) :=
  map (fun kv =>
         if String.eqb (fst kv) "_id" then (fst kv, PStr (oid_str a))
         else if String.eqb (fst kv) "parent" then (fst kv, PStr (oid_str b))
         else kv) dfields.

Definition out_item (a b : ObjectId) (fields : list (string * pyval))
  : list (string * pyval) :=
  map (fun kv =>
         if String.eqb (fst kv) "document"
         then (fst kv, match snd kv with
                       | PDict dfields => PDict (out_document a b dfields)
                       | v => v
                       end)
         else kv) fields.

(** The entries of the dictionary [d] unfold, to depth [n], to [fields]. *)
Definition tree_fields (n : nat) (h : heap) (d : list (string * hval))
  (fields : list (string * pyval)) : Prop :=
  Forall2 (fun kv kt => fst kv = fst kt /\ reify n h (snd kv) = Some (snd kt))
    d fields.

(** The outcome the loops of the queue conversions promise from a state
    [s], for items of the store [h0]. *)
Definition loop_goal (h0 : heap) (conv : hval -> H hval) (R : hval -> hval -> Prop)
  (fuel : nat) (queue_items acc : list hval) (s : state)
  (r : outcome (list hval)) (s' : state) : Prop :=
  extends (store s) (store s')
  /\ (forall out, r = Ok out ->
        wf_heap (store s')
        /\ exists news, out = acc ++ news
                        /\ Forall2 (converted R h0 (store s')) queue_items news)
  /\ (Forall (convertible conv fuel h0) queue_items -> exists out, r = Ok out).

(** What decoding produces, for a decoder [decode] of the members. *)
Definition decoded (t : pyval) (s : state) (v : hval) (s' : state) : Prop :=
  extends (store s) (store s')
  /\ generated s' = generated s
  /\ (wf_heap (store s) -> wf_tree t ->
      wf_heap (store s')
      /\ wf_val (length (store s')) v
      /\ forall n, depth t <= n -> reify n (store s') v = Some t).

(** The tree of the text written for a queue item. *)
Definition out_text (t text : pyval) : Prop :=
  exists a b fields,
    queue_item_tree a b t /\ t = PDict fields
    /\ text = PDict (out_item a b fields).

End Heap.

(** ** A small store, used to exercise the statements on the queue *)

Module HeapDemo.
Import Heap.

Definition oid_a : ObjectId := Demo.oid Demo.id_a.
Definition oid_b : ObjectId := Demo.oid Demo.id_b.
Definition oid_v : ObjectId := Demo.oid Demo.id_v1.

(** a queue item without looks: the document, the nodes, the looks, the item *)
Definition store0 : heap :=
  [ ODict [("_id", HAtom (AOid oid_a)); ("name", HAtom (AStr "hero"));
           ("parent", HAtom (AOid oid_b))];
    OList [HAtom (AStr "|grp|a1")];
    OList [];
    ODict [("asset", HAtom (AStr "hero_01 : hero")); ("document", HRef 0);
           ("looks", HRef 2); ("nodes", HRef 1)] ].

Definition item0 : hval := HRef 3.

Definition tree0 : pyval :=
  PDict [("asset", PStr "hero_01 : hero");
         ("document", PDict [("_id", POid oid_a); ("name", PStr "hero");
                             ("parent", POid oid_b)]);
         ("looks", PList []);
         ("nodes", PList [PStr "|grp|a1"])].

(** a queue item with one look, whose version document carries its id: the
    document, the version document, the look record, the looks, the item *)
Definition store1 : heap :=
  [ ODict [("_id", HAtom (AOid oid_a)); ("name", HAtom (AStr "hero"));
           ("parent", HAtom (AOid oid_b))];
    ODict [("_id", HAtom (AOid oid_v)); ("name", HAtom (AInt 1))];
    ODict [("asset_name", HAtom (AStr "hero")); ("subset", HAtom (AStr "lookMain"));
           ("version", HRef 1)];
    OList [HRef 2];
    ODict [("document", HRef 0); ("looks", HRef 3)] ].

Definition item1 : hval := HRef 4.

Definition state_of (h : heap) : state := {| store := h; generated := 0 |}.

Definition generate (n : nat) : ObjectId := repeat Byte.x00 12.

Definition container_str (h : heap) (l : loc) : string := "<container>".

End HeapDemo.

(** ** The scene file and the selection

    [get_workfile], [get_workfolder] and [get_items_from_selection] read
    two more answers of the scene: the name of the scene file and the
    current selection. [os.path] is taken in its POSIX flavour. *)

(** [s.rfind(c)]: the index of the last [c] in [s], or -1 *)
Fixpoint rfind (c : ascii) (s : string) : Z :=
  match s with
  | EmptyString => (-1)%Z
  | String c' rest =>
      let r := rfind c rest in
      if Z.eqb r (-1) then (if Ascii.eqb c' c then 0%Z else (-1)%Z)
      else (r + 1)%Z
  end.

(** [s[i:]] and [s[:i]] for an index [i] that is not negative *)
Fixpoint str_drop (i : nat) (s : string) : string :=
  match i, s with
  | S i', String _ rest => str_drop i' rest
  | _, _ => s
  end.

Fixpoint str_take (i : nat) (s : string) : string :=
  match i, s with
  | S i', String c rest => String c (str_take i' rest)
  | _, _ => EmptyString
  end.

(** [c * n] *)
Fixpoint str_repeat (c : ascii) (n : nat) : string :=
  match n with
  | O => EmptyString
  | S n' => String c (str_repeat c n')
  end.

(** [s.rstrip(c)] *)
Fixpoint rstrip (c : ascii) (s : string) : string :=
  match s with
  | EmptyString => EmptyString
  | String c' rest =>
      match rstrip c rest with
      | EmptyString => if Ascii.eqb c' c then EmptyString else String c' EmptyString
      | r => String c' r
      end
  end.

(** [os.path.basename(p)] *)
Definition basename (p : string) : string :=
  let i := (rfind "/" p + 1)%Z in
  str_drop (Z.to_nat i) p.

(** [os.path.dirname(p)] *)
Definition dirname (p : string) : string :=
  let i := (rfind "/" p + 1)%Z in
  let head := str_take (Z.to_nat i) p in
  if negb (String.eqb head "")
     && negb (String.eqb head (str_repeat "/" (String.length head)))
  then rstrip "/" head
  else head.

Section SceneFile.
(** [cmds.file(query=True, sceneName=True)]: empty for a scene that was
    never saved *)
Variable sceneName : string.

(** lines 16-18 *)
Definition get_workfile : string :=
  let path := if negb (String.eqb sceneName "") then sceneName else "untitled" in
  basename path.

(** lines 21-22 *)
Definition get_workfolder : string := dirname sceneName.
End SceneFile.

Section Selection.
Variable sc : scene.
Variable av : avalon.
(** [cmds.ls(selection=True, long=True)] *)
Variable ls_selection : list node.
(** [list(set(l))]: the members of [l] in the order the set yields them *)
Variable list_of_set : list node -> list node.

(** lines 65-76 *)
Definition get_items_from_selection (fuel : nat) : M (list pyval) :=
  let items := [] in
  let selection := ls_selection in
  let! hierarchy := lift (list_descendents sc fuel selection) in
  let nodes := list_of_set (selection ++ hierarchy) in
  let! view_items := create_items_from_selection sc av (Some nodes) in
  ret (items ++ view_items).
End Selection.

(** [list(set(l))] yields every member of [l] once, in some order. *)
Definition yields_each_once (list_of_set : list node -> list node) : Prop :=
  forall l, NoDup (list_of_set l) /\ forall x, In x (list_of_set l) <-> In x l.

(** The identifier attribute of the node resolves to a value. *)
Definition has_id (sc : scene) (n : node) : bool :=
  match get_id sc n with
  | Some _ => true
  | None => false
  end.

(** The nodes listed under [nodes] of a view item. *)
Definition nodes_of (item : pyval) : list pyval :=
  match getitem item "nodes" with
  | Ok (PList l) => l
  | _ => []
  end.

(** What is logged is a warning. *)
Definition is_warning (r : log_record) : bool :=
  match level r with
  | WARNING => true
  | INFO => false
  end.

(** From [w] to [w'] nothing happened but warnings being logged: no look
    was assigned and no container removed. *)
Definition only_warned (w w' : world) : Prop :=
  assigned w' = assigned w
  /\ removed w' = removed w
  /\ exists more, logged w' = logged w ++ more
                  /\ forallb is_warning more = true.

(** The view item [create_items_from_selection] builds for the group of
    the asset id [k] with the nodes [ns]: the document is the one the
    database holds for [k], reduced to its id and name; the label joins the
    namespace of the first node and the name. *)
Definition view_item_of (sc : scene) (av : avalon) (g : string * list node)
  (item : pyval) : Prop :=
  exists doc name looks first a namespace,
    asset_document av (fst g) = Some doc
    /\ dict_get "name" doc = Some name
    /\ (forall w, fetch_looks av (PDict doc) w = (Ok looks, w))
    /\ index0 (snd g) = Ok first
    /\ ls_showNamespace sc first = [a; namespace]
    /\ item = PDict [("asset", PStr (namespace +:+ " : " +:+ py_str av name));
                     ("asset_name", name);
                     ("document", PDict doc);
                     ("looks", PList looks);
                     ("_id", PStr (fst g));
                     ("nodes", node_values (snd g))].

(** ** More of the demo scene *)

Module DemoMore.

(** a container without members *)
Definition empty_c : container :=
  {| objectName := "emptyCON"; loader := "ModelLoader" |}.

Definition av_empty : avalon := {|
  documents := documents Demo.av;
  value_leb := value_leb Demo.av;
  list_looks := list_looks Demo.av;
  host_ls := [Demo.look_a; Demo.model_a; empty_c; Demo.look_b];
  repr := repr Demo.av
|}.

(** the group and one of its members are both selected *)
Definition selection : list node := ["|grp"; "|grp|a1"; "|b1"].

Definition list_of_set (l : list node) : list node := nodup string_dec l.

End DemoMore.

(** ** More vocabulary for the queue conversions *)

Module QueueSpec.
Import Heap.

(** The values under [_id] and [parent] of the document of [item], read
    as the conversions read them. *)
Definition document_ids (s : state) (item vi vp : hval) : Prop :=
  exists dv,
    getitem item "document" s = (Ok dv, s)
    /\ getitem dv "_id" s = (Ok vi, s)
    /\ getitem dv "parent" s = (Ok vp, s).

(** The entries of a dictionary after [d[k] = v] for every [(k, v)] of
    [c] whose key the dictionary has; of two entries of [c] with the same
    key the first counts. *)
Definition rewritten (c : list (string * hval)) (dd : list (string * hval))
  : list (string * hval) :=
  map (fun e => match dict_get (fst e) c with
                | Some v' => (fst e, v')
                | None => e
                end) dd.

(** The store in which the document of [item] has been rewritten in
    place. *)
Definition rewrite_document (h : heap) (item : hval)
  (c : list (string * hval)) : heap :=
  match document_of h item with
  | Some ld =>
      match h !! ld with
      | Some (ODict dd) => <[ld := ODict (rewritten c dd)]> h
      | _ => h
      end
  | None => h
  end.

(** [v'] is a value the conversion [conv] returns for [v]. *)
Definition returns (conv : hval -> H hval) (v v' : hval) : Prop :=
  exists s s', conv v s = (Ok v', s').

(** What [io.ObjectId] makes of a text and of a database id. *)
Definition id_rel (v v' : hval) : Prop :=
  (forall text, v = HAtom (AStr text) ->
                exists o, ObjectId_of_string text = Ok o /\ v' = HAtom (AOid o))
  /\ (forall o, v = HAtom (AOid o) -> v' = HAtom (AOid o)).

(** The values are atoms. *)
Definition atoms (c : list (string * hval)) : Prop :=
  Forall (fun kv => exists a, snd kv = HAtom a) c.

End QueueSpec.

Module QueueDemo.
Import Heap.

(** a queue item as [create_queue_out_data] leaves it: the ids are texts *)
Definition store_out : heap :=
  [ ODict [("_id", HAtom (AStr Demo.id_a)); ("name", HAtom (AStr "hero"));
           ("parent", HAtom (AStr Demo.id_b))];
    OList [HAtom (AStr "|grp|a1")];
    ODict [("asset", HAtom (AStr "hero_01 : hero")); ("document", HRef 0);
           ("nodes", HRef 1)] ].

Definition item_out : hval := HRef 2.

Definition tree_out : pyval :=
  PDict [("asset", PStr "hero_01 : hero");
         ("document", PDict [("_id", PStr Demo.id_a); ("name", PStr "hero");
                             ("parent", PStr Demo.id_b)]);
         ("nodes", PList [PStr "|grp|a1"])].

(** the tree of the item with a look of [HeapDemo.store1] *)
Definition tree1 : pyval :=
  PDict [("document", PDict [("_id", POid HeapDemo.oid_a); ("name", PStr "hero");
                             ("parent", POid HeapDemo.oid_b)]);
         ("looks", PList [PDict [("asset_name", PStr "hero");
                                 ("subset", PStr "lookMain");
                                 ("version", PDict [("_id", POid HeapDemo.oid_v);
                                                    ("name", PAtom (AInt 1))])]])].

(** a queue item read from a file that was edited by hand: its id is no
    text of a database id *)
Definition store_bad : heap :=
  [ ODict [("_id", HAtom (AStr "A1B2")); ("name", HAtom (AStr "hero"));
           ("parent", HAtom (AStr Demo.id_b))];
    ODict [("document", HRef 0)] ].

Definition item_bad : hval := HRef 1.

Definition tree_bad : pyval :=
  PDict [("document", PDict [("_id", PStr "A1B2"); ("name", PStr "hero");
                             ("parent", PStr Demo.id_b)])].

(** the view item of the demo scene for the node [|b1], put into an empty
    store *)
Definition view_items : list pyval :=
  match create_items_from_selection Demo.sc Demo.av (Some ["|b1"]) Demo.w0 with
  | (Ok items, _) => items
  | _ => []
  end.

Definition view_item : pyval := hd PNone view_items.

Definition view_item_value : hval :=
  match json_decode view_item {| store := []; generated := 0 |} with
  | (Ok v, _) => v
  | _ => HAtom ANone
  end.

Definition view_item_state : state :=
  snd (json_decode view_item {| store := []; generated := 0 |}).

End QueueDemo.

(** ** The queue file: [save_to_json]

    A file holds the text of a JSON array, given by the trees of its
    members, or a text that was cut short: [json.dump] writes the text
    piece by piece, so that an exception raised while encoding leaves the
    beginning of the text in the file. Opening a file for writing creates
    it or empties it. *)

Module Files.
Import Heap.

Inductive content :=
| Json (doc : list pyval)
| Unfinished.

Record fstate := {
  (** the store of the Python objects *)
  mem : state;
  (** records emitted through [log] *)
  records : list log_record;
  (** the files, by path *)
  files : list (string * content);
}.

(** How [save_to_json] ends: it returns, an exception of the encoder goes
    through, or [open] raises. [NoFuel] is an artefact of the model, as
    [Stuck] is. *)
Inductive saved :=
| Written
| Raised (e : exn)
| OpenFailed
| NoFuel.

Definition log_info (msg : string) (st : fstate) : fstate :=
  {| mem := mem st;
     records := records st ++ [{| level := INFO; message := msg; args := [] |}];
     files := files st |}.

Definition set_file (path : string) (c : content) (st : fstate) : fstate :=
  {| mem := mem st; records := records st;
     files := dict_set path c (files st) |}.

Section Save.
(** whether [open(filepath, "w")] succeeds *)
Variable can_open : string -> bool.

(** lines 257-264; [items] are the members of the Python list *)
Definition save_to_json (fuel : nat) (filepath : string) (items : list hval)
  (st : fstate) : saved * fstate :=
  let st := log_info "Writing queue file ..." st in
  if can_open filepath then
    let st := set_file filepath Unfinished st in
    match encode_items (json_encode fuel (store (mem st))) items with
    | Ok doc =>
        let st := set_file filepath (Json doc) st in
        (Written, log_info "Successfully written file" st)
    | Raise e => (Raised e, st)
    | Stuck => (NoFuel, st)
    end
  else (OpenFailed, st).
End Save.

Definition info (msg : string) : log_record :=
  {| level := INFO; message := msg; args := [] |}.

(** [st'] is [st] with the records [rs] logged and, when [c] is given,
    with the file at [path] holding [c]; every other file is as it was. *)
Definition after_saving (st : fstate) (rs : list log_record) (path : string)
  (c : option content) (st' : fstate) : Prop :=
  mem st' = mem st
  /\ records st' = records st ++ rs
  /\ dict_get path (files st') = match c with
                                 | Some x => Some x
                                 | None => dict_get path (files st)
                                 end
  /\ forall p, p <> path -> dict_get p (files st') = dict_get p (files st).

Definition always (path : string) : bool := true.

(** a state in which the queue file exists already *)
Definition demo_state (s : state) : fstate :=
  {| mem := s; records := []; files := [("queue.json", Json [])] |}.

End Files.

(** ** Vocabulary of the proofs *)

(** The lookup a finished grouping must answer for the nodes seen so far. *)
Definition grouping_of (sc : scene) (nodes : list node) (k : string)
  : option (list node) :=
  match List.filter (has_asset_key sc k) nodes with
  | [] => None
  | ns => Some ns
  end.

(** The head of a list dominates the list, in the order of the values
    under [key]. *)
Definition head_is_max (av : avalon) (key : string) (l : list document) : Prop :=
  match l with
  | [] => True
  | h :: _ =>
      forall x, In x l ->
        value_leb av (field_or_null key x) (field_or_null key h) = true
  end.

(* ===================================================================== *)
(** * Properties *)
(* ===================================================================== *)

(** ** Text and grouping *)

Lemma split_on_head sep s :
  exists rest, split_on sep s = before_first sep s :: rest.
Proof.
  induction s as [|c s [rest IH]]; simpl.
  - by exists [].
  - destruct (Ascii.eqb c sep).
    + by eexists.
    + rewrite IH. by eexists.
Qed.

Lemma before_first_prefix sep s :
  exists rest,
    s = before_first sep s +:+ rest
    /\ str_mem sep (before_first sep s) = false
    /\ (rest = EmptyString \/ exists r, rest = String sep r).
Proof.
  induction s as [|c s (rest & Hs & Hm & Hr)]; simpl.
  - exists EmptyString. auto.
  - destruct (Ascii.eqb c sep) eqn:E.
    + apply Ascii.eqb_eq in E. subst c.
      exists (String sep s). simpl. eauto.
    + exists rest. split; [by rewrite Hs at 1|]. split; [|done].
      simpl. rewrite Hm. rewrite Ascii.eqb_sym, E. done.
Qed.

Lemma dict_get_hash_append k n h k' :
  dict_get k' (hash_append k n h) =
    if String.eqb k' k
    then Some (match dict_get k h with Some ns => ns | None => [] end ++ [n])
    else dict_get k' h.
Proof.
  induction h as [|[k0 ns] h IH]; simpl.
  - by destruct (String.eqb k' k).
  - destruct (String.eqb k k0) eqn:E; simpl.
    + apply String.eqb_eq in E. subst k0.
      by destruct (String.eqb k' k).
    + rewrite IH. destruct (String.eqb k' k0) eqn:E'; [|done].
      apply String.eqb_eq in E'. subst k0.
      rewrite String.eqb_sym, E. done.
Qed.

Lemma hash_append_keys k n h :
  map fst (hash_append k n h) = map fst h \/
  (dict_get k h = None /\ map fst (hash_append k n h) = map fst h ++ [k]).
Proof.
  induction h as [|[k0 ns] h IH]; simpl.
  - right. done.
  - destruct (String.eqb k k0) eqn:E; simpl; [by left|].
    destruct IH as [IH|[IH1 IH2]]; [left|right]; by rewrite ?IH, ?IH2.
Qed.

Lemma dict_get_None_keys {V} k (d : list (string * V)) :
  dict_get k d = None -> k ∉ map fst d.
Proof.
  induction d as [|[k0 v] d IH]; simpl; intros H.
  - apply not_elem_of_nil.
  - destruct (String.eqb k k0) eqn:E; [done|].
    apply String.eqb_neq in E. rewrite not_elem_of_cons. auto.
Qed.

Lemma hash_append_NoDup k n h : NoDup (map fst h) -> NoDup (map fst (hash_append k n h)).
Proof.
  intros Hnd. destruct (hash_append_keys k n h) as [->|[Hk ->]]; [done|].
  apply NoDup_app. split; [done|]. split.
  - intros x Hx ->%list_elem_of_singleton.
    by apply (dict_get_None_keys _ _ Hk).
  - apply NoDup_singleton.
Qed.

Lemma grouping_of_snoc sc seen n k :
  grouping_of sc (seen ++ [n]) k =
    if has_asset_key sc k n
    then Some (List.filter (has_asset_key sc k) seen ++ [n])
    else grouping_of sc seen k.
Proof.
  unfold grouping_of. rewrite List.filter_app. simpl.
  destruct (has_asset_key sc k n).
  - by destruct (List.filter _ seen).
  - by rewrite app_nil_r.
Qed.

Lemma create_asset_id_hash_loop_spec sc nodes : forall seen h,
  NoDup (map fst h) ->
  (forall k, dict_get k h = grouping_of sc seen k) ->
  exists h',
    create_asset_id_hash_loop sc nodes h = Ok h'
    /\ NoDup (map fst h')
    /\ forall k, dict_get k h' = grouping_of sc (seen ++ nodes) k.
Proof.
  induction nodes as [|n nodes IH]; intros seen h Hnd Hh; simpl.
  - exists h. by rewrite app_nil_r.
  - replace (seen ++ n :: nodes) with ((seen ++ [n]) ++ nodes)
      by (by rewrite <- app_assoc).
    destruct (get_id sc n) as [value|] eqn:Hid.
    + destruct (split_on_head ":" value) as [rest ->]. simpl.
      apply IH; [by apply hash_append_NoDup|].
      intros k. rewrite dict_get_hash_append, grouping_of_snoc.
      unfold has_asset_key, asset_key. rewrite Hid.
      rewrite (String.eqb_sym (before_first _ _) k).
      destruct (String.eqb k _) eqn:E; [|apply Hh].
      apply String.eqb_eq in E. subst k. rewrite Hh. unfold grouping_of.
      by destruct (List.filter _ seen).
    + apply IH; [done|].
      intros k. rewrite grouping_of_snoc.
      unfold has_asset_key, asset_key. rewrite Hid. apply Hh.
Qed.

(** C1. For every list of nodes [create_asset_id_hash] returns a dictionary
    with pairwise distinct keys in which looking up a key [k] yields exactly
    the nodes, in input order, whose identifier is present and whose
    identifier up to the first colon is [k]; a key with no such node is
    absent, so nodes without identifier contribute no key. The prefix used
    as key contains no colon and is followed in the identifier by nothing
    or by a colon. *)
Theorem create_asset_id_hash_groups (sc : scene) (nodes : list node) :
  (exists h,
      create_asset_id_hash sc (Some nodes) = Ok h
      /\ NoDup (map fst h)
      /\ forall k, dict_get k h =
                   match List.filter (has_asset_key sc k) nodes with
                   | [] => None
                   | ns => Some ns
                   end)
  /\ (forall n value, get_id sc n = Some value ->
        exists key rest,
          asset_key sc n = Some key
          /\ value = key +:+ rest
          /\ str_mem ":" key = false
          /\ (rest = EmptyString \/ exists r, rest = String ":" r)).
Proof.
  split.
  - destruct (create_asset_id_hash_loop_spec sc nodes [] [])
      as (h & Hrun & Hnd & Hget); [apply NoDup_nil_2|done|].
    exists h. split; [done|]. split; [done|]. apply Hget.
  - intros n value Hid.
    destruct (before_first_prefix ":" value) as (rest & H1 & H2 & H3).
    exists (before_first ":" value), rest.
    unfold asset_key. rewrite Hid. done.
Qed.

(** ** The database model *)

Section SortFacts.
Variable av : avalon.
Variable key : string.
Hypothesis Hord : total_preorder (value_leb av).

Let le (a b : document) : Prop :=
  value_leb av (field_or_null key a) (field_or_null key b) = true.

Lemma insert_desc_In d sorted x :
  In x (insert_desc av key d sorted) <-> x = d \/ In x sorted.
Proof.
  induction sorted as [|d' rest IH]; simpl.
  - intuition.
  - destruct (value_leb av _ _); simpl; rewrite ?IH; intuition.
Qed.

Lemma insert_desc_head_is_max d sorted :
  head_is_max av key sorted -> head_is_max av key (insert_desc av key d sorted).
Proof.
  destruct Hord as [Htot Htrans].
  destruct sorted as [|h rest]; simpl.
  - intros _ x [->|[]]. unfold le. by destruct (Htot (field_or_null key x) (field_or_null key x)).
  - intros Hmax. destruct (value_leb av _ _) eqn:E; simpl.
    + intros x [->|Hx]; [by apply Hmax; left|].
      apply insert_desc_In in Hx as [->|Hx]; [done|].
      apply Hmax. by right.
    + assert (le h d) as Hhd.
      { unfold le. destruct (Htot (field_or_null key h) (field_or_null key d)); congruence. }
      intros x [->|Hx].
      * unfold le. by destruct (Htot (field_or_null key x) (field_or_null key x)).
      * unfold le in *. eapply Htrans; [|exact Hhd]. by apply Hmax.
Qed.

Lemma sort_desc_spec ds :
  head_is_max av key (sort_desc av key ds)
  /\ forall x, In x (sort_desc av key ds) <-> In x ds.
Proof.
  unfold sort_desc.
  assert (forall acc, head_is_max av key acc ->
            head_is_max av key (fold_left (fun acc d => insert_desc av key d acc) ds acc)
            /\ forall x, In x (fold_left (fun acc d => insert_desc av key d acc) ds acc)
                         <-> In x acc \/ In x ds) as H.
  { induction ds as [|d ds IH]; intros acc Hacc; simpl.
    - intuition.
    - destruct (IH (insert_desc av key d acc)) as [H1 H2];
        [by apply insert_desc_head_is_max|].
      split; [done|]. intros x. rewrite H2, insert_desc_In. intuition. }
  destruct (H []) as [H1 H2]; [done|]. split; [done|].
  intros x. rewrite H2. simpl. intuition.
Qed.
End SortFacts.

Lemma find_one_version_highest av subset_id :
  total_preorder (value_leb av) ->
  highest_named_version av subset_id
    (doc_value (find_one av [("type", PStr "version"); ("parent", subset_id)]
                  ["name"; "parent"] (Some "name"))).
Proof.
  intros Hord. unfold find_one.
  destruct (sort_desc_spec av "name" Hord
              (List.filter (doc_matches [("type", PStr "version"); ("parent", subset_id)])
                 (documents av))) as [Hmax Hin].
  destruct (sort_desc av "name" _) as [|d rest] eqn:E; simpl.
  - left. split; [done|]. intros d Hd.
    destruct (version_under subset_id d) eqn:Hv; [|done].
    exfalso. apply (proj2 (Hin d)). apply filter_In. by split.
  - right. exists d.
    assert (In d (d :: rest)) as Hd by (by left).
    apply Hin in Hd. apply filter_In in Hd as [Hd1 Hd2].
    split; [done|]. split; [done|]. split; [done|].
    intros d' Hd' Hv'. apply Hmax. apply Hin. apply filter_In. by split.
Qed.

(** ** Running the monad *)

Ltac mrun :=
  repeat (cbn [bind lift ret raise fst snd] in * ||
          unfold bind, lift, ret, raise in * ).

Lemma fetch_looks_loop_spec av asset_name subsets : forall acc w,
  total_preorder (value_leb av) ->
  Forall (fun s => exists sid sname,
              getitem s "_id" = Ok sid /\ getitem s "name" = Ok sname) subsets ->
  exists looks,
    fetch_looks_loop av asset_name subsets acc w = (Ok (acc ++ looks), w)
    /\ Forall2 (fun subset look =>
                  exists sid sname v,
                    getitem subset "_id" = Ok sid
                    /\ getitem subset "name" = Ok sname
                    /\ look = PDict [("asset_name", asset_name);
                                     ("subset", sname);
                                     ("version", v)]
                    /\ highest_named_version av sid v) subsets looks.
Proof.
  intros acc w Hord Hall. revert acc w.
  induction Hall as [|s subsets (sid & sname & Hsid & Hsname) _ IH]; intros acc w.
  - exists []. simpl. rewrite app_nil_r. split; [done|constructor].
  - simpl. unfold fetch_looks_step, bind, lift, ret. rewrite Hsid, Hsname.
    destruct (IH (acc ++ [PDict [("asset_name", asset_name); ("subset", sname);
        ("version", doc_value (find_one av [("type", PStr "version"); ("parent", sid)]
                                 ["name"; "parent"] (Some "name")))]]) w)
      as (looks & Hrun & Hlooks).
    eexists (_ :: looks). rewrite <- app_assoc in Hrun. split; [exact Hrun|].
    constructor; [|done].
    eexists sid, sname, _. split; [done|]. split; [done|]. split; [reflexivity|].
    by apply find_one_version_highest.
Qed.

(** C2. For an asset document with a name and an id whose look subsets each
    carry an id and a name, [fetch_looks] returns, without any effect, one
    record per subset in the order the subsets are listed; each record
    carries the asset's name, the subset's name and a version that is null
    when no version document lies under the subset and otherwise the
    projection of a version document under the subset whose name is highest
    in the database's ordering. *)
Theorem fetch_looks_one_record_per_subset
  (av : avalon) (asset asset_name asset_id : pyval) (w : world) :
  total_preorder (value_leb av) ->
  getitem asset "name" = Ok asset_name ->
  getitem asset "_id" = Ok asset_id ->
  Forall (fun s => exists sid sname,
              getitem s "_id" = Ok sid /\ getitem s "name" = Ok sname)
         (list_looks av asset_id) ->
  exists looks,
    fetch_looks av asset w = (Ok looks, w)
    /\ Forall2 (fun subset look =>
                  exists sid sname v,
                    getitem subset "_id" = Ok sid
                    /\ getitem subset "name" = Ok sname
                    /\ look = PDict [("asset_name", asset_name);
                                     ("subset", sname);
                                     ("version", v)]
                    /\ highest_named_version av sid v)
               (list_looks av asset_id) looks.
Proof.
  intros Hord Hname Hid Hsubs.
  unfold fetch_looks, bind, lift. rewrite Hname, Hid.
  destruct (fetch_looks_loop_spec av asset_name (list_looks av asset_id) [] w Hord Hsubs)
    as (looks & Hrun & Hlooks).
  exists looks. by split.
Qed.

(** ** Assignment *)

(** C5. A queue entry without a node list, or with an empty one, makes
    [process_queued_item] raise the assertion error and leaves the world
    as it was: in particular no call of the assignment collaborator is
    recorded. *)
Theorem process_queued_item_rejects_empty_nodes
  (fields : list (string * pyval)) (w : world) :
  dict_get "nodes" fields = None \/ dict_get "nodes" fields = Some (PList []) ->
  process_queued_item (PDict fields) w = (Raise AssertionError, w)
  /\ assigned (snd (process_queued_item (PDict fields) w)) = assigned w.
Proof.
  intros [H|H]; unfold process_queued_item, bind, ret, raise; rewrite H; done.
Qed.

(** ** Unused looks *)

Lemma no_look_set_in_use_existsb sc look_sets :
  no_look_set_in_use sc look_sets = negb (existsb (has_contents sc) look_sets).
Proof.
  induction look_sets as [|s rest IH]; simpl; [done|].
  unfold has_contents at 1.
  destruct (sets_query sc s) as [[|]|]; simpl; done.
Qed.

Lemma collect_unused_filter sc cs : forall unused,
  collect_unused sc cs unused =
    unused ++ List.filter (fun c => is_look_container c && negb (look_in_use sc c)) cs.
Proof.
  induction cs as [|c cs IH]; intros unused; simpl.
  - by rewrite app_nil_r.
  - unfold is_look_container at 1. destruct (String.eqb (loader c) "LookLoader"); simpl.
    + rewrite no_look_set_in_use_existsb. unfold look_in_use at 1, member_sets.
      destruct (existsb _ _); simpl; rewrite IH; [done|].
      by rewrite <- app_assoc.
    + apply IH.
Qed.

Lemma remove_each_run cs : forall w,
  for_each cs (fun c =>
      log_warning "Removing unused look container: %s" [PStr (objectName c)] ;;
      api_remove c) w =
    (Ok tt, {| logged := logged w ++ map removal_warning cs;
               assigned := assigned w;
               removed := removed w ++ cs |}).
Proof.
  induction cs as [|c cs IH]; intros w; simpl.
  - unfold ret. rewrite !app_nil_r. by destruct w.
  - unfold bind at 1. unfold bind at 1. simpl. rewrite IH. simpl.
    by rewrite <- !app_assoc.
Qed.

(** C6. [remove_unused_looks] succeeds; the containers it hands to the
    removal collaborator are, in host order, exactly the look-loader
    containers none of whose member sets has contents, and one warning is
    logged for each. Hence a reported container is removed if and only if
    it is a look-loader container with no member set in use: a look-loader
    container with a non-empty member set stays, and so does every
    container of another loader. *)
Theorem remove_unused_looks_removes_exactly_unused
  (sc : scene) (av : avalon) (w : world) :
  let unused := List.filter (fun c => is_look_container c && negb (look_in_use sc c))
                  (host_ls av) in
  remove_unused_looks sc av w =
    (Ok tt, {| logged := logged w ++ map removal_warning unused;
               assigned := assigned w;
               removed := removed w ++ unused |})
  /\ (forall c, In c unused <->
                In c (host_ls av)
                /\ loader c = "LookLoader"
                /\ forall s, In s (member_sets sc c) -> has_contents sc s = false).
Proof.
  intros unused. split.
  - unfold remove_unused_looks. rewrite collect_unused_filter. simpl.
    apply remove_each_run.
  - intros c. unfold unused. rewrite filter_In, andb_true_iff, negb_true_iff.
    unfold is_look_container, look_in_use. rewrite String.eqb_eq.
    split.
    + intros (Hin & Hl & Hex). split; [done|]. split; [done|].
      intros s Hs. destruct (has_contents sc s) eqn:E; [|done].
      assert (existsb (has_contents sc) (member_sets sc c) = true) as Hc
        by (apply existsb_exists; eauto).
      congruence.
    + intros (Hin & Hl & Hall). split; [done|]. split; [done|].
      destruct (existsb _ _) eqn:E; [|done].
      apply existsb_exists in E as (s & Hs & Hc). rewrite (Hall s Hs) in Hc. done.
Qed.

(** ** Assets of the scene *)

Lemma get_all_assets_loop_gather sc av cs : forall items w,
  get_all_assets_loop sc av cs items w =
    match gather_view_items sc av
            (List.filter (fun c => negb (is_look_container c)) cs) w with
    | (Ok more, w') => (Ok (items ++ more), w')
    | (Raise e, w') => (Raise e, w')
    | (Stuck, w') => (Stuck, w')
    end.
Proof.
  induction cs as [|c cs IH]; intros items w; simpl.
  - unfold ret. by rewrite app_nil_r.
  - unfold is_look_container at 1.
    destruct (String.eqb (loader c) "LookLoader"); simpl; [apply IH|].
    unfold bind, ret.
    destruct (create_items_from_selection sc av _ w) as [[view_items|e|] w1]; try done.
    destruct view_items as [|v vs]; rewrite IH;
      destruct (gather_view_items sc av _ w1) as [[more|e|] w2]; try done.
    by rewrite <- app_assoc.
Qed.

(** [get_all_assets] passes over the containers tagged [LookLoader]
    without any query and runs, effects and failures included, as
    [gather_view_items] on the others, in host order. *)
Lemma get_all_assets_skips_look_containers
  (sc : scene) (av : avalon) (w : world) :
  get_all_assets sc av w =
    gather_view_items sc av
      (List.filter (fun c => negb (String.eqb (loader c) "LookLoader")) (host_ls av)) w.
Proof.
  unfold get_all_assets. rewrite get_all_assets_loop_gather.
  unfold is_look_container.
  by destruct (gather_view_items sc av _ w) as [[more|e|] w'].
Qed.

(** ** View items *)

Lemma In_dict_get {V} k (v : V) d :
  NoDup (map fst d) -> In (k, v) d -> dict_get k d = Some v.
Proof.
  induction d as [|[k0 v0] d IH]; simpl; [done|].
  intros Hnd [Heq|Hin].
  - inversion Heq; subst. by rewrite String.eqb_refl.
  - apply NoDup_cons in Hnd as [Hk0 Hnd].
    destruct (String.eqb k k0) eqn:E; [|by apply IH].
    apply String.eqb_eq in E. subst k0. exfalso. apply Hk0.
    apply list_elem_of_In. apply (in_map fst) in Hin. done.
Qed.

Lemma create_asset_id_hash_nonempty sc content h :
  create_asset_id_hash sc content = Ok h ->
  forall k ns, In (k, ns) h -> exists n ns', ns = n :: ns'.
Proof.
  destruct content as [nodes|]; [|done]. intros Hrun k ns Hin.
  destruct (create_asset_id_hash_groups sc nodes) as [(h' & Hrun' & Hnd & Hget) _].
  rewrite Hrun in Hrun'. inversion Hrun'; subst h'.
  pose proof (In_dict_get k ns h Hnd Hin) as Hk. rewrite Hget in Hk.
  destruct (List.filter _ nodes) as [|n ns']; [done|].
  inversion Hk. eauto.
Qed.

Lemma fetch_looks_loop_run av asset_name subsets : forall acc w,
  Forall subset_has_fields subsets ->
  fetch_looks_loop av asset_name subsets acc w =
    (Ok (acc ++ map (look_record av asset_name) subsets), w).
Proof.
  intros acc w Hall. revert acc w.
  induction Hall as [|s subsets (sid & sname & Hsid & Hsname) _ IH]; intros acc w; simpl.
  - by rewrite app_nil_r.
  - unfold fetch_looks_step, bind, lift, ret, look_record.
    rewrite Hsid, Hsname, IH. by rewrite <- app_assoc.
Qed.

Lemma fetch_looks_loop_world av asset_name subsets : forall acc w,
  snd (fetch_looks_loop av asset_name subsets acc w) = w.
Proof.
  induction subsets as [|s subsets IH]; intros acc w; simpl; [done|].
  unfold fetch_looks_step, bind, lift, ret.
  destruct (getitem s "_id"); try done.
  destruct (getitem s "name"); try done.
Qed.

Lemma fetch_looks_world av asset w : snd (fetch_looks av asset w) = w.
Proof.
  unfold fetch_looks, bind, lift.
  destruct (getitem asset "name"); try done.
  destruct (getitem asset "_id"); try done.
  apply fetch_looks_loop_world.
Qed.

(** What one turn of the loop over the groups does. *)
Lemma create_item_cases sc av k n ns w :
  match create_item sc av k (n :: ns) w with
  | (Ok (Some item), w') =>
      w' = w /\ known_id av k = true
      /\ getitem item "_id" = Ok (PStr k)
      /\ getitem item "nodes" = Ok (node_values (n :: ns))
  | (Ok None, w') =>
      known_id av k = false /\ well_formed_id k
      /\ w' = {| logged := logged w ++ missing_id_warnings k (n :: ns);
                 assigned := assigned w; removed := removed w |}
  | (Raise e, w') => w' = w
  | (Stuck, w') => w' = w
  end.
Proof.
  unfold create_item, known_id, asset_document, well_formed_id, bind, lift.
  destruct (ObjectId_of_string k) as [oid| |]; try done.
  destruct (truthy (doc_value (find_one av [("_id", POid oid)] ["name"] None))) eqn:Hdoc;
    simpl.
  - pose proof (fetch_looks_world av (doc_value (find_one av [("_id", POid oid)] ["name"] None)) w) as Hw.
    destruct (fetch_looks av _ w) as [[looks| |] w1]; simpl in Hw; subst w1; try done.
    unfold get_namespace_from_node.
    destruct (ls_showNamespace sc n) as [|a [|b [|c l]]]; try done.
    unfold ret at 1.
    destruct (getitem _ "name") as [name| |]; try done.
  - unfold log_warning, ret, missing_id_warnings. simpl. rewrite <- app_assoc.
    split; [done|]. split; [eauto|done].
Qed.

Lemma create_item_buildable sc av k n ns w :
  known_id av k = true -> buildable sc av k (n :: ns) ->
  exists item, create_item sc av k (n :: ns) w = (Ok (Some item), w).
Proof.
  intros Hknown Hb. unfold known_id in Hknown.
  destruct (asset_document av k) as [doc|] eqn:Hdoc; [|done].
  destruct (Hb doc Hdoc) as [(name & aid & Hname & Haid & Hsubs) Hns].
  destruct (Hns n eq_refl) as (a & b & Hab).
  unfold asset_document in Hdoc. unfold create_item, bind, lift.
  destruct (ObjectId_of_string k) as [oid| |]; try done.
  rewrite Hdoc, Hknown. simpl.
  unfold fetch_looks, bind, lift. simpl. rewrite Hname, Haid.
  rewrite fetch_looks_loop_run by done.
  unfold get_namespace_from_node. rewrite Hab. unfold ret. eauto.
Qed.

Lemma create_item_unknown sc av k ns w :
  well_formed_id k -> known_id av k = false ->
  create_item sc av k ns w =
    (Ok None, {| logged := logged w ++ missing_id_warnings k ns;
                 assigned := assigned w; removed := removed w |}).
Proof.
  intros [oid Hoid] Hk. unfold known_id, asset_document in Hk.
  unfold create_item, bind, lift. rewrite Hoid in Hk |- *. rewrite Hk. simpl.
  unfold log_warning, ret, missing_id_warnings. simpl. by rewrite <- app_assoc.
Qed.

Lemma create_items_loop_spec sc av groups : forall acc w,
  Forall (fun g => exists n ns', snd g = n :: ns') groups ->
  Forall (fun g => well_formed_id (fst g)) groups ->
  Forall (fun g => buildable sc av (fst g) (snd g)) groups ->
  exists items,
    create_items_loop sc av groups acc w =
      (Ok (acc ++ items),
       {| logged := logged w ++
            flat_map (fun g => missing_id_warnings (fst g) (snd g))
              (List.filter (fun g => negb (group_known av g)) groups);
          assigned := assigned w; removed := removed w |})
    /\ Forall2 (fun g item =>
                  getitem item "_id" = Ok (PStr (fst g))
                  /\ getitem item "nodes" = Ok (node_values (snd g)))
         (List.filter (group_known av) groups) items.
Proof.
  induction groups as [|[k ns] groups IH]; intros acc w Hne Hwf Hb; simpl.
  - exists []. rewrite !app_nil_r. split; [by destruct w|constructor].
  - apply Forall_cons in Hne as [(n & ns' & Hns) Hne]. simpl in Hns. subst ns.
    apply Forall_cons in Hwf as [Hwfk Hwf]. simpl in Hwfk.
    apply Forall_cons in Hb as [Hbk Hb]. simpl in Hbk.
    change (group_known av (k, n :: ns')) with (known_id av k).
    unfold bind at 1.
    destruct (known_id av k) eqn:Hk; simpl.
    + destruct (create_item_buildable sc av k n ns' w Hk Hbk) as (item & Hrun).
      pose proof (create_item_cases sc av k n ns' w) as Hcase.
      rewrite Hrun in Hcase |- *. destruct Hcase as (_ & _ & Hid & Hnodes).
      destruct (IH (acc ++ [item]) w Hne Hwf Hb) as (items & Hloop & Hitems).
      exists (item :: items). rewrite Hloop, <- app_assoc. split; [done|].
      by constructor.
    + rewrite (create_item_unknown sc av k (n :: ns') w Hwfk Hk).
      destruct (IH acc {| logged := logged w ++ missing_id_warnings k (n :: ns');
                          assigned := assigned w; removed := removed w |}
                  Hne Hwf Hb) as (items & Hloop & Hitems).
      exists items. rewrite Hloop. simpl. rewrite <- app_assoc. done.
Qed.

Lemma create_items_loop_nodes sc av (P : pyval -> Prop) groups : forall acc w items w',
  (forall item, (exists n ns, getitem item "nodes" = Ok (node_values (n :: ns))) -> P item) ->
  Forall (fun g => exists n ns', snd g = n :: ns') groups ->
  Forall P acc ->
  create_items_loop sc av groups acc w = (Ok items, w') ->
  Forall P items.
Proof.
  induction groups as [|[k ns] groups IH]; intros acc w items w' HP Hne Hacc; simpl.
  - unfold ret. intros [= <- _]. done.
  - apply Forall_cons in Hne as [(n & ns' & Hns) Hne]. simpl in Hns. subst ns.
    unfold bind. pose proof (create_item_cases sc av k n ns' w) as Hcase.
    destruct (create_item sc av k (n :: ns') w) as [[[item|]| |] w1]; try done.
    + destruct Hcase as (_ & _ & _ & Hnodes).
      apply IH; [done|done|]. apply Forall_app. split; [done|].
      constructor; [|done]. apply HP. eauto.
    + by apply IH.
Qed.

Lemma process_queued_item_passes_assertion item x xs w :
  getitem item "nodes" = Ok (PList (x :: xs)) ->
  fst (process_queued_item item w) <> Raise AssertionError.
Proof.
  destruct item as [a|l|d]; try done. simpl.
  unfold process_queued_item, bind, lift, ret.
  destruct (dict_get "nodes" d) as [v|] eqn:Hv; [|done].
  intros [= ->]. simpl.
  destruct (dict_get "version" d) as [version|]; [|done].
  destruct (getitem version "_id") as [vid|e|] eqn:Hvid; simpl; try done.
  destruct version as [a|l|d']; simpl in Hvid;
    [by inversion Hvid|by inversion Hvid|].
  by destruct (dict_get "_id" d'); inversion Hvid.
Qed.

(** C10. Whenever [create_items_from_selection] returns view items, every
    group of the asset-id hash it iterated over holds at least one node, so
    taking the group's first node never fails; and every returned item
    carries under [nodes] a non-empty list, on which [process_queued_item]
    does not raise its assertion error. *)
Theorem view_items_have_nodes
  (sc : scene) (av : avalon) (content : option (list node))
  (w w' : world) (items : list pyval) :
  create_items_from_selection sc av content w = (Ok items, w') ->
  (forall h, create_asset_id_hash sc content = Ok h ->
             forall k ns, In (k, ns) h -> exists n, index0 ns = Ok n)
  /\ Forall (fun item =>
               (exists n ns, getitem item "nodes" = Ok (node_values (n :: ns)))
               /\ forall w0, fst (process_queued_item item w0) <> Raise AssertionError)
       items.
Proof.
  intros Hrun. split.
  - intros h Hh k ns Hin.
    destruct (create_asset_id_hash_nonempty sc content h Hh k ns Hin) as (n & ns' & ->).
    by exists n.
  - unfold create_items_from_selection, bind, lift in Hrun.
    destruct (create_asset_id_hash sc content) as [h| |] eqn:Hh; try done.
    destruct h as [|g h].
    { unfold ret in Hrun. injection Hrun as <- _. constructor. }
    eapply (create_items_loop_nodes sc av _ (g :: h) [] w items w'); [| |done|done].
    + intros item (n & ns & Hnodes). split; [eauto|].
      intros w0. eapply process_queued_item_passes_assertion. exact Hnodes.
    + apply List.Forall_forall. intros [k ns] Hin.
      apply (create_asset_id_hash_nonempty sc content _ Hh k ns Hin).
Qed.

(** C4, as the code has it. When the asset ids of the nodes are all texts
    of database ids, exactly two of them have a matching document, exactly
    one has none, and nothing is missing to build the items of the two,
    [create_items_from_selection] returns exactly two view items, one per
    known id in the order of the hash, each with the id and the nodes of
    its group; the group of the unknown id yields no item, and for it two
    warning records are logged, the first naming the id and the second the
    nodes; nothing else of the world changes. *)
Theorem create_items_two_known_one_unknown
  (sc : scene) (av : avalon) (nodes : list node)
  (groups : list (string * list node)) (w : world) :
  create_asset_id_hash sc (Some nodes) = Ok groups ->
  Forall (fun g => well_formed_id (fst g)) groups ->
  Forall (fun g => buildable sc av (fst g) (snd g)) groups ->
  length (List.filter (group_known av) groups) = 2 ->
  length (List.filter (fun g => negb (group_known av g)) groups) = 1 ->
  exists items k ns,
    List.filter (fun g => negb (group_known av g)) groups = [(k, ns)]
    /\ create_items_from_selection sc av (Some nodes) w =
         (Ok items,
          {| logged := logged w ++ missing_id_warnings k ns;
             assigned := assigned w; removed := removed w |})
    /\ length items = 2
    /\ Forall2 (fun g item =>
                  getitem item "_id" = Ok (PStr (fst g))
                  /\ getitem item "nodes" = Ok (node_values (snd g)))
         (List.filter (group_known av) groups) items.
Proof.
  intros Hh Hwf Hb Hknown Hunknown.
  assert (Forall (fun g : string * list node => exists n ns', snd g = n :: ns') groups) as Hne.
  { apply List.Forall_forall. intros [k ns] Hin.
    apply (create_asset_id_hash_nonempty sc _ _ Hh k ns Hin). }
  destruct (create_items_loop_spec sc av groups [] w Hne Hwf Hb) as (items & Hloop & Hitems).
  destruct (List.filter (fun g => negb (group_known av g)) groups)
    as [|[k ns] [|g' rest]] eqn:Hunk; try done.
  exists items, k, ns. split; [done|]. split.
  - unfold create_items_from_selection, bind, lift. rewrite Hh.
    destruct groups as [|g groups]; [done|].
    rewrite Hloop. simpl. done.
  - split; [|done]. apply Forall2_length in Hitems. congruence.
Qed.

(** ** Descendants *)

Section Descendants.
Variable sc : scene.
Variable children : node -> list node.
Hypothesis Hls : lists_children sc children.

Lemma descendant_none nodes :
  (forall p, In p nodes -> children p = []) ->
  forall n, ~ descendant children nodes n.
Proof.
  intros Hno n Hd. induction Hd as [p c Hp Hc|p c Hd IH Hc]; [|done].
  rewrite (Hno p Hp) in Hc. done.
Qed.

Lemma descendant_unfold nodes level :
  (forall c, In c level <-> exists p, In p nodes /\ In c (children p)) ->
  forall n, descendant children nodes n <->
            In n level \/ descendant children level n.
Proof.
  intros Hlevel n. split.
  - intros Hd. induction Hd as [p c Hp Hc|p c Hd IH Hc].
    + left. apply Hlevel. eauto.
    + right. destruct IH as [IH|IH].
      * by eapply descendant_child.
      * by eapply descendant_step.
  - intros [Hin|Hd].
    + apply Hlevel in Hin as (p & Hp & Hc). by eapply descendant_child.
    + induction Hd as [p c Hp Hc|p c Hd IH Hc].
      * apply Hlevel in Hp as (q & Hq & Hpq).
        eapply descendant_step; [|done]. by eapply descendant_child.
      * by eapply descendant_step.
Qed.

Variable height : node -> nat.
Hypothesis Hheight : forall p c, In c (children p) -> height c < height p.

Lemma frontier_lower nodes c cs :
  listRelatives sc nodes = Some (c :: cs) ->
  list_max (map height (c :: cs)) < list_max (map height nodes).
Proof.
  intros Hq. pose proof (Hls nodes) as Hlevel. rewrite Hq in Hlevel.
  apply list_max_lt; [done|].
  apply List.Forall_forall. intros h Hh.
  apply in_map_iff in Hh as (x & <- & Hx).
  apply Hlevel in Hx as (p & Hp & Hc).
  eapply Nat.lt_le_trans; [by apply Hheight|].
  pose proof (proj1 (list_max_le (map height nodes) _) (Nat.le_refl _)) as Hall.
  rewrite List.Forall_forall in Hall. apply Hall. by apply in_map.
Qed.

Lemma list_descendents_loop_spec : forall bound nodes,
  list_max (map height nodes) <= bound ->
  exists result,
    expansion sc nodes result
    /\ (forall n, In n result <-> descendant children nodes n)
    /\ forall fuel acc, bound < fuel ->
         list_descendents_loop sc fuel nodes acc = Ok (acc ++ result).
Proof.
  induction bound as [|bound IH]; intros nodes Hbound.
  - pose proof (Hls nodes) as Hlevel.
    destruct (listRelatives sc nodes) as [[|c cs]|] eqn:Hq.
    + exists []. split; [constructor; auto|]. split.
      * intros n. split; [done|]. intros Hd. exfalso.
        apply (descendant_unfold nodes [] Hlevel) in Hd as [[]|Hd].
        by apply (descendant_none [] (fun p (H : In p []) => match H with end)) in Hd.
      * intros [|fuel] acc Hf; [lia|]. simpl. rewrite Hq. by rewrite app_nil_r.
    + pose proof (frontier_lower nodes c cs Hq). lia.
    + exists []. split; [constructor; auto|]. split.
      * intros n. split; [done|]. by intros Hd%descendant_none.
      * intros [|fuel] acc Hf; [lia|]. simpl. rewrite Hq. by rewrite app_nil_r.
  - pose proof (Hls nodes) as Hlevel.
    destruct (listRelatives sc nodes) as [[|c cs]|] eqn:Hq.
    + exists []. split; [constructor; auto|]. split.
      * intros n. split; [done|]. intros Hd. exfalso.
        apply (descendant_unfold nodes [] Hlevel) in Hd as [[]|Hd].
        by apply (descendant_none [] (fun p (H : In p []) => match H with end)) in Hd.
      * intros [|fuel] acc Hf; [lia|]. simpl. rewrite Hq. by rewrite app_nil_r.
    + pose proof (frontier_lower nodes c cs Hq) as Hlow.
      destruct (IH (c :: cs)) as (rest & Hexp & Hmem & Hrun); [lia|].
      exists ((c :: cs) ++ rest). split; [by constructor|]. split.
      * intros n. rewrite (descendant_unfold nodes (c :: cs) Hlevel).
        rewrite in_app_iff, Hmem. done.
      * intros [|fuel] acc Hf; [lia|]. simpl. rewrite Hq.
        rewrite Hrun by lia. by rewrite <- app_assoc.
    + exists []. split; [constructor; auto|]. split.
      * intros n. split; [done|]. by intros Hd%descendant_none.
      * intros [|fuel] acc Hf; [lia|]. simpl. rewrite Hq. by rewrite app_nil_r.
Qed.
End Descendants.

(** C7. When the scene's [listRelatives] answers with the immediate
    children of the nodes it is given and the child relation is finite and
    acyclic, [list_descendents] terminates for every starting list: from
    some number of iterations on it returns one and the same list, which
    accumulates the answers of the successive queries up to the first one
    without children, and whose members are exactly the descendants of the
    starting nodes. *)
Theorem list_descendents_terminates_with_all_descendants
  (sc : scene) (children : node -> list node) (nodes : list node) :
  lists_children sc children ->
  finite_acyclic children ->
  exists enough result,
    (forall fuel, enough <= fuel -> list_descendents sc fuel nodes = Ok result)
    /\ expansion sc nodes result
    /\ forall n, In n result <-> descendant children nodes n.
Proof.
  intros Hls [height Hheight].
  destruct (list_descendents_loop_spec sc children Hls height Hheight
              (list_max (map height nodes)) nodes (Nat.le_refl _))
    as (result & Hexp & Hmem & Hrun).
  exists (S (list_max (map height nodes))), result.
  split; [|done]. intros fuel Hf. unfold list_descendents.
  rewrite (Hrun fuel []) by lia. done.
Qed.

(** ** The statements on the demo scene *)

Lemma demo_total_preorder : total_preorder (value_leb Demo.av).
Proof.
  split; simpl.
  - intros x y. rewrite !Z.leb_le. lia.
  - intros x y z. rewrite !Z.leb_le. lia.
Qed.

Lemma demo_lists_children : lists_children Demo.sc Demo.children.
Proof.
  intros ns. simpl.
  destruct (flat_map Demo.children ns) as [|c cs] eqn:E.
  - intros p Hp. destruct (Demo.children p) as [|x l] eqn:Hc; [done|].
    assert (In x (flat_map Demo.children ns)) as Hin.
    { apply in_flat_map. exists p. rewrite Hc. split; [done|by left]. }
    rewrite E in Hin. done.
  - intros x. rewrite <- E. apply in_flat_map.
Qed.

Lemma demo_finite_acyclic : finite_acyclic Demo.children.
Proof.
  exists Demo.height. intros p c. unfold Demo.children, Demo.height.
  destruct (String.eqb p "|grp") eqn:E1.
  - intros [<-|[<-|[]]]; simpl; lia.
  - destruct (String.eqb p "|grp|a1") eqn:E2; [|done].
    intros [<-|[]]. simpl. lia.
Qed.

Lemma fetch_looks_witness :
  exists looks,
    fetch_looks Demo.av (PDict Demo.asset_a) Demo.w0 = (Ok looks, Demo.w0)
    /\ Forall2 (fun subset look =>
                  exists sid sname v,
                    getitem subset "_id" = Ok sid
                    /\ getitem subset "name" = Ok sname
                    /\ look = PDict [("asset_name", PStr "hero");
                                     ("subset", sname);
                                     ("version", v)]
                    /\ highest_named_version Demo.av sid v)
               (list_looks Demo.av (POid (Demo.oid Demo.id_a))) looks.
Proof.
  apply (fetch_looks_one_record_per_subset Demo.av (PDict Demo.asset_a)
           (PStr "hero") (POid (Demo.oid Demo.id_a)) Demo.w0).
  - exact demo_total_preorder.
  - reflexivity.
  - reflexivity.
  - vm_compute. constructor; [|constructor].
    eexists _, _. split; reflexivity.
Defined.

Lemma process_queued_item_witness :
  process_queued_item (PDict [("nodes", PList []); ("version", PNone)]) Demo.w0
    = (Raise AssertionError, Demo.w0)
  /\ assigned (snd (process_queued_item
                      (PDict [("nodes", PList []); ("version", PNone)]) Demo.w0))
     = assigned Demo.w0.
Proof.
  apply (process_queued_item_rejects_empty_nodes
           [("nodes", PList []); ("version", PNone)] Demo.w0).
  right. reflexivity.
Defined.

Lemma list_descendents_witness :
  exists enough result,
    (forall fuel, enough <= fuel ->
                  list_descendents Demo.sc fuel ["|grp"; "|plain"] = Ok result)
    /\ expansion Demo.sc ["|grp"; "|plain"] result
    /\ forall n, In n result <-> descendant Demo.children ["|grp"; "|plain"] n.
Proof.
  apply (list_descendents_terminates_with_all_descendants
           Demo.sc Demo.children ["|grp"; "|plain"]).
  - exact demo_lists_children.
  - exact demo_finite_acyclic.
Defined.

Example list_descendents_demo :
  list_descendents Demo.sc 3 ["|grp"; "|plain"]
    = Ok ["|grp|a1"; "|grp|a2"; "|grp|a1|shape"].
Proof. reflexivity. Qed.

Example create_asset_id_hash_demo :
  create_asset_id_hash Demo.sc
    (Some ["|grp|a1"; "|plain"; "|b1"; "|grp|a2"; "|c1"])
    = Ok [(Demo.id_a, ["|grp|a1"; "|grp|a2"]); (Demo.id_b, ["|b1"]);
          (Demo.id_c, ["|c1"])].
Proof. reflexivity. Qed.

Example remove_unused_looks_demo :
  removed (snd (remove_unused_looks Demo.sc Demo.av Demo.w0)) = [Demo.look_b].
Proof. reflexivity. Qed.

Lemma view_items_have_nodes_witness :
  (forall h, create_asset_id_hash Demo.sc (sets_query Demo.sc "modelA_CON") = Ok h ->
             forall k ns, In (k, ns) h -> exists n, index0 ns = Ok n)
  /\ Forall (fun item =>
               (exists n ns, getitem item "nodes" = Ok (node_values (n :: ns)))
               /\ forall w0, fst (process_queued_item item w0) <> Raise AssertionError)
       (match create_items_from_selection Demo.sc Demo.av
                (sets_query Demo.sc "modelA_CON") Demo.w0 with
        | (Ok items, _) => items
        | _ => []
        end).
Proof.
  apply (view_items_have_nodes Demo.sc Demo.av (sets_query Demo.sc "modelA_CON")
           Demo.w0
           (snd (create_items_from_selection Demo.sc Demo.av
                   (sets_query Demo.sc "modelA_CON") Demo.w0))).
  vm_compute. reflexivity.
Defined.

Lemma demo_subsets_have_fields asset_id :
  Forall subset_has_fields (list_looks Demo.av asset_id).
Proof.
  simpl. destruct (pyval_eqb _ _); constructor; [|constructor].
  eexists _, _. split; reflexivity.
Qed.

Lemma demo_buildable k ns : buildable Demo.sc Demo.av k ns.
Proof.
  intros doc Hdoc. split.
  - unfold asset_document, find_one in Hdoc.
    destruct (ObjectId_of_string k) as [o| |]; try done.
    destruct (List.filter _ _) as [|d l] eqn:Hf; [done|].
    injection Hdoc as <-.
    assert (In d (documents Demo.av)) as Hd.
    { eapply (proj1 (filter_In _ _ _)). rewrite Hf. by left. }
    assert (doc_matches [("_id", POid o)] d = true) as Hm.
    { eapply (proj1 (filter_In _ _ _)). rewrite Hf. by left. }
    simpl in Hd. destruct Hd as [<-|[<-|[<-|[<-|[<-|[]]]]]];
      (eexists _, _; split; [reflexivity|]; split; [reflexivity|];
       apply demo_subsets_have_fields).
  - intros n _. eexists _, _. reflexivity.
Qed.

Lemma create_items_two_known_one_unknown_witness :
  exists items k ns,
    List.filter (fun g => negb (group_known Demo.av g))
      [(Demo.id_a, ["|grp|a1"; "|grp|a2"]); (Demo.id_b, ["|b1"]); (Demo.id_c, ["|c1"])]
      = [(k, ns)]
    /\ create_items_from_selection Demo.sc Demo.av
         (Some ["|grp|a1"; "|plain"; "|b1"; "|grp|a2"; "|c1"]) Demo.w0 =
         (Ok items,
          {| logged := logged Demo.w0 ++ missing_id_warnings k ns;
             assigned := assigned Demo.w0; removed := removed Demo.w0 |})
    /\ length items = 2
    /\ Forall2 (fun g item =>
                  getitem item "_id" = Ok (PStr (fst g))
                  /\ getitem item "nodes" = Ok (node_values (snd g)))
         (List.filter (group_known Demo.av)
            [(Demo.id_a, ["|grp|a1"; "|grp|a2"]); (Demo.id_b, ["|b1"]);
             (Demo.id_c, ["|c1"])]) items.
Proof.
  apply (create_items_two_known_one_unknown Demo.sc Demo.av
           ["|grp|a1"; "|plain"; "|b1"; "|grp|a2"; "|c1"]
           [(Demo.id_a, ["|grp|a1"; "|grp|a2"]); (Demo.id_b, ["|b1"]);
            (Demo.id_c, ["|c1"])] Demo.w0).
  - reflexivity.
  - repeat constructor; eexists; vm_compute; reflexivity.
  - apply List.Forall_forall. intros g _. apply demo_buildable.
  - vm_compute. reflexivity.
  - vm_compute. reflexivity.
Defined.

(** C4 as the specification words it fails twice over: for an unknown but
    well-formed asset id two warning records are logged, not one; and for
    an asset id that is not the text of a database id the constructor of
    the id raises, so that no item at all is returned. *)
Lemma create_items_one_warning_counterexample :
  (exists items w',
      create_items_from_selection Demo.sc Demo.av
        (Some ["|grp|a1"; "|b1"; "|c1"]) Demo.w0 = (Ok items, w')
      /\ map (known_id Demo.av) [Demo.id_a; Demo.id_b; Demo.id_c]
         = [true; true; false]
      /\ length items = 2
      /\ length (logged w') = 2
      /\ length (logged w') <> 1)
  /\ create_items_from_selection Demo.sc Demo.av
       (Some ["|grp|a1"; "|b1"; "|bad"]) Demo.w0 = (Raise InvalidId, Demo.w0).
Proof.
  split; [|vm_compute; reflexivity].
  eexists _, _. split; [vm_compute; reflexivity|].
  split; [vm_compute; reflexivity|]. simpl. split; [done|]. split; [done|lia].
Qed.

(** ** Database ids as text *)

Lemma byte_hex_digits b :
  hex_value (hex_char (Byte.to_N b / 16)) = Some (Byte.to_N b / 16)%N
  /\ hex_value (hex_char (Byte.to_N b mod 16)) = Some (Byte.to_N b mod 16)%N
  /\ Byte.of_N (16 * (Byte.to_N b / 16) + Byte.to_N b mod 16) = Some b.
Proof. destruct b; vm_compute; done. Qed.

(** A hexadecimal digit is no whitespace. *)
Lemma hex_value_not_space c n : hex_value c = Some n -> is_space c = false.
Proof.
  destruct c as [[] [] [] [] [] [] [] []]; vm_compute; congruence.
Qed.

Lemma bytes_from_hex_oid_str o : bytes_from_hex (oid_str o) = Some o.
Proof.
  induction o as [|b o IH]; [done|].
  destruct (byte_hex_digits b) as (H1 & H2 & H3).
  change (oid_str (b :: o)) with
    (String (hex_char (Byte.to_N b / 16))
       (String (hex_char (Byte.to_N b mod 16)) (oid_str o))).
  cbn [bytes_from_hex]. rewrite (hex_value_not_space _ _ H1), H1, H2, IH, H3. done.
Qed.

Lemma oid_str_length o : String.length (oid_str o) = 2 * length o.
Proof.
  induction o as [|b o IH]; [done|].
  change (oid_str (b :: o)) with
    (String (hex_char (Byte.to_N b / 16))
       (String (hex_char (Byte.to_N b mod 16)) (oid_str o))).
  cbn [String.length length]. rewrite IH. lia.
Qed.

(** [ObjectId(str(oid)) == oid] *)
Lemma ObjectId_of_string_oid_str o :
  valid_oid o -> ObjectId_of_string (oid_str o) = Ok o.
Proof.
  intros Hv. unfold ObjectId_of_string. rewrite oid_str_length, Hv. simpl.
  by rewrite bytes_from_hex_oid_str.
Qed.

(** What the constructor accepts is 24 characters long and made of
    hexadecimal digits and whitespace. *)
Lemma bytes_from_hex_chars s : forall bs,
  bytes_from_hex s = Some bs ->
  Forall (fun c => is_space c = true \/ exists n, hex_value c = Some n)
    (list_ascii_of_string s).
Proof.
  assert (forall m s bs, String.length s <= m ->
            bytes_from_hex s = Some bs ->
            Forall (fun c => is_space c = true \/ exists n, hex_value c = Some n)
              (list_ascii_of_string s)) as Hall.
  { clear s. induction m as [|m IH]; intros [|c rest] bs Hlen;
      cbn [bytes_from_hex list_ascii_of_string String.length] in *;
      try (intros; constructor; fail); [lia|].
    destruct (is_space c) eqn:Hc.
    - intros Hrest. constructor; [by left|]. apply (IH rest bs); [lia|done].
    - destruct rest as [|lo rest']; [done|].
      destruct (hex_value c) as [h|] eqn:Hh; [|done].
      destruct (hex_value lo) as [l|] eqn:Hl; [|done].
      destruct (bytes_from_hex rest') as [bs'|] eqn:Hr; [|done].
      intros _. constructor; [right; eauto|].
      cbn [list_ascii_of_string]. constructor; [right; eauto|].
      apply (IH rest' bs'); [simpl in Hlen; lia|done]. }
  intros bs. by apply (Hall (String.length s)).
Qed.

Lemma well_formed_id_chars k :
  well_formed_id k ->
  String.length k = 24
  /\ Forall (fun c => is_space c = true \/ exists n, hex_value c = Some n)
       (list_ascii_of_string k).
Proof.
  unfold well_formed_id, ObjectId_of_string. intros [o Ho].
  destruct (Nat.eqb (String.length k) 24) eqn:Hlen; [|done].
  apply Nat.eqb_eq in Hlen. split; [done|].
  destruct (bytes_from_hex k) as [bs|] eqn:Hb; [|done].
  by apply bytes_from_hex_chars with bs.
Qed.

(** Whitespace between the pairs is passed over, so that the id is short
    of a byte; whitespace inside a pair is refused. *)
Example ObjectId_of_string_whitespace :
  ObjectId_of_string "aaaaaaaaaaaaaaaaaaaaaa  " = Ok (repeat Byte.xaa 11)
  /\ ObjectId_of_string "aaaa aaaa aaaaaaaaaaaaaa" = Ok (repeat Byte.xaa 11)
  /\ ObjectId_of_string "a aaaaaaaaaaaaaaaaaaaaaa" = Raise InvalidId
  /\ ObjectId_of_string "aaaaaaaaaaaaaaaaaaaaaaa " = Raise InvalidId.
Proof. repeat split; vm_compute; reflexivity. Qed.

(** ** The store *)

Module HeapFacts.
Import Heap.

Lemma wf_val_mono n n' v : n <= n' -> wf_val n v -> wf_val n' v.
Proof. destruct v; simpl; [done|lia]. Qed.

Lemma wf_obj_mono n n' o : n <= n' -> wf_obj n o -> wf_obj n' o.
Proof.
  intros Hle. destruct o as [d|items]; simpl.
  - intros [Hnd Hall]. split; [done|].
    eapply Forall_impl; [exact Hall|]. intros kv. by apply wf_val_mono.
  - intros Hall. eapply Forall_impl; [exact Hall|]. intros v. by apply wf_val_mono.
Qed.

Lemma wf_heap_lookup h l o : wf_heap h -> h !! l = Some o -> wf_obj (length h) o.
Proof. intros Hwf Hl. eapply Forall_lookup_1; [exact Hwf|exact Hl]. Qed.

Lemma wf_heap_alloc h o :
  wf_heap h -> wf_obj (S (length h)) o -> wf_heap (h ++ [o]).
Proof.
  intros Hwf Ho. unfold wf_heap. rewrite length_app. simpl.
  replace (length h + 1) with (S (length h)) by lia.
  apply Forall_app. split.
  - eapply Forall_impl; [exact Hwf|]. intros o'. apply wf_obj_mono. lia.
  - by constructor.
Qed.

Lemma wf_heap_insert h l o :
  wf_heap h -> wf_obj (length h) o -> wf_heap (<[l := o]> h).
Proof.
  intros Hwf Ho. unfold wf_heap. rewrite length_insert.
  by apply Forall_insert.
Qed.

Lemma extends_refl h : extends h h.
Proof. split; [lia|done]. Qed.

Lemma extends_trans h1 h2 h3 : extends h1 h2 -> extends h2 h3 -> extends h1 h3.
Proof.
  intros [Hl1 H1] [Hl2 H2]. split; [lia|].
  intros l Hl. rewrite H2 by lia. by apply H1.
Qed.

Lemma extends_but_refl y h : extends_but y h h.
Proof. split; [lia|done]. Qed.

Lemma extends_but_trans y h1 h2 h3 :
  extends_but y h1 h2 -> extends_but y h2 h3 -> extends_but y h1 h3.
Proof.
  intros [Hl1 H1] [Hl2 H2]. split; [lia|].
  intros l Hl Hy. rewrite H2 by (done || lia). by apply H1.
Qed.

Lemma extends_extends_but y h h' : extends h h' -> extends_but y h h'.
Proof. intros [Hl H]. split; [done|]. intros l Hl' _. by apply H. Qed.

Lemma extends_but_fresh y h h' : length h <= y -> extends_but y h h' -> extends h h'.
Proof. intros Hy [Hl H]. split; [done|]. intros l Hl'. apply H; lia. Qed.

Lemma extends_insert y o h : extends_but y h (<[y := o]> h).
Proof.
  split; [by rewrite length_insert|].
  intros l _ Hy. by apply list_lookup_insert_ne.
Qed.

Lemma extends_alloc h o : extends h (h ++ [o]).
Proof.
  split; [rewrite length_app; lia|].
  intros l Hl. by apply lookup_app_l.
Qed.

Lemma extends_unchanged h0 h h' : unchanged h0 h -> extends h h' -> unchanged h0 h'.
Proof.
  intros H0 [_ H] l o Hl. apply H0 in Hl.
  rewrite H; [done|]. by eapply lookup_lt_Some.
Qed.

Lemma unchanged_length h0 h : unchanged h0 h -> length h0 <= length h.
Proof.
  intros H. destruct (decide (length h0 = 0)) as [|Hne]; [lia|].
  destruct (lookup_lt_is_Some_2 h0 (length h0 - 1)) as [o Ho]; [lia|].
  apply H in Ho. apply lookup_lt_Some in Ho. lia.
Qed.

Lemma unchanged_refl h : unchanged h h.
Proof. by intros l o. Qed.

Lemma vrel_mono m m' x y : m ⊆ m' -> vrel m x y -> vrel m' x y.
Proof.
  intros Hm. destruct x, y; simpl; try done.
  intros H. by eapply lookup_weaken.
Qed.

Lemma frel_mono c m m' e e' : m ⊆ m' -> frel c m e e' -> frel c m' e e'.
Proof.
  intros Hm [Hk [Hc|Hv]]; split; auto. right. by eapply vrel_mono.
Qed.

Lemma orel_mono c m m' o o' : m ⊆ m' -> orel c m o o' -> orel c m' o o'.
Proof.
  intros Hm. destruct o, o'; simpl; try done; intros H;
    (eapply Forall2_impl; [exact H|]); intros ? ?.
  - by apply frel_mono.
  - by apply vrel_mono.
Qed.

Lemma vrel_wf_val n0 len m x y :
  memo_ok n0 len m -> vrel m x y -> wf_val len y.
Proof.
  intros [Hr _]. destruct x, y; simpl; try done.
  intros H. apply Hr in H. lia.
Qed.

Lemma memo_ok_mono n0 len len' m : len <= len' -> memo_ok n0 len m -> memo_ok n0 len' m.
Proof.
  intros Hle [Hr Hi]. split; [|done]. intros l l' H. apply Hr in H. lia.
Qed.

Lemma memo_ok_insert n0 len m l :
  n0 <= len -> memo_ok n0 len m -> memo_ok n0 (S len) (<[l := len]> m).
Proof.
  intros Hn [Hr Hi]. split.
  - intros l1 l' [[-> <-]|[Hne H]]%lookup_insert_Some; [lia|].
    apply Hr in H. lia.
  - intros l1 l2 l' [[-> <-]|[Hne1 H1]]%lookup_insert_Some
                    [[-> Heq]|[Hne2 H2]]%lookup_insert_Some; try done.
    + apply Hr in H2. lia.
    + subst l'. apply Hr in H1. lia.
    + by eapply Hi.
Qed.

Lemma dict_set_fresh {V} k (v : V) d :
  ~ In k (map fst d) -> dict_set k v d = d ++ [(k, v)].
Proof.
  induction d as [|[k0 v0] d IH]; simpl; [done|].
  intros Hk. destruct (String.eqb k k0) eqn:E.
  - apply String.eqb_eq in E. subst k0. exfalso. apply Hk. by left.
  - rewrite IH; [done|]. intros Hin. apply Hk. by right.
Qed.

Lemma dict_set_keys {V} k (v : V) d :
  In k (map fst d) -> map fst (dict_set k v d) = map fst d.
Proof.
  induction d as [|[k0 v0] d IH]; simpl; [done|].
  intros Hk. destruct (String.eqb k k0) eqn:E; simpl; [done|].
  apply String.eqb_neq in E. rewrite IH; [done|]. by destruct Hk.
Qed.

Lemma dict_get_In {V} k (v : V) d : dict_get k d = Some v -> In (k, v) d.
Proof.
  induction d as [|[k0 v0] d IH]; simpl; [done|].
  destruct (String.eqb k k0) eqn:E.
  - apply String.eqb_eq in E. intros [= ->]. left. by subst.
  - intros H. right. by apply IH.
Qed.

Lemma dict_get_set {V} k k' (v : V) d :
  dict_get k' (dict_set k v d) =
    if String.eqb k' k then Some v else dict_get k' d.
Proof.
  induction d as [|[k0 v0] d IH]; simpl.
  - by destruct (String.eqb k' k).
  - destruct (String.eqb k k0) eqn:E; simpl.
    + apply String.eqb_eq in E. subst k0. by destruct (String.eqb k' k).
    + rewrite IH. destruct (String.eqb k' k0) eqn:E'; [|done].
      apply String.eqb_eq in E'. subst k0. by rewrite String.eqb_sym, E.
Qed.

Lemma append_run y v s items :
  store s !! y = Some (OList items) ->
  append y v s =
    (Ok tt, set_store (<[y := OList (items ++ [v])]> (store s)) s).
Proof. intros Hy. unfold append, bind, read, write. by rewrite Hy. Qed.

Lemma setitem_run y k v s d :
  store s !! y = Some (ODict d) ->
  setitem (HRef y) k v s =
    (Ok tt, set_store (<[y := ODict (dict_set k v d)]> (store s)) s).
Proof. intros Hy. unfold setitem, bind, read, write. by rewrite Hy. Qed.

Lemma copies_done_nil h0 s m : copies_done h0 s s m m.
Proof. intros l l' H1 H2. congruence. Qed.

(** Copies finished in a first stretch stay finished in a second one that
    leaves them alone. *)
Lemma copies_done_trans h0 s s1 s2 s' m m1 m' y :
  m1 ⊆ m' ->
  y < length (store s) ->
  length (store s) <= length (store s1) ->
  extends_but y (store s1) (store s2) ->
  extends_but y (store s2) (store s') ->
  copies_done h0 s s1 m m1 ->
  copies_done h0 s2 s' m1 m' ->
  copies_done h0 s s' m m'.
Proof.
  intros Hsub Hy Hlen H12 H2' Hd1 Hd2 l l' Hl' Hl.
  destruct (m1 !! l) as [l1|] eqn:Hm1.
  - assert (l' = l1) as -> by (eapply lookup_weaken in Hm1; [|exact Hsub]; congruence).
    destruct (Hd1 l l1 Hm1 Hl) as (Hfresh & o & o' & Ho & Ho' & Hrel).
    split; [done|]. exists o, o'. split; [done|]. split.
    + assert (l1 < length (store s1)) by (by eapply lookup_lt_Some).
      destruct H12 as [Hl12 H12], H2' as [Hl2' H2'].
      rewrite H2' by lia. rewrite H12 by lia. done.
    + by eapply orel_mono.
  - destruct (Hd2 l l' Hl' Hm1) as (Hfresh & o & o' & Ho & Ho' & Hrel).
    split; [destruct H12; lia|]. by exists o, o'.
Qed.

Section CopyLoops.
Variable h0 : heap.
Variable n : nat.
Variable rec : hval -> memo -> H (hval * memo).
Hypothesis Hrec : copy_contract h0 n rec.

Lemma copy_items_contract items : forall y m s ys0 r s',
  unchanged h0 (store s) -> wf_heap (store s) ->
  Forall (wf_val (length h0)) items ->
  memo_ok (length h0) (length (store s)) m ->
  length h0 <= y ->
  store s !! y = Some (OList ys0) ->
  copy_items rec y items m s = (r, s') ->
  extends_but y (store s) (store s')
  /\ generated s' = generated s
  /\ (forall m', r = Ok m' ->
        m ⊆ m'
        /\ memo_ok (length h0) (length (store s')) m'
        /\ wf_heap (store s')
        /\ (exists ys, store s' !! y = Some (OList (ys0 ++ ys))
                       /\ Forall2 (vrel m') items ys)
        /\ copies_done h0 s s' m m')
  /\ ((exists ts, mapM (reify n h0) items = Some ts) -> exists m', r = Ok m').
Proof.
  induction items as [|a rest IH]; intros y m s ys0 r s' Hun Hwf Hitems Hmok Hy Hsy Hrun.
  - simpl in Hrun. injection Hrun as <- <-.
    split; [apply extends_but_refl|]. split; [done|]. split; [|eauto].
    intros m' [= <-]. split; [done|]. split; [done|]. split; [done|].
    split; [|apply copies_done_nil].
    exists []. rewrite app_nil_r. split; [done|constructor].
  - apply Forall_cons in Hitems as [Ha Hrest].
    simpl in Hrun. unfold bind at 1 in Hrun.
    destruct (rec a m s) as [ra s1] eqn:Hra.
    destruct (Hrec a m s ra s1) as (Hext1 & Hgen1 & Hpost1 & Hterm1); [done|done|].
    assert (y < length (store s)) as Hylt by (by eapply lookup_lt_Some).
    destruct ra as [[ya m1]| |]; cycle 1.
    { injection Hrun as <- <-. split; [by apply extends_extends_but|].
      split; [done|]. split; [done|].
      intros [ts Hts]. apply mapM_Some in Hts.
      inversion Hts as [|? ta ? ? Hta]; subst.
      destruct (Hterm1 _ Hta) as (? & ? & ?). done. }
    { injection Hrun as <- <-. split; [by apply extends_extends_but|].
      split; [done|]. split; [done|].
      intros [ts Hts]. apply mapM_Some in Hts.
      inversion Hts as [|? ta ? ? Hta]; subst.
      destruct (Hterm1 _ Hta) as (? & ? & ?). done. }
    destruct (Hpost1 ya m1 eq_refl) as (Hsub1 & Hv1 & Hmok1 & Hwf1 & Hdone1).
    assert (store s1 !! y = Some (OList ys0)) as Hs1y.
    { destruct Hext1 as [_ Hext1]. by rewrite Hext1. }
    simpl in Hrun. unfold bind at 1 in Hrun.
    rewrite (append_run y ya s1 ys0 Hs1y) in Hrun.
    set (s2 := set_store (<[y := OList (ys0 ++ [ya])]> (store s1)) s1) in *.
    assert (y < length (store s1)) as Hylt1 by (by eapply lookup_lt_Some).
    assert (extends_but y (store s1) (store s2)) as H12 by apply extends_insert.
    destruct (IH y m1 s2 (ys0 ++ [ya]) r s') as (Hext2 & Hgen2 & Hpost2 & Hterm2); try done.
    + intros l o Hl. simpl. rewrite list_lookup_insert_ne.
      * eapply extends_unchanged; [exact Hun|exact Hext1|exact Hl].
      * apply lookup_lt_Some in Hl. lia.
    + simpl. apply wf_heap_insert; [done|]. simpl.
      apply Forall_app. split.
      * apply (wf_heap_lookup _ _ _ Hwf1 Hs1y).
      * constructor; [|done]. by eapply vrel_wf_val.
    + simpl. by rewrite length_insert.
    + simpl. by apply list_lookup_insert_eq.
    + split.
      { eapply extends_but_trans; [by apply extends_extends_but|].
        eapply extends_but_trans; [exact H12|exact Hext2]. }
      split; [simpl in *; congruence|]. split.
      * intros m' Hr. destruct (Hpost2 m' Hr) as (Hsub2 & Hmok2 & Hwf2 & (ys & Hys & Hall) & Hdone2).
        split; [by etrans|]. split; [done|]. split; [done|]. split.
        -- exists (ya :: ys). rewrite <- app_assoc in Hys. split; [done|].
           constructor; [by eapply vrel_mono|done].
        -- eapply (copies_done_trans h0 s s1 s2 s' m m1 m' y); try done.
           by destruct Hext1.
      * intros [ts Hts]. apply Hterm2. apply mapM_Some in Hts.
        inversion Hts as [|? ta ? ts' Hta Hts']; subst.
        exists ts'. by apply mapM_Some.
Qed.
End CopyLoops.

Section CopyFieldLoops.
Variable h0 : heap.
Variable n : nat.
Variable rec : hval -> memo -> H (hval * memo).
Hypothesis Hrec : copy_contract h0 n rec.

Lemma copy_fields_contract fields : forall y m s d0 r s',
  unchanged h0 (store s) -> wf_heap (store s) ->
  Forall (fun kv => wf_val (length h0) (snd kv)) fields ->
  NoDup (map fst d0 ++ map fst fields) ->
  memo_ok (length h0) (length (store s)) m ->
  length h0 <= y ->
  store s !! y = Some (ODict d0) ->
  copy_fields rec y fields m s = (r, s') ->
  extends_but y (store s) (store s')
  /\ generated s' = generated s
  /\ (forall m', r = Ok m' ->
        m ⊆ m'
        /\ memo_ok (length h0) (length (store s')) m'
        /\ wf_heap (store s')
        /\ (exists ds, store s' !! y = Some (ODict (d0 ++ ds))
                       /\ Forall2 (frel [] m') fields ds)
        /\ copies_done h0 s s' m m')
  /\ ((exists ts, mapM (fun kv => match reify n h0 (snd kv) with
                                  | Some t => Some (fst kv, t)
                                  | None => None
                                  end) fields = Some ts) ->
      exists m', r = Ok m').
Proof.
  induction fields as [|[k a] rest IH];
    intros y m s d0 r s' Hun Hwf Hfields Hnd Hmok Hy Hsy Hrun.
  - simpl in Hrun. injection Hrun as <- <-.
    split; [apply extends_but_refl|]. split; [done|]. split; [|eauto].
    intros m' [= <-]. split; [done|]. split; [done|]. split; [done|].
    split; [|apply copies_done_nil].
    exists []. rewrite app_nil_r. split; [done|constructor].
  - apply Forall_cons in Hfields as [Ha Hrest]. simpl in Ha.
    cbn [copy_fields] in Hrun. unfold bind at 1 in Hrun.
    destruct (rec a m s) as [ra s1] eqn:Hra.
    destruct (Hrec a m s ra s1) as (Hext1 & Hgen1 & Hpost1 & Hterm1); [done|done|].
    assert (y < length (store s)) as Hylt by (by eapply lookup_lt_Some).
    destruct ra as [[ya m1]| |]; cycle 1.
    { injection Hrun as <- <-. split; [by apply extends_extends_but|].
      split; [done|]. split; [done|].
      intros [ts Hts]. apply mapM_Some in Hts.
      inversion Hts as [|? ta ? ? Hta]; subst. simpl in Hta.
      destruct (reify n h0 a) as [t|] eqn:Ht; [|done].
      destruct (Hterm1 _ eq_refl) as (? & ? & ?). done. }
    { injection Hrun as <- <-. split; [by apply extends_extends_but|].
      split; [done|]. split; [done|].
      intros [ts Hts]. apply mapM_Some in Hts.
      inversion Hts as [|? ta ? ? Hta]; subst. simpl in Hta.
      destruct (reify n h0 a) as [t|] eqn:Ht; [|done].
      destruct (Hterm1 _ eq_refl) as (? & ? & ?). done. }
    destruct (Hpost1 ya m1 eq_refl) as (Hsub1 & Hv1 & Hmok1 & Hwf1 & Hdone1).
    assert (store s1 !! y = Some (ODict d0)) as Hs1y.
    { destruct Hext1 as [_ Hext1]. by rewrite Hext1. }
    cbn beta iota delta [fst snd] in Hrun. unfold bind at 1 in Hrun.
    rewrite (setitem_run y k ya s1 d0 Hs1y) in Hrun.
    assert (~ In k (map fst d0)) as Hk.
    { simpl in Hnd. apply NoDup_app in Hnd as (_ & Hdisj & _).
      intros Hin. apply (Hdisj k); [by apply list_elem_of_In|]. by left. }
    rewrite (dict_set_fresh k ya d0 Hk) in Hrun.
    set (s2 := set_store (<[y := ODict (d0 ++ [(k, ya)])]> (store s1)) s1) in *.
    assert (y < length (store s1)) as Hylt1 by (by eapply lookup_lt_Some).
    assert (extends_but y (store s1) (store s2)) as H12 by apply extends_insert.
    assert (NoDup (map fst (d0 ++ [(k, ya)]) ++ map fst rest)) as Hnd'.
    { rewrite map_app. simpl. rewrite <- app_assoc. done. }
    destruct (IH y m1 s2 (d0 ++ [(k, ya)]) r s') as (Hext2 & Hgen2 & Hpost2 & Hterm2); try done.
    + intros l o Hl. simpl. rewrite list_lookup_insert_ne.
      * eapply extends_unchanged; [exact Hun|exact Hext1|exact Hl].
      * apply lookup_lt_Some in Hl. lia.
    + simpl. apply wf_heap_insert; [done|]. simpl. split.
      * by apply NoDup_app in Hnd' as (? & _).
      * apply Forall_app. split.
        -- apply (wf_heap_lookup _ _ _ Hwf1 Hs1y).
        -- constructor; [|done]. simpl. by eapply vrel_wf_val.
    + simpl. by rewrite length_insert.
    + simpl. by apply list_lookup_insert_eq.
    + split.
      { eapply extends_but_trans; [by apply extends_extends_but|].
        eapply extends_but_trans; [exact H12|exact Hext2]. }
      split; [simpl in *; congruence|]. split.
      * intros m' Hr. destruct (Hpost2 m' Hr) as (Hsub2 & Hmok2 & Hwf2 & (ds & Hds & Hall) & Hdone2).
        split; [by etrans|]. split; [done|]. split; [done|]. split.
        -- exists ((k, ya) :: ds). rewrite <- app_assoc in Hds. split; [done|].
           constructor; [|done]. split; [done|]. right. by eapply vrel_mono.
        -- eapply (copies_done_trans h0 s s1 s2 s' m m1 m' y); try done.
           by destruct Hext1.
      * intros [ts Hts]. apply Hterm2. apply mapM_Some in Hts.
        inversion Hts as [|? ta ? ts' Hta Hts']; subst.
        exists ts'. by apply mapM_Some.
Qed.
End CopyFieldLoops.

Lemma deepcopy_contract h0 :
  wf_heap h0 -> forall n, copy_contract h0 n (deepcopy n).
Proof.
  intros Hwf0 n. induction n as [|n IH];
    intros x m s r s' (Hun & Hwf & Hx & Hmok) Hrun.
  - destruct x as [a|l]; simpl in Hrun.
    + injection Hrun as <- <-. split; [apply extends_refl|]. split; [done|].
      split; [|eauto]. intros y m' [= <- <-].
      split; [done|]. split; [done|]. split; [done|]. split; [done|].
      apply copies_done_nil.
    + destruct (m !! l) as [y|] eqn:Hml.
      * injection Hrun as <- <-. split; [apply extends_refl|]. split; [done|].
        split; [|eauto]. intros y' m' [= <- <-].
        split; [done|]. split; [done|]. split; [done|]. split; [done|].
        apply copies_done_nil.
      * injection Hrun as <- <-. split; [apply extends_refl|]. split; [done|].
        split; done.
  - destruct x as [a|l]; simpl in Hrun.
    + injection Hrun as <- <-. split; [apply extends_refl|]. split; [done|].
      split; [|eauto]. intros y m' [= <- <-].
      split; [done|]. split; [done|]. split; [done|]. split; [done|].
      apply copies_done_nil.
    + destruct (m !! l) as [y|] eqn:Hml.
      * injection Hrun as <- <-. split; [apply extends_refl|]. split; [done|].
        split; [|eauto]. intros y' m' [= <- <-].
        split; [done|]. split; [done|]. split; [done|]. split; [done|].
        apply copies_done_nil.
      * simpl in Hx.
        destruct (lookup_lt_is_Some_2 h0 l Hx) as [o Ho].
        pose proof (Hun l o Ho) as Hso.
        unfold bind at 1, read in Hrun. rewrite Hso in Hrun.
        pose proof (unchanged_length _ _ Hun) as Hlen0.
        pose proof (wf_heap_lookup _ _ _ Hwf0 Ho) as Hwfo.
        set (y := length (store s)) in *.
        assert (m ⊆ <[l := y]> m) as Hsub0 by (by apply insert_subseteq).
        destruct o as [fields|items].
        -- unfold bind at 1, alloc in Hrun. fold y in Hrun.
           set (s1 := set_store (store s ++ [ODict []]) s) in *.
           unfold bind at 1 in Hrun.
           destruct (copy_fields (deepcopy n) y fields (<[l := y]> m) s1) as [rm s2] eqn:Hloop.
           destruct Hwfo as [Hnd Hvals].
           destruct (copy_fields_contract h0 n (deepcopy n) IH fields y (<[l := y]> m)
                       s1 [] rm s2) as (Hext & Hgen & Hpost & Hterm); try done.
           ++ simpl. eapply extends_unchanged; [exact Hun|apply extends_alloc].
           ++ simpl. apply wf_heap_alloc; [done|]. simpl. split; [constructor|constructor].
           ++ simpl. rewrite length_app. simpl.
              replace (length (store s) + 1) with (S y) by (unfold y; lia).
              by apply memo_ok_insert.
           ++ simpl. unfold y. by rewrite lookup_app_r, Nat.sub_diag.
           ++ assert (extends (store s) (store s2)) as Hss2.
              { destruct Hext as [Hle Hext]. simpl in Hle, Hext.
                rewrite length_app in Hle, Hext. simpl in Hle, Hext.
                split; [lia|]. intros l0 Hl0.
                rewrite Hext by (unfold y; lia). by apply lookup_app_l. }
              destruct rm as [m'| |]; unfold ret in Hrun; injection Hrun as <- <-.
              ** split; [done|]. split; [simpl in *; congruence|]. split.
                 --- intros y' m'' [= <- <-].
                     destruct (Hpost m' eq_refl) as (Hsub & Hmok' & Hwf' & (ds & Hds & Hall) & Hdone).
                     split; [by etrans|]. split.
                     { simpl. eapply lookup_weaken; [|exact Hsub]. apply lookup_insert_eq. }
                     split; [done|]. split; [done|].
                     intros l2 l2' Hl2' Hl2.
                     destruct (decide (l2 = l)) as [->|Hne].
                     +++ assert (l2' = y) as ->.
                         { pose proof (lookup_weaken _ _ l y (lookup_insert_eq m l y) Hsub). congruence. }
                         split; [done|]. exists (ODict fields), (ODict ds).
                         split; [done|]. split; [done|]. done.
                     +++ destruct (Hdone l2 l2' Hl2') as (Hfresh & o & o' & Ho1 & Ho2 & Hrel).
                         { by rewrite lookup_insert_ne. }
                         split; [simpl in Hfresh; rewrite length_app in Hfresh; lia|].
                         by exists o, o'.
                 --- eauto.
              ** split; [done|]. split; [simpl in *; congruence|]. split; [done|].
                 intros t Ht. simpl in Ht. rewrite Ho in Ht.
                 destruct (mapM _ fields) as [ts|] eqn:Hts; [|done].
                 destruct Hterm as (? & ?); [eauto|done].
              ** split; [done|]. split; [simpl in *; congruence|]. split; [done|].
                 intros t Ht. simpl in Ht. rewrite Ho in Ht.
                 destruct (mapM _ fields) as [ts|] eqn:Hts; [|done].
                 destruct Hterm as (? & ?); [eauto|done].
        -- unfold bind at 1, alloc in Hrun. fold y in Hrun.
           set (s1 := set_store (store s ++ [OList []]) s) in *.
           unfold bind at 1 in Hrun.
           destruct (copy_items (deepcopy n) y items (<[l := y]> m) s1) as [rm s2] eqn:Hloop.
           simpl in Hwfo.
           destruct (copy_items_contract h0 n (deepcopy n) IH items y (<[l := y]> m)
                       s1 [] rm s2) as (Hext & Hgen & Hpost & Hterm); try done.
           ++ simpl. eapply extends_unchanged; [exact Hun|apply extends_alloc].
           ++ simpl. apply wf_heap_alloc; [done|]. simpl. constructor.
           ++ simpl. rewrite length_app. simpl.
              replace (length (store s) + 1) with (S y) by (unfold y; lia).
              by apply memo_ok_insert.
           ++ simpl. unfold y. by rewrite lookup_app_r, Nat.sub_diag.
           ++ assert (extends (store s) (store s2)) as Hss2.
              { destruct Hext as [Hle Hext]. simpl in Hle, Hext.
                rewrite length_app in Hle, Hext. simpl in Hle, Hext.
                split; [lia|]. intros l0 Hl0.
                rewrite Hext by (unfold y; lia). by apply lookup_app_l. }
              destruct rm as [m'| |]; unfold ret in Hrun; injection Hrun as <- <-.
              ** split; [done|]. split; [simpl in *; congruence|]. split.
                 --- intros y' m'' [= <- <-].
                     destruct (Hpost m' eq_refl) as (Hsub & Hmok' & Hwf' & (ys & Hys & Hall) & Hdone).
                     split; [by etrans|]. split.
                     { simpl. eapply lookup_weaken; [|exact Hsub]. apply lookup_insert_eq. }
                     split; [done|]. split; [done|].
                     intros l2 l2' Hl2' Hl2.
                     destruct (decide (l2 = l)) as [->|Hne].
                     +++ assert (l2' = y) as ->.
                         { pose proof (lookup_weaken _ _ l y (lookup_insert_eq m l y) Hsub). congruence. }
                         split; [done|]. exists (OList items), (OList ys).
                         split; [done|]. split; [done|]. done.
                     +++ destruct (Hdone l2 l2' Hl2') as (Hfresh & o & o' & Ho1 & Ho2 & Hrel).
                         { by rewrite lookup_insert_ne. }
                         split; [simpl in Hfresh; rewrite length_app in Hfresh; lia|].
                         by exists o, o'.
                 --- eauto.
              ** split; [done|]. split; [simpl in *; congruence|]. split; [done|].
                 intros t Ht. simpl in Ht. rewrite Ho in Ht.
                 destruct (mapM _ items) as [ts|] eqn:Hts; [|done].
                 destruct Hterm as (? & ?); [eauto|done].
              ** split; [done|]. split; [simpl in *; congruence|]. split; [done|].
                 intros t Ht. simpl in Ht. rewrite Ho in Ht.
                 destruct (mapM _ items) as [ts|] eqn:Hts; [|done].
                 destruct Hterm as (? & ?); [eauto|done].
Qed.

(** *** Rewriting a field of the copied document *)

Lemma frelc_keys c m d d' : Forall2 (frelc c m) d d' -> map fst d = map fst d'.
Proof.
  induction 1 as [|e e' d d' [Hk _] _ IH]; simpl; [done|]. by rewrite Hk, IH.
Qed.

Lemma frelc_dict_get c m d d' k v :
  Forall2 (frelc c m) d d' -> dict_get k d = Some v ->
  exists v', dict_get k d' = Some v'
             /\ match dict_get k c with
                | Some w => v' = w
                | None => vrel m v v'
                end.
Proof.
  induction 1 as [|[k0 a] [k0' a'] d d' [Hk Hv] _ IH]; simpl; [done|].
  simpl in Hk, Hv. subst k0'.
  destruct (String.eqb k k0) eqn:E; [|done].
  apply String.eqb_eq in E. subst k0. intros [= ->]. by exists a'.
Qed.

Lemma frelc_other c m d d' k v' :
  ~ In k (map fst d) ->
  Forall2 (frelc c m) d d' -> Forall2 (frelc ((k, v') :: c) m) d d'.
Proof.
  intros Hk Hall. induction Hall as [|[k1 b] [k1' b'] d d' [Hk1 Hv1] _ IH];
    [constructor|].
  simpl in *. constructor.
  - split; [done|]. simpl.
    destruct (String.eqb k1 k) eqn:E1; [|done].
    apply String.eqb_eq in E1. subst k1. exfalso. apply Hk. by left.
  - apply IH. intros Hin. apply Hk. by right.
Qed.

Lemma frelc_dict_set c m d d' k v' :
  NoDup (map fst d) -> In k (map fst d) ->
  Forall2 (frelc c m) d d' ->
  Forall2 (frelc ((k, v') :: c) m) d (dict_set k v' d').
Proof.
  intros Hnd Hin Hall. revert Hnd Hin.
  induction Hall as [|[k0 a] [k0' a'] d d' [Hk Hv] Hall IH]; simpl; [done|].
  simpl in Hk, Hv. subst k0'. intros Hnd Hin.
  apply NoDup_cons in Hnd as [Hk0 Hnd].
  destruct (String.eqb k k0) eqn:E.
  - apply String.eqb_eq in E. subst k0. constructor.
    + split; [done|]. simpl. by rewrite String.eqb_refl.
    + apply frelc_other; [|done]. intros Hk. apply Hk0. by apply list_elem_of_In.
  - constructor.
    + split; [done|]. simpl. by rewrite String.eqb_sym, E.
    + apply IH; [done|]. destruct Hin as [->|]; [|done].
      by rewrite String.eqb_refl in E.
Qed.

Lemma orelc_nil m o o' : orel [] m o o' <-> orelc [] m o o'.
Proof.
  destruct o, o'; simpl; try done.
  split; intros H; (eapply Forall2_impl; [exact H|]); intros e e'.
  - intros [Hk [[]|Hv]]. by split.
  - intros [Hk Hv]. split; [done|]. by right.
Qed.

Lemma orelc_orel c m o o' : orelc c m o o' -> orel (map fst c) m o o'.
Proof.
  destruct o, o'; simpl; try done.
  intros H. eapply Forall2_impl; [exact H|]. intros e e' [Hk Hv]. split; [done|].
  destruct (dict_get (fst e) c) as [w|] eqn:Hc; [left|by right].
  apply dict_get_In in Hc. by apply (in_map fst) in Hc.
Qed.

Lemma orel_changed c c' m o o' :
  (forall k, In k c -> In k c') -> orel c m o o' -> orel c' m o o'.
Proof.
  intros Hc. destruct o, o'; simpl; try done.
  intros H. eapply Forall2_impl; [exact H|]. intros e e' [Hk [Hin|Hv]]; split; auto.
Qed.

Lemma getitem_run l k s d v :
  store s !! l = Some (ODict d) -> dict_get k d = Some v ->
  getitem (HRef l) k s = (Ok v, s).
Proof. intros Hl Hk. unfold getitem, bind, read, ret. by rewrite Hl, Hk. Qed.

Lemma getitem_ref l k s :
  getitem (HRef l) k s =
    match store s !! l with
    | Some (ODict d) =>
        match dict_get k d with
        | Some v => (Ok v, s)
        | None => (Raise (KeyError k), s)
        end
    | Some (OList _) => (Raise TypeError, s)
    | None => (Stuck, s)
    end.
Proof.
  unfold getitem, bind, read, ret, raise.
  destruct (store s !! l) as [[d|items]|]; try done. by destruct (dict_get k d).
Qed.

(** Reading never changes the state. *)
Lemma getitem_state x k s r s' : getitem x k s = (r, s') -> s' = s.
Proof.
  destruct x as [a|l]; simpl; unfold raise, bind, read, ret.
  - by intros [= _ <-].
  - destruct (store s !! l) as [[d|items]|]; [|by intros [= _ <-]..].
    destruct (dict_get k d); by intros [= _ <-].
Qed.

Lemma getitem_Ok x k s v s' :
  getitem x k s = (Ok v, s') ->
  exists l d, x = HRef l /\ store s !! l = Some (ODict d) /\ dict_get k d = Some v.
Proof.
  destruct x as [a|l]; simpl; unfold raise, bind, read, ret; [done|].
  destruct (store s !! l) as [[d|items]|] eqn:Hl; [|done..].
  destruct (dict_get k d) eqn:Hk; [|done]. intros [= <- _]. eauto.
Qed.

Section ConvertField.
Context {A : Type}.
Variable conv : hval -> H hval.
Variable R : hval -> hval -> Prop.
Hypothesis Hconv : conv_ok conv R.
Variable h0 : heap.
Hypothesis Hwf0 : wf_heap h0.
Variable N : nat.
Variables (x y : hval) (m : memo) (li ld : loc).
Variables (d dd : list (string * hval)).
Hypothesis Hx : x = HRef li.
Hypothesis Hli : h0 !! li = Some (ODict d).
Hypothesis Hdoc : dict_get "document" d = Some (HRef ld).
Hypothesis Hld : h0 !! ld = Some (ODict dd).

Lemma document_of_item : document_of h0 x = Some ld.
Proof. subst x. simpl. by rewrite Hli, Hdoc. Qed.

(** Where the copy keeps its document. *)
Lemma copied_document h c :
  item_inv h0 N h x y m c -> dict_get "document" c = None ->
  exists li' ld' d' dd',
    y = HRef li' /\ m !! li = Some li' /\ m !! ld = Some ld'
    /\ N <= ld'
    /\ h !! li' = Some (ODict d')
    /\ dict_get "document" d' = Some (HRef ld')
    /\ h !! ld' = Some (ODict dd')
    /\ Forall2 (frelc c m) dd dd'.
Proof.
  intros (Hv & Hinj & Hent) Hc. subst x.
  destruct y as [a|li']; [done|]. simpl in Hv.
  destruct (Hent li li' Hv) as (_ & o & o' & Ho & Ho' & Hrel).
  rewrite Hli in Ho. injection Ho as <-.
  destruct o' as [d'|]; [|done]. simpl in Hrel.
  assert (exists dv', dict_get "document" d' = Some dv' /\ vrel m (HRef ld) dv')
    as (dv' & Hdv' & Hvd).
  { destruct (decide _) as [_|_];
      destruct (frelc_dict_get _ m d d' "document" _ Hrel Hdoc) as (dv' & H1 & H2);
      [rewrite Hc in H2|simpl in H2]; eauto. }
  destruct dv' as [a|ld']; [done|]. simpl in Hvd.
  destruct (Hent ld ld' Hvd) as (HN & o2 & o2' & Ho2 & Ho2' & Hrel').
  rewrite Hld in Ho2. injection Ho2 as <-.
  rewrite decide_True in Hrel' by (simpl; by rewrite Hli, Hdoc).
  destruct o2' as [dd'|]; [|done]. simpl in Hrel'.
  exists li', ld', d', dd'. done.
Qed.

(** The state after [new_item["document"][key] = v']. *)
Lemma write_field h c key v v' ld' dd' :
  item_inv h0 N h x y m c ->
  wf_heap h ->
  m !! ld = Some ld' -> h !! ld' = Some (ODict dd') ->
  Forall2 (frelc c m) dd dd' ->
  dict_get key dd = Some v ->
  (exists a, v' = HAtom a) ->
  let h' := <[ld' := ODict (dict_set key v' dd')]> h in
  item_inv h0 N h' x y m ((key, v') :: c)
  /\ wf_heap h'
  /\ length h' = length h
  /\ (forall l, l <> ld' -> h' !! l = h !! l)
  /\ h' !! ld' = Some (ODict (dict_set key v' dd')).
Proof.
  intros (Hv & Hinj & Hent) Hwf Hmld Hld' Hrel Hkey [a ->] h'. subst h'.
  pose proof (wf_heap_lookup _ _ _ Hwf0 Hld) as [Hnd Hvals].
  assert (In key (map fst dd)) as Hin.
  { apply dict_get_In in Hkey. by apply (in_map fst) in Hkey. }
  assert (ld' < length h) as Hlt by (by eapply lookup_lt_Some).
  split; [|split; [|split; [|split]]].
  - split; [done|]. split; [done|]. intros l l' Hl.
    destruct (Hent l l' Hl) as (HN & o & o' & Ho & Ho' & Hrel').
    split; [done|]. destruct (decide (l = ld)) as [->|Hne].
    + assert (l' = ld') as -> by congruence.
      rewrite Hld in Ho. injection Ho as <-.
      exists (ODict dd), (ODict (dict_set key (HAtom a) dd')).
      split; [done|]. split; [by apply list_lookup_insert_eq|].
      rewrite decide_True by apply document_of_item. simpl.
      by apply frelc_dict_set.
    + assert (l' <> ld') as Hne'.
      { intros ->. apply Hne. by eapply Hinj. }
      exists o, o'. split; [done|]. split; [by rewrite list_lookup_insert_ne|].
      rewrite decide_False in Hrel' |- *; try done;
        rewrite document_of_item; congruence.
  - apply wf_heap_insert; [done|]. simpl.
    pose proof (wf_heap_lookup _ _ _ Hwf Hld') as [Hnd' Hvals'].
    split.
    + rewrite dict_set_keys; [done|]. by rewrite <- (frelc_keys _ _ _ _ Hrel).
    + clear -Hvals'. induction dd' as [|[k0 v0] dd' IH]; simpl.
      * by constructor.
      * apply Forall_cons in Hvals' as [H1 H2].
        destruct (String.eqb key k0); constructor; simpl; auto.
  - apply length_insert.
  - intros l Hl. by apply list_lookup_insert_ne.
  - by apply list_lookup_insert_eq.
Qed.

(** The four steps that rewrite one field, followed by [K]: either they
    reach [K], in a state whose store differs only in the copy of the
    document, or they fail and leave the store as it was. *)
Lemma convert_field_run (K : H A) key c s r s' :
  unchanged h0 (store s) ->
  wf_heap (store s) ->
  item_inv h0 N (store s) x y m c ->
  dict_get "document" c = None ->
  (let! v := getitem (HRef ld) key in
   let! v' := conv v in
   let! new_document := getitem y "document" in
   setitem new_document key v' ;; K) s = (r, s') ->
  (exists v v' s1 ld' dd',
      dict_get key dd = Some v
      /\ conv v s = (Ok v', s1)
      /\ R v v'
      /\ m !! ld = Some ld' /\ N <= ld'
      /\ store s !! ld' = Some (ODict dd')
      /\ Forall2 (frelc c m) dd dd'
      /\ K (set_store (<[ld' := ODict (dict_set key v' dd')]> (store s)) s1) = (r, s'))
  \/ ((forall out, r <> Ok out) /\ store s' = store s
      /\ (forall v, dict_get key dd = Some v ->
                    exists e s1, conv v s = (e, s1) /\ forall v', e <> Ok v')).
Proof.
  intros Hun Hwf Hinv Hc Hrun.
  destruct (copied_document _ _ Hinv Hc)
    as (li' & ld' & d' & dd' & -> & Hmli & Hmld & HN & Hli' & Hdoc' & Hld' & Hrel).
  pose proof (Hun ld _ Hld) as Hsld.
  unfold bind at 1 in Hrun. rewrite getitem_ref, Hsld in Hrun.
  destruct (dict_get key dd) as [v|] eqn:Hkey; cycle 1.
  { injection Hrun as <- <-. right. done. }
  unfold bind at 1 in Hrun.
  destruct (conv v s) as [rv s1] eqn:Hcv.
  destruct (Hconv v s rv s1 Hcv) as [Hst Hres].
  destruct rv as [v'| |]; cycle 1.
  { injection Hrun as <- <-. right. split; [done|]. split; [done|].
    intros v0 [= <-]. eexists _, _. split; [done|]. done. }
  { injection Hrun as <- <-. right. split; [done|]. split; [done|].
    intros v0 [= <-]. eexists _, _. split; [done|]. done. }
  destruct (Hres v' eq_refl) as [Hatom HR].
  unfold bind at 1 in Hrun.
  rewrite (getitem_run li' "document" s1 d' (HRef ld')) in Hrun;
    [|by rewrite Hst|done].
  unfold bind at 1 in Hrun.
  rewrite (setitem_run ld' key v' s1 dd') in Hrun by (by rewrite Hst).
  rewrite Hst in Hrun.
  left. exists v, v', s1, ld', dd'. done.
Qed.
End ConvertField.

Lemma str_conv_ok container_str : conv_ok (str container_str) str_rel.
Proof.
  intros v s r s'. unfold str. destruct v as [a|l]; intros [= <- <-].
  - split; [done|]. intros v' [= <-]. split; [eauto|]. by intros a' [= <-].
  - split; [done|]. intros v' [= <-]. split; [eauto|]. done.
Qed.

Lemma ObjectId_new_conv_ok generate : conv_ok (ObjectId_new generate) oid_rel.
Proof.
  intros v s r s'. unfold ObjectId_new.
  destruct v as [[| | |text|o]|l]; unfold raise, ret, lift.
  - intros [= <- <-]. split; [done|]. intros v' [= <-]. split; [eauto|]. done.
  - intros [= <- <-]. split; [done|]. done.
  - intros [= <- <-]. split; [done|]. done.
  - destruct (ObjectId_of_string text) as [o| |] eqn:Ho; intros [= <- <-];
      (split; [done|]); try done.
    intros v' [= <-]. split; [eauto|]. intros t o' [= <-]. congruence.
  - intros [= <- <-]. split; [done|]. intros v' [= <-]. split; [eauto|]. done.
  - intros [= <- <-]. split; [done|]. done.
Qed.

(** *** The loops over the queue *)

Lemma item_inv_extends h0 N N' h h' x y m c :
  N' <= N -> extends h h' ->
  item_inv h0 N h x y m c -> item_inv h0 N' h' x y m c.
Proof.
  intros HN [_ Hext] (Hv & Hinj & Hent). split; [done|]. split; [done|].
  intros l l' Hl. destruct (Hent l l' Hl) as (HN' & o & o' & Ho & Ho' & Hrel).
  split; [lia|]. exists o, o'. split; [done|]. split; [|done].
  rewrite Hext; [done|]. by eapply lookup_lt_Some.
Qed.

Lemma converted_extends R h0 h h' x y :
  extends h h' -> converted R h0 h x y -> converted R h0 h' x y.
Proof.
  intros Hext (m & li & d & ld & dd & vi & vp & vi' & vp' & H).
  destruct H as (? & ? & ? & ? & ? & ? & ? & ? & Hinv).
  exists m, li, d, ld, dd, vi, vp, vi', vp'. repeat (split; [done|]).
  eapply item_inv_extends; [|exact Hext|exact Hinv]. done.
Qed.

Lemma extends_below h h1 h2 :
  extends h h1 -> length h2 = length h1 ->
  (forall l, l < length h -> h2 !! l = h1 !! l) ->
  extends h h2.
Proof.
  intros [Hlen H1] Hl2 H2. split; [lia|]. intros l Hl. rewrite H2 by done. by apply H1.
Qed.

Section ConvertStep.
Context {B : Type}.
Variable conv : hval -> H hval.
Variable R : hval -> hval -> Prop.
Hypothesis Hconv : conv_ok conv R.
Variable h0 : heap.
Hypothesis Hwf0 : wf_heap h0.
Variable N : nat.
Hypothesis HN0 : length h0 <= N.
Variables (y : hval) (m : memo) (li ld : loc).
Variables (d dd : list (string * hval)).
Hypothesis Hli : h0 !! li = Some (ODict d).
Hypothesis Hdoc : dict_get "document" d = Some (HRef ld).
Hypothesis Hld : h0 !! ld = Some (ODict dd).

(** A proof rule for [new_item["document"][key] = conv(document[key])]
    followed by [K]. *)
Lemma convert_step (G : outcome B -> state -> Prop) (K : H B) key c s r s' :
  unchanged h0 (store s) ->
  wf_heap (store s) ->
  item_inv h0 N (store s) (HRef li) y m c ->
  dict_get "document" c = None ->
  (let! v := getitem (HRef ld) key in
   let! v' := conv v in
   let! new_document := getitem y "document" in
   setitem new_document key v' ;; K) s = (r, s') ->
  ((forall out, r <> Ok out) -> store s' = store s ->
   (forall v, dict_get key dd = Some v ->
              exists e s1, conv v s = (e, s1) /\ forall v', e <> Ok v') ->
   G r s') ->
  (forall v v' s2,
      dict_get key dd = Some v -> R v v' ->
      unchanged h0 (store s2) -> wf_heap (store s2) ->
      item_inv h0 N (store s2) (HRef li) y m ((key, v') :: c) ->
      length (store s2) = length (store s) ->
      (forall l, l < N -> store s2 !! l = store s !! l) ->
      K s2 = (r, s') -> G r s') ->
  G r s'.
Proof.
  intros Hun Hwf Hinv Hc Hrun Hfail Hcont.
  destruct (convert_field_run conv R Hconv h0 N (HRef li) y m li ld d dd
              eq_refl Hli Hdoc Hld K key c s r s' Hun Hwf Hinv Hc Hrun)
    as [(v & v' & s1 & ld' & dd' & Hv & Hcv & HR & Hmld & HN & Hld' & Hrel & HK)
       |(Hno & Hst & Hwhy)]; [|by apply Hfail].
  destruct (Hconv v s (Ok v') s1 Hcv) as [Hst1 Hres].
  destruct (Hres v' eq_refl) as [Hatom _].
  destruct (write_field h0 Hwf0 N (HRef li) y m li ld d dd eq_refl Hli Hdoc Hld
              (store s) c key v v' ld' dd' Hinv Hwf Hmld Hld' Hrel Hv Hatom)
    as (Hinv2 & Hwf2 & Hlen2 & Hsame2 & _).
  eapply (Hcont v v' _ Hv HR); [| | | | |exact HK]; simpl; try done.
  - intros l o Hl. rewrite Hsame2; [by apply Hun|].
    apply lookup_lt_Some in Hl. lia.
  - intros l Hl. apply Hsame2. lia.
Qed.
End ConvertStep.

Section QueueLoops.
Variable h0 : heap.
Hypothesis Hwf0 : wf_heap h0.

Lemma deepcopy_item fuel x s r s1 :
  unchanged h0 (store s) -> wf_heap (store s) -> wf_val (length h0) x ->
  deepcopy fuel x ∅ s = (r, s1) ->
  extends (store s) (store s1)
  /\ (forall y m, r = Ok (y, m) ->
        wf_heap (store s1)
        /\ item_inv h0 (length (store s)) (store s1) x y m [])
  /\ ((exists t, reify fuel h0 x = Some t) -> exists y m, r = Ok (y, m)).
Proof.
  intros Hun Hwf Hx Hrun.
  destruct (deepcopy_contract h0 Hwf0 fuel x ∅ s r s1) as (Hext & _ & Hpost & Hterm);
    [|done|].
  { split; [done|]. split; [done|]. split; [done|]. split.
    - intros l l'. by rewrite lookup_empty.
    - intros l1 l2 l'. by rewrite lookup_empty. }
  split; [done|]. split; [|intros [t Ht]; eauto].
  intros y m Hr. destruct (Hpost y m Hr) as (_ & Hv & [_ Hinj] & Hwf1 & Hdone).
  split; [done|]. split; [done|]. split; [done|].
  intros l l' Hl. destruct (Hdone l l' Hl) as (Hfresh & o & o' & Ho & Ho' & Hrel).
  { apply lookup_empty. }
  split; [done|]. exists o, o'. split; [done|]. split; [done|].
  apply orelc_nil in Hrel. by destruct (decide _).
Qed.

Lemma loop_goal_fail conv R fuel queue_items acc s r s' :
  extends (store s) (store s') ->
  (forall out, r <> Ok out) ->
  ~ Forall (convertible conv fuel h0) queue_items ->
  loop_goal h0 conv R fuel queue_items acc s r s'.
Proof.
  intros Hext Hr Hno. split; [done|]. split.
  - intros out ->. by destruct (Hr out).
  - intros Hall. by destruct Hno.
Qed.

Lemma extends_same h h1 h' : extends h h1 -> h' = h1 -> extends h h'.
Proof. by intros H ->. Qed.

(** The document of an item that was read successfully. *)
Lemma read_document (conv : hval -> H hval) fuel item rest s1 dv :
  unchanged h0 (store s1) ->
  wf_val (length h0) item ->
  getitem item "document" s1 = (Ok dv, s1) ->
  exists li d,
    item = HRef li /\ h0 !! li = Some (ODict d)
    /\ dict_get "document" d = Some dv
    /\ ((exists ld dd, dv = HRef ld /\ h0 !! ld = Some (ODict dd))
        \/ ((forall k r s', getitem dv k s1 = (r, s') ->
                            (forall v, r <> Ok v) /\ s' = s1)
            /\ ~ Forall (convertible conv fuel h0) (item :: rest))).
Proof.
  intros Hun1 Hitem Hrd.
  destruct (getitem_Ok _ _ _ _ _ Hrd) as (li & d & -> & Hsli & Hdoc).
  simpl in Hitem.
  destruct (lookup_lt_is_Some_2 h0 li Hitem) as [oi Hli].
  pose proof (Hun1 li oi Hli) as Hli1. rewrite Hsli in Hli1. injection Hli1 as <-.
  pose proof (wf_heap_lookup _ _ _ Hwf0 Hli) as [Hndd Hvalsd].
  exists li, d. split; [done|]. split; [done|]. split; [done|].
  destruct dv as [a|ld].
  { right. split.
    - intros k r s'. simpl. unfold raise. intros [= <- <-]. done.
    - intros [[_ (li' & d' & ld & dd & vi & vp & [= <-] & Hli' & Hdoc' & _)] _]%Forall_cons.
      congruence. }
  assert (ld < length h0) as Hldlt.
  { apply dict_get_In in Hdoc. rewrite List.Forall_forall in Hvalsd.
    apply (Hvalsd _ Hdoc). }
  destruct (lookup_lt_is_Some_2 h0 ld Hldlt) as [[dd|items] Hld]; [left; eauto|].
  right. split.
  - intros k r s'. rewrite getitem_ref, (Hun1 ld _ Hld). intros [= <- <-]. done.
  - intros [[_ (li' & d' & ld' & dd & vi & vp & [= <-] & Hli' & Hdoc' & Hld' & _)] _]%Forall_cons.
    congruence.
Qed.

Lemma not_convertible_read (conv : hval -> H hval) fuel item rest s1 r :
  unchanged h0 (store s1) ->
  getitem item "document" s1 = (r, s1) ->
  (forall dv, r <> Ok dv) ->
  ~ Forall (convertible conv fuel h0) (item :: rest).
Proof.
  intros Hun1 Hrd Hr.
  intros [[_ (li & d & ld & dd & vi & vp & -> & Hli & Hdoc & _)] _]%Forall_cons.
  rewrite (getitem_run li "document" s1 d (HRef ld)) in Hrd; [|by apply Hun1|done].
  injection Hrd as <-. by destruct (Hr (HRef ld)).
Qed.

Lemma not_convertible_field (conv : hval -> H hval) fuel li d ld dd rest s key :
  h0 !! li = Some (ODict d) ->
  dict_get "document" d = Some (HRef ld) ->
  h0 !! ld = Some (ODict dd) ->
  key = "_id" \/ key = "parent" ->
  (forall v, dict_get key dd = Some v ->
             exists e s1, conv v s = (e, s1) /\ forall v', e <> Ok v') ->
  ~ Forall (convertible conv fuel h0) (HRef li :: rest).
Proof.
  intros Hli Hdoc Hld Hkey Hwhy.
  intros [[_ (li' & d' & ld2 & dd2 & vi & vp & [= <-] & Hli' & Hdoc' & Hld2 & Hvi & Hvp & Hci & Hcp)] _]%Forall_cons.
  assert (d' = d) as -> by congruence.
  assert (ld2 = ld) as -> by congruence. assert (dd2 = dd) as -> by congruence.
  destruct Hkey as [-> | ->].
  - destruct (Hwhy vi Hvi) as (e & s2 & He & Hne).
    destruct (Hci s) as (v' & s2' & Hok). rewrite Hok in He. injection He as <- <-.
    by destruct (Hne v').
  - destruct (Hwhy vp Hvp) as (e & s2 & He & Hne).
    destruct (Hcp s) as (v' & s2' & Hok). rewrite Hok in He. injection He as <- <-.
    by destruct (Hne v').
Qed.

(** Closing the loop once both fields of the copy are rewritten. *)
Lemma loop_goal_step conv R fuel item rest acc s s3 r s' li d ld dd vi vp vi' vp' y m :
  item = HRef li -> h0 !! li = Some (ODict d) ->
  dict_get "document" d = Some (HRef ld) -> h0 !! ld = Some (ODict dd) ->
  dict_get "_id" dd = Some vi -> dict_get "parent" dd = Some vp ->
  R vi vi' -> R vp vp' ->
  length h0 <= length (store s) ->
  extends (store s) (store s3) ->
  item_inv h0 (length (store s)) (store s3) item y m [("parent", vp'); ("_id", vi')] ->
  loop_goal h0 conv R fuel rest (acc ++ [y]) s3 r s' ->
  loop_goal h0 conv R fuel (item :: rest) acc s r s'.
Proof.
  intros -> Hli Hdoc Hld Hvi Hvp HRi HRp Hlen Hext Hinv (Hext' & Hok & Hterm).
  split; [by eapply extends_trans|]. split.
  - intros out Hr. destruct (Hok out Hr) as (Hwf' & news & -> & Hall).
    split; [done|]. exists (y :: news). rewrite <- app_assoc. split; [done|].
    constructor; [|done].
    exists m, li, d, ld, dd, vi, vp, vi', vp'. repeat (split; [done|]).
    eapply item_inv_extends; [|exact Hext'|exact Hinv]. done.
  - intros [_ Hall]%Forall_cons. by apply Hterm.
Qed.

Lemma create_queue_out_data_loop_spec container_str fuel queue_items :
  forall acc s r s',
    unchanged h0 (store s) -> wf_heap (store s) ->
    Forall (wf_val (length h0)) queue_items ->
    create_queue_out_data_loop container_str fuel queue_items acc s = (r, s') ->
    loop_goal h0 (str container_str) str_rel fuel queue_items acc s r s'.
Proof.
  pose proof (str_conv_ok container_str) as Hconv.
  induction queue_items as [|item rest IH]; intros acc s r s' Hun Hwf Hitems Hrun.
  { simpl in Hrun. injection Hrun as <- <-. split; [apply extends_refl|]. split.
    - intros out [= <-]. split; [done|]. exists []. by rewrite app_nil_r.
    - eauto. }
  apply Forall_cons in Hitems as [Hitem Hrest].
  pose proof (unchanged_length _ _ Hun) as Hlen0.
  cbn [create_queue_out_data_loop] in Hrun. unfold bind at 1 in Hrun.
  destruct (deepcopy fuel item ∅ s) as [rc s1] eqn:Hcopy.
  destruct (deepcopy_item fuel item s rc s1 Hun Hwf Hitem Hcopy) as (Hext1 & Hpost1 & Hterm1).
  destruct rc as [[y m]| |]; cycle 1.
  { injection Hrun as <- <-. apply loop_goal_fail; [done|done|].
    intros [[Ht _] _]%Forall_cons. by destruct (Hterm1 Ht) as (? & ? & ?). }
  { injection Hrun as <- <-. apply loop_goal_fail; [done|done|].
    intros [[Ht _] _]%Forall_cons. by destruct (Hterm1 Ht) as (? & ? & ?). }
  destruct (Hpost1 y m eq_refl) as (Hwf1 & Hinv1). cbn [fst] in Hrun.
  assert (unchanged h0 (store s1)) as Hun1 by (by eapply extends_unchanged).
  (* item["document"] *)
  unfold bind at 1 in Hrun.
  destruct (getitem item "document" s1) as [rd s1'] eqn:Hrd.
  pose proof (getitem_state _ _ _ _ _ Hrd) as ->.
  destruct rd as [dv| |]; cycle 1.
  { injection Hrun as <- <-. apply loop_goal_fail; [done|done|].
    by eapply not_convertible_read. }
  { injection Hrun as <- <-. apply loop_goal_fail; [done|done|].
    by eapply not_convertible_read. }
  destruct (read_document (str container_str) fuel item rest s1 dv Hun1 Hitem Hrd)
    as (li & d & -> & Hli & Hdoc & [(ld & dd & -> & Hld)|[Hbad Hno]]); cycle 1.
  { unfold bind at 1 in Hrun.
    destruct (getitem dv "_id" s1) as [rv sv] eqn:Hrv.
    destruct (Hbad _ _ _ Hrv) as [Hnv ->].
    destruct rv as [v| |]; [by destruct (Hnv v)| |];
      injection Hrun as <- <-; by apply loop_goal_fail. }
  (* new_item["document"]["_id"] = str(item["document"]["_id"]) *)
  eapply (convert_step (str container_str) str_rel Hconv h0 Hwf0 (length (store s)) Hlen0
            y m li ld d dd Hli Hdoc Hld
            (loop_goal h0 (str container_str) str_rel fuel (HRef li :: rest) acc s)
            _ "_id" [] s1 r s' Hun1 Hwf1 Hinv1 eq_refl Hrun).
  { intros Hfail Hst Hwhy. apply loop_goal_fail; [by eapply extends_same|done|].
    apply (not_convertible_field _ fuel li d ld dd rest s1 "_id"); auto. }
  intros vi vi' s2 Hvi HRi Hun2 Hwf2 Hinv2 Hlen2 Hsame2 Hrun2.
  assert (extends (store s) (store s2)) as Hext2.
  { eapply extends_below; [exact Hext1|done|done]. }
  (* item["document"], again *)
  unfold bind at 1 in Hrun2.
  rewrite (getitem_run li "document" s2 d (HRef ld)) in Hrun2; [|by apply Hun2|done].
  (* new_item["document"]["parent"] = str(item["document"]["parent"]) *)
  eapply (convert_step (str container_str) str_rel Hconv h0 Hwf0 (length (store s)) Hlen0
            y m li ld d dd Hli Hdoc Hld
            (loop_goal h0 (str container_str) str_rel fuel (HRef li :: rest) acc s)
            _ "parent" _ s2 r s' Hun2 Hwf2 Hinv2 eq_refl Hrun2).
  { intros Hfail Hst Hwhy. apply loop_goal_fail; [by eapply extends_same|done|].
    apply (not_convertible_field _ fuel li d ld dd rest s2 "parent"); auto. }
  intros vp vp' s3 Hvp HRp Hun3 Hwf3 Hinv3 Hlen3 Hsame3 Hrun3.
  assert (extends (store s) (store s3)) as Hext3.
  { eapply extends_below; [exact Hext2|done|].
    intros l Hl. apply Hsame3. done. }
  eapply (loop_goal_step _ _ fuel (HRef li) rest acc s s3 r s' li d ld dd vi vp vi' vp' y m);
    try done.
  by apply IH.
Qed.

Lemma create_queue_in_data_loop_spec generate fuel queue_items :
  forall acc s r s',
    unchanged h0 (store s) -> wf_heap (store s) ->
    Forall (wf_val (length h0)) queue_items ->
    create_queue_in_data_loop generate fuel queue_items acc s = (r, s') ->
    loop_goal h0 (ObjectId_new generate) oid_rel fuel queue_items acc s r s'.
Proof.
  pose proof (ObjectId_new_conv_ok generate) as Hconv.
  induction queue_items as [|item rest IH]; intros acc s r s' Hun Hwf Hitems Hrun.
  { simpl in Hrun. injection Hrun as <- <-. split; [apply extends_refl|]. split.
    - intros out [= <-]. split; [done|]. exists []. by rewrite app_nil_r.
    - eauto. }
  apply Forall_cons in Hitems as [Hitem Hrest].
  pose proof (unchanged_length _ _ Hun) as Hlen0.
  cbn [create_queue_in_data_loop] in Hrun. unfold bind at 1 in Hrun.
  destruct (deepcopy fuel item ∅ s) as [rc s1] eqn:Hcopy.
  destruct (deepcopy_item fuel item s rc s1 Hun Hwf Hitem Hcopy) as (Hext1 & Hpost1 & Hterm1).
  destruct rc as [[y m]| |]; cycle 1.
  { injection Hrun as <- <-. apply loop_goal_fail; [done|done|].
    intros [[Ht _] _]%Forall_cons. by destruct (Hterm1 Ht) as (? & ? & ?). }
  { injection Hrun as <- <-. apply loop_goal_fail; [done|done|].
    intros [[Ht _] _]%Forall_cons. by destruct (Hterm1 Ht) as (? & ? & ?). }
  destruct (Hpost1 y m eq_refl) as (Hwf1 & Hinv1). cbn [fst] in Hrun.
  assert (unchanged h0 (store s1)) as Hun1 by (by eapply extends_unchanged).
  (* document = item["document"] *)
  unfold bind at 1 in Hrun.
  destruct (getitem item "document" s1) as [rd s1'] eqn:Hrd.
  pose proof (getitem_state _ _ _ _ _ Hrd) as ->.
  destruct rd as [dv| |]; cycle 1.
  { injection Hrun as <- <-. apply loop_goal_fail; [done|done|].
    by eapply not_convertible_read. }
  { injection Hrun as <- <-. apply loop_goal_fail; [done|done|].
    by eapply not_convertible_read. }
  destruct (read_document (ObjectId_new generate) fuel item rest s1 dv Hun1 Hitem Hrd)
    as (li & d & -> & Hli & Hdoc & [(ld & dd & -> & Hld)|[Hbad Hno]]); cycle 1.
  { unfold bind at 1 in Hrun.
    destruct (getitem dv "_id" s1) as [rv sv] eqn:Hrv.
    destruct (Hbad _ _ _ Hrv) as [Hnv ->].
    destruct rv as [v| |]; [by destruct (Hnv v)| |];
      injection Hrun as <- <-; by apply loop_goal_fail. }
  (* new_item["document"]["_id"] = io.ObjectId(document["_id"]) *)
  eapply (convert_step (ObjectId_new generate) oid_rel Hconv h0 Hwf0 (length (store s)) Hlen0
            y m li ld d dd Hli Hdoc Hld
            (loop_goal h0 (ObjectId_new generate) oid_rel fuel (HRef li :: rest) acc s)
            _ "_id" [] s1 r s' Hun1 Hwf1 Hinv1 eq_refl Hrun).
  { intros Hfail Hst Hwhy. apply loop_goal_fail; [by eapply extends_same|done|].
    apply (not_convertible_field _ fuel li d ld dd rest s1 "_id"); auto. }
  intros vi vi' s2 Hvi HRi Hun2 Hwf2 Hinv2 Hlen2 Hsame2 Hrun2.
  assert (extends (store s) (store s2)) as Hext2.
  { eapply extends_below; [exact Hext1|done|done]. }
  (* new_item["document"]["parent"] = io.ObjectId(document["parent"]) *)
  eapply (convert_step (ObjectId_new generate) oid_rel Hconv h0 Hwf0 (length (store s)) Hlen0
            y m li ld d dd Hli Hdoc Hld
            (loop_goal h0 (ObjectId_new generate) oid_rel fuel (HRef li :: rest) acc s)
            _ "parent" _ s2 r s' Hun2 Hwf2 Hinv2 eq_refl Hrun2).
  { intros Hfail Hst Hwhy. apply loop_goal_fail; [by eapply extends_same|done|].
    apply (not_convertible_field _ fuel li d ld dd rest s2 "parent"); auto. }
  intros vp vp' s3 Hvp HRp Hun3 Hwf3 Hinv3 Hlen3 Hsame3 Hrun3.
  assert (extends (store s) (store s3)) as Hext3.
  { eapply extends_below; [exact Hext2|done|].
    intros l Hl. apply Hsame3. done. }
  eapply (loop_goal_step _ _ fuel (HRef li) rest acc s s3 r s' li d ld dd vi vp vi' vp' y m);
    try done.
  by apply IH.
Qed.
End QueueLoops.

Lemma converted_converted_copy R h0 h' x y :
  converted R h0 h' x y -> converted_copy h0 h' x y.
Proof.
  intros (m & li & d & ld & dd & vi & vp & vi' & vp' & H).
  destruct H as (-> & Hli & Hdoc & Hld & _ & _ & _ & _ & (Hv & _ & Hent)).
  exists m. split; [done|]. intros l l' Hl.
  destruct (Hent l l' Hl) as (HN & o & o' & Ho & Ho' & Hrel).
  split; [done|]. exists o, o'. split; [done|]. split; [done|].
  destruct (decide _) as [_|_].
  - apply orelc_orel in Hrel. simpl in Hrel.
    eapply orel_changed; [|exact Hrel]. simpl. tauto.
  - by apply orelc_nil.
Qed.

Lemma extends_is_unchanged h h' : extends h h' -> unchanged h h'.
Proof.
  intros [_ H] l o Hl. rewrite H; [done|]. by eapply lookup_lt_Some.
Qed.

(** C8. In a well-formed store, whatever [create_queue_out_data] and
    [create_queue_in_data] end with (a result or an exception), every
    object the store held before the call is still there, unchanged; and
    when they return, each returned item is a deep copy of the input item
    at the same position: its objects are new ones, and each is the
    original with the references renamed to the copies, except for the
    values under [_id] and [parent] of the document's dictionary. *)
Theorem queue_conversions_copy
  (generate : nat -> ObjectId) (container_str : heap -> loc -> string)
  (fuel : nat) (queue_items : list hval) (s : state) :
  wf_heap (store s) ->
  Forall (wf_val (length (store s))) queue_items ->
  (forall r s',
      create_queue_out_data container_str fuel queue_items s = (r, s') ->
      unchanged (store s) (store s')
      /\ forall out, r = Ok out ->
           Forall2 (converted_copy (store s) (store s')) queue_items out)
  /\ (forall r s',
        create_queue_in_data generate fuel queue_items s = (r, s') ->
        unchanged (store s) (store s')
        /\ forall out, r = Ok out ->
             Forall2 (converted_copy (store s) (store s')) queue_items out).
Proof.
  intros Hwf Hitems. split; intros r s' Hrun.
  - destruct (create_queue_out_data_loop_spec (store s) Hwf container_str fuel
                queue_items [] s r s' (unchanged_refl _) Hwf Hitems Hrun)
      as (Hext & Hok & _).
    split; [by apply extends_is_unchanged|].
    intros out Hr. destruct (Hok out Hr) as (_ & news & -> & Hall). simpl.
    eapply Forall2_impl; [exact Hall|]. intros x y. apply converted_converted_copy.
  - destruct (create_queue_in_data_loop_spec (store s) Hwf generate fuel
                queue_items [] s r s' (unchanged_refl _) Hwf Hitems Hrun)
      as (Hext & Hok & _).
    split; [by apply extends_is_unchanged|].
    intros out Hr. destruct (Hok out Hr) as (_ & news & -> & Hall). simpl.
    eapply Forall2_impl; [exact Hall|]. intros x y. apply converted_converted_copy.
Qed.

(** *** Unfolding the store into trees *)

Lemma all_of_Forall {A} (P : A -> Prop) l : all_of P l <-> Forall P l.
Proof.
  induction l as [|x l IH]; simpl.
  - split; [constructor|done].
  - rewrite Forall_cons, IH. done.
Qed.

Lemma pyval_nested_ind (P : pyval -> Prop) :
  (forall a, P (PAtom a)) ->
  (forall items, Forall P items -> P (PList items)) ->
  (forall fields, Forall (fun kv => P (snd kv)) fields -> P (PDict fields)) ->
  forall t, P t.
Proof.
  intros Ha Hl Hd. fix IH 1. intros [a|items|fields].
  - apply Ha.
  - apply Hl. induction items as [|t items IHl]; constructor; [apply IH|done].
  - apply Hd. induction fields as [|[k t] fields IHl]; constructor; [apply IH|done].
Qed.

Lemma reify_fields_Some n h d fields :
  mapM (fun kv => match reify n h (snd kv) with
                  | Some t => Some (fst kv, t)
                  | None => None
                  end) d = Some fields
  <-> tree_fields n h d fields.
Proof.
  rewrite mapM_Some. unfold tree_fields. split; intros H;
    (eapply Forall2_impl; [exact H|]); intros [k v] [k' t]; simpl.
  - destruct (reify n h v); [|done]. by intros [= <- <-].
  - intros [-> ->]. done.
Qed.

Lemma reify_atom_inv n h x a : reify n h x = Some (PAtom a) -> x = HAtom a.
Proof.
  destruct x as [a'|l]; destruct n; simpl; try done; try (by intros [= ->]).
  destruct (h !! l) as [[d|items]|]; [|destruct (mapM _ items)|]; try done.
  by destruct (mapM _ d).
Qed.

Lemma reify_dict_inv n h x fields :
  reify n h x = Some (PDict fields) ->
  exists l d n1,
    x = HRef l /\ n = S n1 /\ h !! l = Some (ODict d) /\ tree_fields n1 h d fields.
Proof.
  destruct x as [a|l]; destruct n as [|n1]; simpl; try done.
  destruct (h !! l) as [[d|items]|] eqn:Hl; [|destruct (mapM _ items)|]; try done.
  destruct (mapM _ d) as [ts|] eqn:Hts; [|done]. intros [= <-].
  exists l, d, n1. repeat (split; [done|]). by apply reify_fields_Some.
Qed.

Lemma reify_dict n h l d fields :
  h !! l = Some (ODict d) -> tree_fields n h d fields ->
  reify (S n) h (HRef l) = Some (PDict fields).
Proof.
  intros Hl Hf. simpl. rewrite Hl.
  apply reify_fields_Some in Hf. by rewrite Hf.
Qed.

Lemma reify_list n h l items ts :
  h !! l = Some (OList items) ->
  Forall2 (fun v t => reify n h v = Some t) items ts ->
  reify (S n) h (HRef l) = Some (PList ts).
Proof.
  intros Hl Hf. simpl. rewrite Hl.
  apply mapM_Some in Hf. by rewrite Hf.
Qed.

Lemma tree_fields_get n h d fields k t :
  tree_fields n h d fields -> dict_get k fields = Some t ->
  exists v, dict_get k d = Some v /\ reify n h v = Some t.
Proof.
  induction 1 as [|[k0 v0] [k0' t0] d fields [Hk Hv] _ IH]; simpl; [done|].
  simpl in Hk, Hv. subst k0'.
  destruct (String.eqb k k0); [|done]. intros [= <-]. eauto.
Qed.

Lemma tree_fields_keys n h d fields :
  tree_fields n h d fields -> map fst d = map fst fields.
Proof.
  induction 1 as [|kv kt d fields [Hk _] _ IH]; simpl; [done|]. by rewrite Hk, IH.
Qed.

Lemma reify_extends n h h' : extends h h' ->
  forall v t, reify n h v = Some t -> reify n h' v = Some t.
Proof.
  intros [_ Hext]. induction n as [|n IH]; intros [a|l] t; simpl; try done.
  destruct (h !! l) as [o|] eqn:Hl; [|done].
  rewrite Hext by (by eapply lookup_lt_Some). rewrite Hl.
  destruct o as [d|items].
  - destruct (mapM _ d) as [ts|] eqn:Hts; [|done]. intros [= <-].
    apply reify_fields_Some in Hts.
    assert (tree_fields n h' d ts) as Hts'.
    { eapply Forall2_impl; [exact Hts|]. intros kv kt [Hk Hv]. split; [done|]. by apply IH. }
    apply reify_fields_Some in Hts'. by rewrite Hts'.
  - destruct (mapM _ items) as [ts|] eqn:Hts; [|done]. intros [= <-].
    apply mapM_Some in Hts.
    assert (Forall2 (fun v t => reify n h' v = Some t) items ts) as Hts'.
    { eapply Forall2_impl; [exact Hts|]. intros v t. apply IH. }
    apply mapM_Some in Hts'. by rewrite Hts'.
Qed.

(** An object that holds itself under a key has no finite unfolding. *)
Lemma reify_self h l d k n :
  h !! l = Some (ODict d) -> dict_get k d = Some (HRef l) ->
  reify n h (HRef l) = None.
Proof.
  intros Hl Hk. induction n as [|n IH]; [done|].
  destruct (reify (S n) h (HRef l)) as [t|] eqn:Ht; [|done].
  simpl in Ht. rewrite Hl in Ht.
  destruct (mapM _ d) as [ts|] eqn:Hts; [|done].
  apply reify_fields_Some in Hts.
  assert (exists t', reify n h (HRef l) = Some t') as [t' Ht']; [|congruence].
  clear -Hts Hk. induction Hts as [|[k0 v0] kt d ts [_ Hv] _ IHd]; simpl in *; [done|].
  destruct (String.eqb k k0); [|by apply IHd]. injection Hk as ->. eauto.
Qed.

(** *** Encoding *)

Lemma encode_items_Ok (rec : hval -> outcome pyval) items ts :
  encode_items rec items = Ok ts <-> Forall2 (fun v t => rec v = Ok t) items ts.
Proof.
  revert ts. induction items as [|v items IH]; intros ts; simpl.
  - split; [intros [= <-]; constructor|by inversion 1].
  - destruct (rec v) as [t| |] eqn:Ht.
    + destruct (encode_items rec items) as [ts'| |] eqn:Hts.
      * split.
        -- intros [= <-]. constructor; [done|]. by apply IH.
        -- inversion 1 as [|? t0 ? ts0 H1 H2]; subst.
           apply IH in H2. congruence.
      * split; [done|]. inversion 1 as [|? t0 ? ts0 H1 H2]; subst. by apply IH in H2.
      * split; [done|]. inversion 1 as [|? t0 ? ts0 H1 H2]; subst. by apply IH in H2.
    + split; [done|]. inversion 1; congruence.
    + split; [done|]. inversion 1; congruence.
Qed.

Lemma encode_fields_Ok (rec : hval -> outcome pyval) d ts :
  encode_fields rec d = Ok ts
  <-> Forall2 (fun kv kt => fst kv = fst kt /\ rec (snd kv) = Ok (snd kt)) d ts.
Proof.
  revert ts. induction d as [|[k v] d IH]; intros ts; simpl.
  - split; [intros [= <-]; constructor|by inversion 1].
  - destruct (rec v) as [t| |] eqn:Ht.
    + destruct (encode_fields rec d) as [ts'| |] eqn:Hts.
      * split.
        -- intros [= <-]. constructor; [done|]. by apply IH.
        -- inversion 1 as [|? [k0 t0] ? ts0 [H0 H1] H2]; subst. simpl in *. subst.
           apply IH in H2. congruence.
      * split; [done|]. inversion 1 as [|? t0 ? ts0 H1 H2]; subst. by apply IH in H2.
      * split; [done|]. inversion 1 as [|? t0 ? ts0 H1 H2]; subst. by apply IH in H2.
    + split; [done|]. inversion 1 as [|? t0 ? ts0 [H0 H1] H2]; subst. simpl in *. congruence.
    + split; [done|]. inversion 1 as [|? t0 ? ts0 [H0 H1] H2]; subst. simpl in *. congruence.
Qed.

Lemma json_encode_atom n h a :
  no_oid (PAtom a) = true -> json_encode n h (HAtom a) = Ok (PAtom a).
Proof. destruct n, a; simpl; done. Qed.

Lemma json_encode_dict n h l d ts :
  h !! l = Some (ODict d) ->
  Forall2 (fun kv kt => fst kv = fst kt /\ json_encode n h (snd kv) = Ok (snd kt)) d ts ->
  json_encode (S n) h (HRef l) = Ok (PDict ts).
Proof. intros Hl Hf. simpl. rewrite Hl. apply encode_fields_Ok in Hf. by rewrite Hf. Qed.

Lemma json_encode_list n h l items ts :
  h !! l = Some (OList items) ->
  Forall2 (fun v t => json_encode n h v = Ok t) items ts ->
  json_encode (S n) h (HRef l) = Ok (PList ts).
Proof. intros Hl Hf. simpl. rewrite Hl. apply encode_items_Ok in Hf. by rewrite Hf. Qed.

(** What an encoding that succeeded has produced. *)
Lemma json_encode_tree h : wf_heap h ->
  forall n v t, json_encode n h v = Ok t -> depth t <= n /\ wf_tree t.
Proof.
  intros Hwf. induction n as [|n IH]; intros [a|l] t; simpl.
  - destruct a; try done; intros [= <-]; simpl; split; (lia || done).
  - done.
  - destruct a; try done; intros [= <-]; simpl; split; (lia || done).
  - destruct (h !! l) as [[d|items]|] eqn:Hl; [| |done].
    + destruct (encode_fields _ d) as [ts| |] eqn:Hts; try done. intros [= <-].
      apply encode_fields_Ok in Hts.
      pose proof (wf_heap_lookup _ _ _ Hwf Hl) as [Hnd _].
      assert (map fst d = map fst ts) as Hkeys.
      { clear -Hts. induction Hts as [|? ? ? ? [H _] _ IH']; simpl; [done|].
        by rewrite H, IH'. }
      assert (Forall (fun kt => depth (snd kt) <= n /\ wf_tree (snd kt)) ts) as Hall.
      { clear -Hts IH. induction Hts as [|? ? ? ? [_ H] _ IH']; constructor; [|done].
        by eapply IH. }
      simpl. split.
      * apply le_n_S. apply list_max_le. apply List.Forall_map.
        eapply Forall_impl; [exact Hall|]. by intros kt [? _].
      * split; [by rewrite <- Hkeys|]. apply all_of_Forall.
        eapply Forall_impl; [exact Hall|]. by intros kt [_ ?].
    + destruct (encode_items _ items) as [ts| |] eqn:Hts; try done. intros [= <-].
      apply encode_items_Ok in Hts.
      assert (Forall (fun t => depth t <= n /\ wf_tree t) ts) as Hall.
      { clear -Hts IH. induction Hts as [|? ? ? ? H _ IH']; constructor; [|done].
        by eapply IH. }
      simpl. split.
      * apply le_n_S. apply list_max_le. apply List.Forall_map.
        eapply Forall_impl; [exact Hall|]. by intros kt [? _].
      * apply all_of_Forall. eapply Forall_impl; [exact Hall|]. by intros kt [_ ?].
Qed.

(** *** The JSON text of a converted item *)

Lemma no_oid_fields fields k t :
  forallb (fun kv => no_oid (snd kv)) fields = true ->
  dict_get k fields = Some t -> no_oid t = true.
Proof.
  intros Hall Hk. apply dict_get_In in Hk.
  rewrite forallb_forall in Hall. apply (Hall _ Hk).
Qed.

Lemma tree_fields_get_l n h d fields k v :
  tree_fields n h d fields -> dict_get k d = Some v ->
  exists t, dict_get k fields = Some t /\ reify n h v = Some t.
Proof.
  induction 1 as [|[k0 v0] [k0' t0] d fields [Hk Hv] _ IH]; simpl; [done|].
  simpl in Hk, Hv. subst k0'.
  destruct (String.eqb k k0); [|done]. intros [= <-]. eauto.
Qed.

Section EncodeCopy.
Variable h0 : heap.
Variable N : nat.
Variable h1 : heap.
Variables (x y : hval) (m : memo) (c : list (string * hval)).
Variables (ld : loc) (dd : list (string * hval)) (a : ObjectId).
Hypothesis Hinv : item_inv h0 N h1 x y m c.
Hypothesis Hdocof : document_of h0 x = Some ld.
Hypothesis Hld : h0 !! ld = Some (ODict dd).
Hypothesis Hid : dict_get "_id" dd = Some (HAtom (AOid a)).

(** A part of the item that unfolds to a tree without database id is
    encoded from its copy as that tree: it cannot reach the document. *)
Lemma encode_copy : forall n v v' t,
  reify n h0 v = Some t -> no_oid t = true -> vrel m v v' ->
  json_encode n h1 v' = Ok t.
Proof.
  destruct Hinv as (_ & _ & Hent).
  induction n as [|n IH]; intros [a0|l] [a0'|l'] t Ht Hno Hv; try done.
  - simpl in Hv, Ht. subst a0'. injection Ht as <-. by apply json_encode_atom.
  - simpl in Hv, Ht. subst a0'. injection Ht as <-. by apply json_encode_atom.
  - simpl in Hv.
    destruct (Hent l l' Hv) as (_ & o & o' & Ho & Ho' & Hrel).
    destruct (decide (document_of h0 x = Some l)) as [Hdoc|Hdoc].
    { exfalso. assert (l = ld) as -> by congruence.
      rewrite Hld in Ho. injection Ho as <-.
      simpl in Ht. rewrite Hld in Ht.
      destruct (mapM _ dd) as [ts|] eqn:Hts; [|done]. injection Ht as <-.
      apply reify_fields_Some in Hts.
      destruct (tree_fields_get_l _ _ _ _ _ _ Hts Hid) as (t & Hget & Hrt).
      assert (t = PAtom (AOid a)) as -> by (destruct n; simpl in Hrt; congruence).
      simpl in Hno. pose proof (no_oid_fields _ _ _ Hno Hget) as Hbad. done. }
    simpl in Ht. rewrite Ho in Ht. destruct o as [d|items].
    + destruct (mapM _ d) as [ts|] eqn:Hts; [|done]. injection Ht as <-.
      apply reify_fields_Some in Hts.
      destruct o' as [d'|]; [|done]. simpl in Hrel, Hno.
      apply (json_encode_dict n h1 l' d' ts Ho').
      clear Ho Ho'. revert d' Hrel Hno.
      induction Hts as [|[k v] [k' t] d ts [Hk Ht] _ IHd]; intros d' Hrel Hno.
      * inversion Hrel. constructor.
      * inversion Hrel as [|? [k2 v2] ? d2 [Hk2 Hv2] Hrel2]; subst.
        simpl in *. apply andb_true_iff in Hno as [Hno1 Hno2].
        constructor; [|by apply IHd]. simpl. split; [congruence|].
        by eapply IH.
    + destruct (mapM _ items) as [ts|] eqn:Hts; [|done]. injection Ht as <-.
      apply mapM_Some in Hts.
      destruct o' as [|items']; [done|]. simpl in Hrel, Hno.
      apply (json_encode_list n h1 l' items' ts Ho').
      clear Ho Ho'. revert items' Hrel Hno.
      induction Hts as [|v t items ts Ht _ IHd]; intros items' Hrel Hno.
      * inversion Hrel. constructor.
      * inversion Hrel as [|? v2 ? items2 Hv2 Hrel2]; subst.
        simpl in *. apply andb_true_iff in Hno as [Hno1 Hno2].
        constructor; [|by apply IHd]. by eapply IH.
Qed.
End EncodeCopy.

Lemma Forall2_join {A B C} (P : A -> B -> Prop) (Q : A -> C -> Prop)
  (R : B -> C -> Prop) l1 l2 l3 :
  Forall2 P l1 l2 -> Forall2 Q l1 l3 ->
  (forall x y z, In x l1 -> In z l3 -> P x y -> Q x z -> R y z) ->
  Forall2 R l2 l3.
Proof.
  intros HP. revert l3. induction HP as [|x y l1 l2 Hxy _ IH]; intros l3 HQ HR.
  - inversion HQ. constructor.
  - inversion HQ as [|? z ? l3' Hxz HQ']; subst. constructor.
    + apply (HR x y z); simpl; auto.
    + apply IH; [done|]. intros x' y' z' Hx' Hz'. apply HR; simpl; auto.
Qed.

Lemma str_rel_oid v' o : str_rel (HAtom (AOid o)) v' -> v' = HAtom (AStr (oid_str o)).
Proof. intros H. by apply (H (AOid o)). Qed.

(** The text of an item that [create_queue_out_data] has converted. *)
Lemma encode_out_item h0 h1 n x y a b fields :
  wf_heap h0 ->
  reify n h0 x = Some (PDict fields) ->
  queue_item_tree a b (PDict fields) ->
  converted str_rel h0 h1 x y ->
  json_encode n h1 y = Ok (PDict (out_item a b fields)).
Proof.
  intros Hwf0 Ht (fields' & dfields & [= <-] & Hdocf & Hidf & Hpf & _ & _ & Hnof & Hnod).
  intros (m & li & d & ld & dd & vi & vp & vi' & vp' & H).
  destruct H as (-> & Hli & Hdoc & Hld & Hvi & Hvp & HRi & HRp & Hinv).
  destruct (reify_dict_inv _ _ _ _ Ht) as (li0 & d0 & n1 & [= <-] & -> & Hli0 & Hfields).
  rewrite Hli in Hli0. injection Hli0 as <-.
  destruct (tree_fields_get _ _ _ _ _ _ Hfields Hdocf) as (dv & Hdv & Hrdv).
  rewrite Hdoc in Hdv. injection Hdv as <-.
  destruct (reify_dict_inv _ _ _ _ Hrdv) as (ld0 & dd0 & n2 & [= <-] & -> & Hld0 & Hdfields).
  rewrite Hld in Hld0. injection Hld0 as <-.
  destruct (tree_fields_get _ _ _ _ _ _ Hdfields Hidf) as (vi0 & Hvi0 & Hrvi).
  rewrite Hvi in Hvi0. injection Hvi0 as <-. apply reify_atom_inv in Hrvi. subst vi.
  destruct (tree_fields_get _ _ _ _ _ _ Hdfields Hpf) as (vp0 & Hvp0 & Hrvp).
  rewrite Hvp in Hvp0. injection Hvp0 as <-. apply reify_atom_inv in Hrvp. subst vp.
  apply str_rel_oid in HRi, HRp. subst vi' vp'.
  assert (li <> ld) as Hne.
  { intros ->. assert (d = dd) as -> by congruence.
    by rewrite (reify_self h0 ld dd "document" (S (S n2)) Hld Hdoc) in Ht. }
  assert (document_of h0 (HRef li) = Some ld) as Hdocof by (simpl; by rewrite Hli, Hdoc).
  destruct (copied_document h0 (length h0) (HRef li) y m li ld d dd eq_refl Hli Hdoc Hld
              h1 _ Hinv eq_refl)
    as (li' & ld' & d' & dd' & -> & Hmli & Hmld & _ & Hli' & Hdoc' & Hld' & Hreldd).
  pose proof Hinv as (_ & Hinj & Hent).
  destruct (Hent li li' Hmli) as (_ & o & o' & Ho & Ho' & Hreld).
  rewrite Hli in Ho. injection Ho as <-. rewrite Hli' in Ho'. injection Ho' as <-.
  rewrite decide_False in Hreld by congruence. simpl in Hreld.
  pose proof (wf_heap_lookup _ _ _ Hwf0 Hli) as [Hndd _].
  pose proof (wf_heap_lookup _ _ _ Hwf0 Hld) as [Hnddd _].
  apply (json_encode_dict (S n2) h1 li' d' _ Hli').
  unfold out_item. apply Forall2_fmap_r.
  eapply (Forall2_join _ _ _ d d' fields Hreld Hfields).
  intros [k v] [k' v'] [kt t] Hin Hint [Hk Hv] [Hkt Hrt].
  cbn [fst snd dict_get] in Hk, Hv, Hkt, Hrt.
  subst k' kt. unfold compose. cbn [fst snd].
  destruct (String.eqb k "document") eqn:Ek.
  - apply String.eqb_eq in Ek. subst k. cbn [fst snd].
    pose proof (In_dict_get _ _ _ Hndd Hin) as Hv0. rewrite Hdoc in Hv0. injection Hv0 as <-.
    rewrite Hrdv in Hrt. injection Hrt as <-.
    destruct v' as [?|ld'']; [done|]. simpl in Hv.
    assert (ld'' = ld') as -> by congruence.
    split; [done|].
    apply (json_encode_dict n2 h1 ld' dd' _ Hld').
    unfold out_document. apply Forall2_fmap_r.
    eapply (Forall2_join _ _ _ dd dd' dfields Hreldd Hdfields).
    intros [k2 w] [k2' w'] [k2t u] Hin2 Hint2 [Hk2 Hw] [Hk2t Hru].
    cbn [fst snd] in Hk2, Hw, Hk2t, Hru. subst k2' k2t. unfold compose. cbn [fst snd].
    destruct (String.eqb k2 "_id") eqn:E1.
    { apply String.eqb_eq in E1. subst k2. cbn [dict_get] in Hw.
      change (String.eqb "_id" "parent") with false in Hw.
      rewrite String.eqb_refl in Hw. subst w'. split; [done|].
      by apply json_encode_atom. }
    destruct (String.eqb k2 "parent") eqn:E2.
    { apply String.eqb_eq in E2. subst k2. cbn [dict_get] in Hw.
      rewrite String.eqb_refl in Hw. subst w'. split; [done|].
      by apply json_encode_atom. }
    cbn [dict_get] in Hw. rewrite E1, E2 in Hw. split; [done|].
    apply String.eqb_neq in E1, E2.
    eapply (encode_copy h0 (length h0) h1 (HRef li) (HRef li') m _ ld dd a Hinv Hdocof Hld Hvi);
      [exact Hru| |exact Hw].
    by eapply Hnod.
  - split; [done|]. apply String.eqb_neq in Ek.
    eapply (encode_copy h0 (length h0) h1 (HRef li) (HRef li') m _ ld dd a Hinv Hdocof Hld Hvi);
      [exact Hrt| |exact Hv].
    by eapply Hnof.
Qed.

(** *** Decoding *)

Lemma dict_of_pairs_NoDup {V} (kvs : list (string * V)) :
  NoDup (map fst kvs) -> dict_of_pairs kvs = kvs.
Proof.
  unfold dict_of_pairs.
  assert (forall acc : list (string * V),
            NoDup (map fst acc ++ map fst kvs) ->
            fold_left (fun d kv => dict_set (fst kv) (snd kv) d) kvs acc = acc ++ kvs) as H.
  { induction kvs as [|[k v] kvs IH]; intros acc Hnd; simpl.
    - by rewrite app_nil_r.
    - rewrite dict_set_fresh.
      + rewrite IH; [by rewrite <- app_assoc|].
        rewrite map_app. simpl. by rewrite <- app_assoc.
      + simpl in Hnd. apply NoDup_app in Hnd as (_ & Hdisj & _).
        intros Hin. apply (Hdisj k); [by apply list_elem_of_In|]. by left. }
  intros Hnd. by apply (H []).
Qed.

Lemma decode_items_spec items :
  Forall (fun t => forall s, exists v s', json_decode t s = (Ok v, s') /\ decoded t s v s') items ->
  forall s, exists vs s',
    decode_items json_decode items s = (Ok vs, s')
    /\ extends (store s) (store s')
    /\ generated s' = generated s
    /\ (wf_heap (store s) -> Forall wf_tree items ->
        wf_heap (store s')
        /\ Forall (wf_val (length (store s'))) vs
        /\ forall n, Forall (fun t => depth t <= n) items ->
             Forall2 (fun v t => reify n (store s') v = Some t) vs items).
Proof.
  induction 1 as [|t items Ht _ IH]; intros s.
  - exists [], s. split; [done|]. split; [apply extends_refl|]. split; [done|].
    intros Hwf _. split; [done|]. split; constructor.
  - destruct (Ht s) as (v & s1 & Hrun1 & Hext1 & Hgen1 & Hdec1).
    destruct (IH s1) as (vs & s2 & Hrun2 & Hext2 & Hgen2 & Hdec2).
    exists (v :: vs), s2. split.
    { cbn [decode_items]. unfold bind at 1. rewrite Hrun1.
      fold (decode_items json_decode items). unfold bind at 1. by rewrite Hrun2. }
    split; [by eapply extends_trans|]. split; [congruence|].
    intros Hwf [Hwt Hwts]%Forall_cons.
    destruct (Hdec1 Hwf Hwt) as (Hwf1 & Hv1 & Hr1).
    destruct (Hdec2 Hwf1 Hwts) as (Hwf2 & Hv2 & Hr2).
    split; [done|]. split.
    + constructor; [|done]. eapply wf_val_mono; [|exact Hv1]. by destruct Hext2.
    + intros n [Hn Hns]%Forall_cons. constructor; [|by apply Hr2].
      eapply reify_extends; [exact Hext2|by apply Hr1].
Qed.

Lemma decode_fields_spec fields :
  Forall (fun kv => forall s, exists v s',
              json_decode (snd kv) s = (Ok v, s') /\ decoded (snd kv) s v s') fields ->
  forall s, exists kvs s',
    decode_fields json_decode fields s = (Ok kvs, s')
    /\ extends (store s) (store s')
    /\ generated s' = generated s
    /\ map fst kvs = map fst fields
    /\ (wf_heap (store s) -> Forall (fun kv => wf_tree (snd kv)) fields ->
        wf_heap (store s')
        /\ Forall (fun kv => wf_val (length (store s')) (snd kv)) kvs
        /\ forall n, Forall (fun kv => depth (snd kv) <= n) fields ->
             tree_fields n (store s') kvs fields).
Proof.
  induction 1 as [|[k t] fields Ht _ IH]; intros s.
  - exists [], s. split; [done|]. split; [apply extends_refl|]. split; [done|].
    split; [done|]. intros Hwf _. split; [done|]. split; constructor.
  - simpl in Ht. destruct (Ht s) as (v & s1 & Hrun1 & Hext1 & Hgen1 & Hdec1).
    destruct (IH s1) as (kvs & s2 & Hrun2 & Hext2 & Hgen2 & Hkeys & Hdec2).
    exists ((k, v) :: kvs), s2. split.
    { cbn [decode_fields fst snd]. unfold bind at 1. rewrite Hrun1.
      fold (decode_fields json_decode fields). unfold bind at 1. by rewrite Hrun2. }
    split; [by eapply extends_trans|]. split; [congruence|].
    split; [simpl; by rewrite Hkeys|].
    intros Hwf [Hwt Hwts]%Forall_cons. simpl in Hwt.
    destruct (Hdec1 Hwf Hwt) as (Hwf1 & Hv1 & Hr1).
    destruct (Hdec2 Hwf1 Hwts) as (Hwf2 & Hv2 & Hr2).
    split; [done|]. split.
    + constructor; [|done]. simpl. eapply wf_val_mono; [|exact Hv1]. by destruct Hext2.
    + intros n [Hn Hns]%Forall_cons. simpl in Hn. constructor; [|by apply Hr2].
      split; [done|]. simpl.
      eapply reify_extends; [exact Hext2|by apply Hr1].
Qed.

Lemma list_max_map_le {A} (f : A -> nat) l n :
  list_max (map f l) <= n -> Forall (fun x => f x <= n) l.
Proof.
  intros H. apply list_max_le in H. apply List.Forall_map in H. done.
Qed.

Lemma json_decode_spec t :
  forall s, exists v s', json_decode t s = (Ok v, s') /\ decoded t s v s'.
Proof.
  induction t as [a|items IH|fields IH] using pyval_nested_ind; intros s.
  - exists (HAtom a), s. split; [done|]. split; [apply extends_refl|]. split; [done|].
    intros Hwf _. split; [done|]. split; [done|]. by intros [|n].
  - destruct (decode_items_spec items IH s) as (vs & s1 & Hrun & Hext & Hgen & Hdec).
    exists (HRef (length (store s1))), (set_store (store s1 ++ [OList vs]) s1). split.
    { cbn [json_decode]. unfold bind at 1. rewrite Hrun. done. }
    split; [eapply extends_trans; [exact Hext|apply extends_alloc]|]. split; [done|].
    intros Hwf Hwt. simpl in Hwt. apply all_of_Forall in Hwt.
    destruct (Hdec Hwf Hwt) as (Hwf1 & Hvs & Hr). simpl.
    split; [|split].
    + apply wf_heap_alloc; [done|]. simpl.
      eapply Forall_impl; [exact Hvs|]. intros v. apply wf_val_mono. lia.
    + rewrite length_app. simpl. lia.
    + intros [|n] Hn; simpl in Hn; [lia|].
      apply (reify_list n _ _ vs items).
      * by rewrite lookup_app_r, Nat.sub_diag.
      * eapply Forall2_impl; [apply (Hr n)|].
        -- apply list_max_map_le. lia.
        -- intros v t. apply reify_extends. apply extends_alloc.
  - destruct (decode_fields_spec fields IH s) as (kvs & s1 & Hrun & Hext & Hgen & Hkeys & Hdec).
    exists (HRef (length (store s1))),
      (set_store (store s1 ++ [ODict (dict_of_pairs kvs)]) s1). split.
    { cbn [json_decode]. unfold bind at 1. rewrite Hrun. done. }
    split; [eapply extends_trans; [exact Hext|apply extends_alloc]|]. split; [done|].
    intros Hwf Hwt. simpl in Hwt. destruct Hwt as [Hnd Hwt]. apply all_of_Forall in Hwt.
    destruct (Hdec Hwf Hwt) as (Hwf1 & Hvs & Hr). simpl.
    rewrite dict_of_pairs_NoDup by (by rewrite Hkeys).
    split; [|split].
    + apply wf_heap_alloc; [done|]. simpl. split; [by rewrite Hkeys|].
      eapply Forall_impl; [exact Hvs|]. intros v. apply wf_val_mono. lia.
    + rewrite length_app. simpl. lia.
    + intros [|n] Hn; simpl in Hn; [lia|].
      apply (reify_dict n _ _ kvs fields).
      * by rewrite lookup_app_r, Nat.sub_diag.
      * eapply Forall2_impl; [apply (Hr n)|].
        -- apply (list_max_map_le (fun kv => depth (snd kv))). lia.
        -- intros kv kt [Hk Hv]. split; [done|].
           eapply reify_extends; [apply extends_alloc|done].
Qed.

Lemma json_loads_spec doc s :
  exists vs s',
    json_loads doc s = (Ok vs, s')
    /\ extends (store s) (store s')
    /\ (wf_heap (store s) -> Forall wf_tree doc ->
        wf_heap (store s')
        /\ Forall (wf_val (length (store s'))) vs
        /\ forall n, Forall (fun t => depth t <= n) doc ->
             Forall2 (fun v t => reify n (store s') v = Some t) vs doc).
Proof.
  destruct (decode_items_spec doc) with (s := s) as (vs & s' & Hrun & Hext & _ & Hdec).
  - apply List.Forall_forall. intros t _. apply json_decode_spec.
  - by exists vs, s'.
Qed.

(** *** The round trip *)

Lemma dict_get_out_item a b fields dfields :
  dict_get "document" fields = Some (PDict dfields) ->
  dict_get "document" (out_item a b fields)
    = Some (PDict (out_document a b dfields)).
Proof.
  induction fields as [|[k v] fields IH]; [done|].
  cbn [out_item map dict_get fst snd]. rewrite (String.eqb_sym k "document").
  destruct (String.eqb "document" k) eqn:E; cbn [dict_get fst snd]; rewrite E.
  - by intros [= ->].
  - apply IH.
Qed.

Lemma dict_get_out_document_id a b dfields v :
  dict_get "_id" dfields = Some v ->
  dict_get "_id" (out_document a b dfields) = Some (PStr (oid_str a)).
Proof.
  induction dfields as [|[k w] dfields IH]; [done|].
  cbn [out_document map dict_get fst snd]. rewrite (String.eqb_sym k "_id").
  destruct (String.eqb "_id" k) eqn:E; cbn [dict_get fst snd].
  - by rewrite E.
  - destruct (String.eqb k "parent"); cbn [dict_get fst snd]; rewrite E; apply IH.
Qed.

Lemma dict_get_out_document_parent a b dfields v :
  dict_get "parent" dfields = Some v ->
  dict_get "parent" (out_document a b dfields) = Some (PStr (oid_str b)).
Proof.
  induction dfields as [|[k w] dfields IH]; [done|].
  cbn [out_document map dict_get fst snd].
  destruct (String.eqb k "_id") eqn:E1.
  - apply String.eqb_eq in E1. subst k. cbn [dict_get fst snd].
    change (String.eqb "parent" "_id") with false. cbv iota. apply IH.
  - rewrite (String.eqb_sym k "parent").
    destruct (String.eqb "parent" k) eqn:E; cbn [dict_get fst snd]; rewrite E; [done|].
    apply IH.
Qed.

(** The objects behind the tree of a queue item. *)
Lemma queue_item_objects n h x t a b :
  reify n h x = Some t -> queue_item_tree a b t ->
  exists li d ld dd,
    x = HRef li
    /\ h !! li = Some (ODict d)
    /\ dict_get "document" d = Some (HRef ld)
    /\ h !! ld = Some (ODict dd)
    /\ dict_get "_id" dd = Some (HAtom (AOid a))
    /\ dict_get "parent" dd = Some (HAtom (AOid b)).
Proof.
  intros Ht (fields & dfields & -> & Hdocf & Hidf & Hpf & _).
  destruct (reify_dict_inv _ _ _ _ Ht) as (li & d & n1 & -> & -> & Hli & Hfields).
  destruct (tree_fields_get _ _ _ _ _ _ Hfields Hdocf) as (dv & Hdv & Hrdv).
  destruct (reify_dict_inv _ _ _ _ Hrdv) as (ld & dd & n2 & -> & -> & Hld & Hdfields).
  destruct (tree_fields_get _ _ _ _ _ _ Hdfields Hidf) as (vi & Hvi & Hrvi).
  destruct (tree_fields_get _ _ _ _ _ _ Hdfields Hpf) as (vp & Hvp & Hrvp).
  apply reify_atom_inv in Hrvi, Hrvp. subst vi vp.
  exists li, d, ld, dd. done.
Qed.

Lemma queue_item_tree_ids a b a' b' t :
  queue_item_tree a b t -> queue_item_tree a' b' t -> a' = a /\ b' = b.
Proof.
  intros (fields & dfields & -> & Hdocf & Hidf & Hpf & _)
         (fields' & dfields' & [= <-] & Hdocf' & Hidf' & Hpf' & _).
  rewrite Hdocf in Hdocf'. injection Hdocf' as <-. split; congruence.
Qed.

Lemma round_trip_out container_str n s queue_items ts :
  wf_heap (store s) ->
  Forall2 (fun x t => reify n (store s) x = Some t
                      /\ exists a b, queue_item_tree a b t) queue_items ts ->
  exists out s1 texts,
    create_queue_out_data container_str n queue_items s = (Ok out, s1)
    /\ extends (store s) (store s1)
    /\ wf_heap (store s1)
    /\ json_dumps n out s1 = (Ok texts, s1)
    /\ Forall2 out_text ts texts.
Proof.
  intros Hwf Hall.
  assert (Forall (wf_val (length (store s))) queue_items) as Hvals.
  { clear -Hall. induction Hall as [|x t ? ? [Ht (a & b & Hq)] _ IH]; constructor; [|done].
    destruct (queue_item_objects _ _ _ _ _ _ Ht Hq) as (li & d & ld & dd & -> & Hli & _).
    simpl. by eapply lookup_lt_Some. }
  assert (Forall (convertible (str container_str) n (store s)) queue_items) as Hconv.
  { clear -Hall. induction Hall as [|x t ? ? [Ht (a & b & Hq)] _ IH]; constructor; [|done].
    split; [eauto|].
    destruct (queue_item_objects _ _ _ _ _ _ Ht Hq)
      as (li & d & ld & dd & -> & Hli & Hdoc & Hld & Hid & Hp).
    exists li, d, ld, dd, (HAtom (AOid a)), (HAtom (AOid b)).
    repeat (split; [done|]). split; intros s0; eexists _, _; reflexivity. }
  destruct (create_queue_out_data container_str n queue_items s) as [r s1] eqn:Hrun.
  destruct (create_queue_out_data_loop_spec (store s) Hwf container_str n
              queue_items [] s r s1 (unchanged_refl _) Hwf Hvals Hrun)
    as (Hext & Hok & Hterm).
  destruct (Hterm Hconv) as [out ->].
  destruct (Hok out eq_refl) as (Hwf1 & news & -> & Hnews). simpl in *.
  assert (exists texts,
             Forall2 (fun y text => json_encode n (store s1) y = Ok text) news texts
             /\ Forall2 out_text ts texts) as (texts & Henc & Htexts).
  { clear -Hwf Hall Hnews. revert news Hnews.
    induction Hall as [|x t items ts [Ht (a & b & Hq)] _ IH]; intros news Hnews.
    - inversion Hnews. exists []. split; constructor.
    - inversion Hnews as [|? y ? news' Hy Hnews']; subst.
      destruct (IH news' Hnews') as (texts & Henc & Htexts).
      pose proof Hq as (fields & dfields & -> & _).
      exists (PDict (out_item a b fields) :: texts). split.
      + constructor; [|done]. by eapply encode_out_item.
      + constructor; [|done]. by exists a, b, fields. }
  exists news, s1, texts. split; [done|]. split; [done|]. split; [done|].
  split; [|done]. unfold json_dumps. apply encode_items_Ok in Henc. by rewrite Henc.
Qed.

Lemma round_trip_in generate n s2 loaded ts texts :
  wf_heap (store s2) ->
  Forall2 out_text ts texts ->
  Forall2 (fun v text => reify n (store s2) v = Some text) loaded texts ->
  exists res s3,
    create_queue_in_data generate n loaded s2 = (Ok res, s3)
    /\ extends (store s2) (store s3)
    /\ Forall2 (fun t r =>
                  forall a b, queue_item_tree a b t ->
                    exists dv,
                      getitem r "document" s3 = (Ok dv, s3)
                      /\ getitem dv "_id" s3 = (Ok (HAtom (AOid a)), s3)
                      /\ getitem dv "parent" s3 = (Ok (HAtom (AOid b)), s3))
         ts res.
Proof.
  intros Hwf Htexts Hloaded.
  (* the objects of the loaded items *)
  assert (Forall2 (fun t v =>
            exists a b li d ld dd,
              queue_item_tree a b t
              /\ (exists text, reify n (store s2) v = Some text)
              /\ v = HRef li
              /\ store s2 !! li = Some (ODict d)
              /\ dict_get "document" d = Some (HRef ld)
              /\ store s2 !! ld = Some (ODict dd)
              /\ dict_get "_id" dd = Some (HAtom (AStr (oid_str a)))
              /\ dict_get "parent" dd = Some (HAtom (AStr (oid_str b))))
            ts loaded) as Hobjs.
  { clear -Htexts Hloaded. revert loaded Hloaded.
    induction Htexts as [|t text ts texts (a & b & fields & Hq & -> & ->) _ IH];
      intros loaded Hloaded.
    - inversion Hloaded. constructor.
    - inversion Hloaded as [|v ? loaded' ? Hv Hloaded']; subst.
      constructor; [|by apply IH].
      pose proof Hq as (fields' & dfields & [= <-] & Hdocf & Hidf & Hpf & _).
      destruct (reify_dict_inv _ _ _ _ Hv) as (li & d & n1 & -> & -> & Hli & Hfields).
      destruct (tree_fields_get _ _ _ _ _ _ Hfields (dict_get_out_item a b _ _ Hdocf))
        as (dv & Hdv & Hrdv).
      destruct (reify_dict_inv _ _ _ _ Hrdv) as (ld & dd & n2 & -> & -> & Hld & Hdfields).
      destruct (tree_fields_get _ _ _ _ _ _ Hdfields (dict_get_out_document_id a b _ _ Hidf))
        as (vi & Hvi & Hrvi).
      destruct (tree_fields_get _ _ _ _ _ _ Hdfields (dict_get_out_document_parent a b _ _ Hpf))
        as (vp & Hvp & Hrvp).
      apply reify_atom_inv in Hrvi, Hrvp. subst vi vp.
      exists a, b, li, d, ld, dd. repeat (split; [done|]).
      split; [eauto|]. done. }
  assert (Forall (wf_val (length (store s2))) loaded) as Hvals.
  { clear -Hobjs. induction Hobjs as [|t v ? ? H _ IH]; constructor; [|done].
    destruct H as (a & b & li & d & ld & dd & _ & _ & -> & Hli & _).
    simpl. by eapply lookup_lt_Some. }
  assert (Forall (convertible (ObjectId_new generate) n (store s2)) loaded) as Hconv.
  { clear -Hobjs. induction Hobjs as [|t v ? ? H _ IH]; constructor; [|done].
    destruct H as (a & b & li & d & ld & dd & Hq & Ht & -> & Hli & Hdoc & Hld & Hid & Hp).
    split; [done|].
    destruct Hq as (_ & _ & _ & _ & _ & _ & Hva & Hvb & _).
    exists li, d, ld, dd, (HAtom (AStr (oid_str a))), (HAtom (AStr (oid_str b))).
    repeat (split; [done|]).
    split; intros s0; eexists _, _; simpl;
      rewrite ObjectId_of_string_oid_str by done; reflexivity. }
  destruct (create_queue_in_data generate n loaded s2) as [r s3] eqn:Hrun.
  destruct (create_queue_in_data_loop_spec (store s2) Hwf generate n
              loaded [] s2 r s3 (unchanged_refl _) Hwf Hvals Hrun)
    as (Hext & Hok & Hterm).
  destruct (Hterm Hconv) as [res ->].
  destruct (Hok res eq_refl) as (Hwf3 & news & -> & Hnews). simpl in *.
  exists news, s3. split; [done|]. split; [done|].
  eapply (Forall2_join _ _ _ loaded ts news); [apply Forall2_flip; exact Hobjs|exact Hnews|].
  intros x t y _ _ (a & b & li & d & ld & dd & Hq & _ & -> & Hli & Hdoc & Hld & Hid & Hp).
  intros (m & li0 & d0 & ld0 & dd0 & vi & vp & vi' & vp' & Hc) a' b' Hq'.
  destruct (queue_item_tree_ids _ _ _ _ _ Hq Hq') as [-> ->].
  destruct Hc as ([= <-] & Hli0 & Hdoc0 & Hld0 & Hvi & Hvp & HRi & HRp & Hinv).
  assert (d0 = d) as -> by congruence.
  assert (ld0 = ld) as -> by congruence. assert (dd0 = dd) as -> by congruence.
  assert (vi = HAtom (AStr (oid_str a))) as -> by congruence.
  assert (vp = HAtom (AStr (oid_str b))) as -> by congruence.
  destruct Hq as (_ & _ & _ & _ & _ & _ & Hva & Hvb & _).
  pose proof (HRi _ _ eq_refl (ObjectId_of_string_oid_str a Hva)) as ->.
  pose proof (HRp _ _ eq_refl (ObjectId_of_string_oid_str b Hvb)) as ->.
  destruct (copied_document (store s2) (length (store s2)) (HRef li) y m li ld d dd
              eq_refl Hli Hdoc Hld (store s3) _ Hinv eq_refl)
    as (li' & ld' & d' & dd' & -> & _ & _ & _ & Hli' & Hdoc' & Hld' & Hrel).
  exists (HRef ld'). split; [by eapply getitem_run|].
  destruct (frelc_dict_get _ _ _ _ "_id" _ Hrel Hid) as (wi & Hwi & Hwi').
  destruct (frelc_dict_get _ _ _ _ "parent" _ Hrel Hp) as (wp & Hwp & Hwp').
  cbn [dict_get] in Hwi', Hwp'.
  change (String.eqb "_id" "parent") with false in Hwi'.
  rewrite String.eqb_refl in Hwi', Hwp'. subst wi wp.
  split; by eapply getitem_run.
Qed.

(** The round trip where it works. In a well-formed store, for queue items
    that unfold to trees, each a dictionary whose document is a dictionary with
    database ids under [_id] and [parent] and which holds no other database
    id, the round trip ([create_queue_out_data], JSON encoding and decoding,
    [create_queue_in_data]) returns, given fuel for the depth of the trees,
    one item per input item; reading [item["document"]["_id"]] and
    [item["document"]["parent"]] on the returned item yields the original
    database ids, as database ids; and the store holds every object it held
    before, unchanged. *)
Theorem round_trip_restores_ids
  (generate : nat -> ObjectId) (container_str : heap -> loc -> string)
  (n : nat) (queue_items : list hval) (ts : list pyval) (s : state) :
  wf_heap (store s) ->
  Forall2 (fun x t => reify n (store s) x = Some t
                      /\ exists a b, queue_item_tree a b t) queue_items ts ->
  exists res s',
    round_trip generate container_str n queue_items s = (Ok res, s')
    /\ unchanged (store s) (store s')
    /\ Forall2 (fun t r =>
                  forall a b, queue_item_tree a b t ->
                    exists dv,
                      getitem r "document" s' = (Ok dv, s')
                      /\ getitem dv "_id" s' = (Ok (HAtom (AOid a)), s')
                      /\ getitem dv "parent" s' = (Ok (HAtom (AOid b)), s'))
         ts res.
Proof.
  intros Hwf Hall.
  destruct (round_trip_out container_str n s queue_items ts Hwf Hall)
    as (out & s1 & texts & Hout & Hext1 & Hwf1 & Hdumps & Htexts).
  destruct (json_loads_spec texts s1) as (loaded & s2 & Hloads & Hext2 & Hdec).
  assert (Forall2 (fun y text => json_encode n (store s1) y = Ok text) out texts) as Henc.
  { unfold json_dumps in Hdumps. injection Hdumps as Hdumps. by apply encode_items_Ok. }
  assert (Forall (fun text => depth text <= n /\ wf_tree text) texts) as Hfacts.
  { clear -Henc Hwf1. induction Henc as [|y text ? ? Hy _ IH]; constructor; [|done].
    by eapply json_encode_tree. }
  destruct Hdec as (Hwf2 & _ & Hreify); [done| |].
  { eapply Forall_impl; [exact Hfacts|]. by intros t [_ ?]. }
  destruct (round_trip_in generate n s2 loaded ts texts Hwf2 Htexts) as (res & s3 & Hin & Hext3 & Hres).
  { apply Hreify. eapply Forall_impl; [exact Hfacts|]. by intros t [? _]. }
  exists res, s3. split.
  - unfold round_trip. unfold bind at 1. rewrite Hout.
    unfold bind at 1. rewrite Hdumps. unfold bind at 1. rewrite Hloads. done.
  - split; [|done]. apply extends_is_unchanged.
    eapply extends_trans; [exact Hext1|]. eapply extends_trans; [exact Hext2|exact Hext3].
Qed.

(** *** The statements on the demo stores *)

(** The demo store is well formed. *)
Lemma demo_store0_wf : wf_heap HeapDemo.store0.
Proof.
  unfold wf_heap, HeapDemo.store0. cbn [length].
  repeat (apply List.Forall_cons); try apply List.Forall_nil; cbn [wf_obj];
    try split;
    try match goal with
        | |- NoDup _ => apply (bool_decide_unpack _); vm_compute; exact I
        end;
    repeat (apply List.Forall_cons); try apply List.Forall_nil;
    cbn [wf_val snd]; try lia; try exact I.
Qed.

Lemma queue_conversions_copy_witness :
  (forall r s',
      create_queue_out_data HeapDemo.container_str 3 [HeapDemo.item0]
        (HeapDemo.state_of HeapDemo.store0) = (r, s') ->
      unchanged HeapDemo.store0 (store s')
      /\ forall out, r = Ok out ->
           Forall2 (converted_copy HeapDemo.store0 (store s')) [HeapDemo.item0] out)
  /\ (forall r s',
        create_queue_in_data HeapDemo.generate 3 [HeapDemo.item0]
          (HeapDemo.state_of HeapDemo.store0) = (r, s') ->
        unchanged HeapDemo.store0 (store s')
        /\ forall out, r = Ok out ->
             Forall2 (converted_copy HeapDemo.store0 (store s')) [HeapDemo.item0] out).
Proof.
  apply (queue_conversions_copy HeapDemo.generate HeapDemo.container_str 3
           [HeapDemo.item0] (HeapDemo.state_of HeapDemo.store0)).
  - exact demo_store0_wf.
  - apply List.Forall_cons; [cbn; lia|apply List.Forall_nil].
Defined.

(** The tree of the demo queue item. *)
Lemma demo_tree0 : queue_item_tree HeapDemo.oid_a HeapDemo.oid_b HeapDemo.tree0.
Proof.
  exists [("asset", PStr "hero_01 : hero");
          ("document", PDict [("_id", POid HeapDemo.oid_a); ("name", PStr "hero");
                              ("parent", POid HeapDemo.oid_b)]);
          ("looks", PList []);
          ("nodes", PList [PStr "|grp|a1"])],
         [("_id", POid HeapDemo.oid_a); ("name", PStr "hero");
          ("parent", POid HeapDemo.oid_b)].
  split; [reflexivity|]. split; [reflexivity|].
  split; [reflexivity|]. split; [reflexivity|].
  split; [reflexivity|]. split; [reflexivity|]. split.
  - intros k v Hin Hk.
    repeat (destruct Hin as [Hin|Hin];
            [injection Hin as <- <-; first [reflexivity | exfalso; apply Hk; reflexivity]|]).
    destruct Hin.
  - intros k v Hin Hk Hk'.
    repeat (destruct Hin as [Hin|Hin];
            [injection Hin as <- <-;
             first [reflexivity | exfalso; apply Hk; reflexivity
                   | exfalso; apply Hk'; reflexivity]|]).
    destruct Hin.
Qed.

Lemma round_trip_restores_ids_witness :
  exists res s',
    round_trip HeapDemo.generate HeapDemo.container_str 3 [HeapDemo.item0]
      (HeapDemo.state_of HeapDemo.store0) = (Ok res, s')
    /\ unchanged HeapDemo.store0 (store s')
    /\ Forall2 (fun t r =>
                  forall a b, queue_item_tree a b t ->
                    exists dv,
                      getitem r "document" s' = (Ok dv, s')
                      /\ getitem dv "_id" s' = (Ok (HAtom (AOid a)), s')
                      /\ getitem dv "parent" s' = (Ok (HAtom (AOid b)), s'))
         [HeapDemo.tree0] res.
Proof.
  apply (round_trip_restores_ids HeapDemo.generate HeapDemo.container_str 3
           [HeapDemo.item0] [HeapDemo.tree0] (HeapDemo.state_of HeapDemo.store0)).
  - exact demo_store0_wf.
  - apply List.Forall2_cons; [|apply List.Forall2_nil].
    split; [vm_compute; reflexivity|].
    exists HeapDemo.oid_a, HeapDemo.oid_b. exact demo_tree0.
Defined.

(** C3. The round trip fails on a queue item with a look as
    [fetch_looks] builds it. The document of the item has database ids
    under [_id] and [parent]; the version document of its look carries a
    database id too, which [create_queue_out_data] leaves as it is
    although its result is meant for the JSON encoder: the call returns,
    and encoding what it returned raises [TypeError], so that no id is
    reproduced. *)
Theorem round_trip_counterexample :
  fst (getitem HeapDemo.item1 "document" (HeapDemo.state_of HeapDemo.store1))
  = Ok (HRef 0)
  /\ fst (getitem (HRef 0) "_id" (HeapDemo.state_of HeapDemo.store1))
     = Ok (HAtom (AOid HeapDemo.oid_a))
  /\ fst (getitem (HRef 0) "parent" (HeapDemo.state_of HeapDemo.store1))
     = Ok (HAtom (AOid HeapDemo.oid_b))
  /\ fst (create_queue_out_data HeapDemo.container_str 5 [HeapDemo.item1]
            (HeapDemo.state_of HeapDemo.store1)) = Ok [HRef 5]
  /\ fst (round_trip HeapDemo.generate HeapDemo.container_str 5 [HeapDemo.item1]
            (HeapDemo.state_of HeapDemo.store1)) = Raise TypeError.
Proof.
  split; [vm_compute; reflexivity|].
  split; [vm_compute; reflexivity|].
  split; [vm_compute; reflexivity|].
  split; vm_compute; reflexivity.
Qed.

(** The store of the failing queue item is well formed: the failure comes
    from the id of the version document alone. *)
Lemma demo_store1_wf : wf_heap HeapDemo.store1.
Proof.
  unfold wf_heap, HeapDemo.store1. cbn [length].
  repeat (apply List.Forall_cons); try apply List.Forall_nil; cbn [wf_obj];
    try split;
    try match goal with
        | |- NoDup _ => apply (bool_decide_unpack _); vm_compute; exact I
        end;
    repeat (apply List.Forall_cons); try apply List.Forall_nil;
    cbn [wf_val snd]; try lia; try exact I.
Qed.

End HeapFacts.

(* ===================================================================== *)
(** * Further properties *)
(* ===================================================================== *)

(** ** Grouping, once more *)

Lemma hash_append_flat k n h :
  Permutation (flat_map snd (hash_append k n h)) (flat_map snd h ++ [n]).
Proof.
  induction h as [|[k0 ns] h IH]; simpl; [done|].
  destruct (String.eqb k k0); simpl.
  - rewrite <- !app_assoc. apply Permutation_app_head. apply Permutation_app_comm.
  - rewrite IH. by rewrite app_assoc.
Qed.

Lemma create_asset_id_hash_loop_flat sc nodes : forall h h',
  create_asset_id_hash_loop sc nodes h = Ok h' ->
  Permutation (flat_map snd h') (flat_map snd h ++ List.filter (has_id sc) nodes).
Proof.
  induction nodes as [|n nodes IH]; intros h h'; simpl.
  - intros [= <-]. by rewrite app_nil_r.
  - unfold has_id at 1. destruct (get_id sc n) as [value|] eqn:Hid.
    + destruct (split_on_head ":" value) as [rest ->]. simpl.
      intros Hrun. rewrite (IH _ _ Hrun), hash_append_flat.
      by rewrite <- app_assoc.
    + apply IH.
Qed.

Lemma create_asset_id_hash_total sc nodes :
  exists h, create_asset_id_hash sc (Some nodes) = Ok h
            /\ NoDup (map fst h)
            /\ forall k, dict_get k h = grouping_of sc nodes k.
Proof.
  destruct (create_asset_id_hash_loop_spec sc nodes [] [])
    as (h & Hrun & Hnd & Hget); [apply NoDup_nil_2|done|].
  exists h. done.
Qed.

Lemma group_members sc nodes h k ns :
  create_asset_id_hash sc (Some nodes) = Ok h -> In (k, ns) h ->
  ns = List.filter (has_asset_key sc k) nodes /\ ns <> [].
Proof.
  intros Hrun Hin.
  destruct (create_asset_id_hash_total sc nodes) as (h' & Hrun' & Hnd & Hget).
  rewrite Hrun in Hrun'. injection Hrun' as <-.
  pose proof (In_dict_get k ns h Hnd Hin) as Hk. rewrite Hget in Hk.
  unfold grouping_of in Hk.
  destruct (List.filter _ nodes) as [|n l]; [done|]. by injection Hk as <-.
Qed.

Lemma has_asset_key_iff sc k n :
  has_asset_key sc k n = true <-> asset_key sc n = Some k.
Proof.
  unfold has_asset_key. destruct (asset_key sc n) as [k'|]; [|done].
  rewrite String.eqb_eq. split; congruence.
Qed.

(** X3. The groups of [create_asset_id_hash] partition the nodes that have
    an identifier: taken together they hold these nodes, each as often as
    the input does; no group is empty; a node lies only in the group keyed
    by its identifier's prefix, and no two groups share a key. *)
Theorem create_asset_id_hash_partitions (sc : scene) (nodes : list node) :
  exists h,
    create_asset_id_hash sc (Some nodes) = Ok h
    /\ Permutation (flat_map snd h) (List.filter (has_id sc) nodes)
    /\ NoDup (map fst h)
    /\ forall k ns, In (k, ns) h ->
         ns <> [] /\ forall n, In n ns -> In n nodes /\ asset_key sc n = Some k.
Proof.
  destruct (create_asset_id_hash_total sc nodes) as (h & Hrun & Hnd & Hget).
  exists h. split; [done|]. split.
  - apply (create_asset_id_hash_loop_flat sc nodes [] h Hrun).
  - split; [done|]. intros k ns Hin.
    destruct (group_members sc nodes h k ns Hrun Hin) as [-> Hne].
    split; [done|]. intros n Hn. apply filter_In in Hn as [Hn Hk].
    split; [done|]. by apply has_asset_key_iff.
Qed.

(** ** View items, once more *)

Lemma only_warned_refl w : only_warned w w.
Proof.
  split; [done|]. split; [done|]. exists []. by rewrite app_nil_r.
Qed.

Lemma only_warned_trans w1 w2 w3 :
  only_warned w1 w2 -> only_warned w2 w3 -> only_warned w1 w3.
Proof.
  intros (Ha & Hr & m & Hl & Hm) (Ha' & Hr' & m' & Hl' & Hm').
  split; [congruence|]. split; [congruence|].
  exists (m ++ m'). rewrite Hl', Hl, <- app_assoc. split; [done|].
  rewrite forallb_app, Hm, Hm'. done.
Qed.

Lemma only_warned_missing k ns w :
  only_warned w {| logged := logged w ++ missing_id_warnings k ns;
                   assigned := assigned w; removed := removed w |}.
Proof.
  split; [done|]. split; [done|]. by exists (missing_id_warnings k ns).
Qed.

Lemma fetch_looks_loop_pure av asset_name subsets : forall acc w w',
  fetch_looks_loop av asset_name subsets acc w' =
    (fst (fetch_looks_loop av asset_name subsets acc w), w').
Proof.
  induction subsets as [|s subsets IH]; intros acc w w'; simpl; [done|].
  unfold fetch_looks_step, bind, lift, ret.
  destruct (getitem s "_id"); try done.
  destruct (getitem s "name"); try done.
Qed.

Lemma fetch_looks_pure av asset w w' :
  fetch_looks av asset w' = (fst (fetch_looks av asset w), w').
Proof.
  unfold fetch_looks, bind, lift.
  destruct (getitem asset "name"); try done.
  destruct (getitem asset "_id"); try done.
  apply fetch_looks_loop_pure.
Qed.

(** What one turn of the loop over the groups does, in full. *)
Lemma create_item_shape sc av k ns w :
  match create_item sc av k ns w with
  | (Ok (Some item), w') =>
      w' = w /\ known_id av k = true /\ view_item_of sc av (k, ns) item
  | (Ok None, w') =>
      known_id av k = false
      /\ w' = {| logged := logged w ++ missing_id_warnings k ns;
                 assigned := assigned w; removed := removed w |}
  | (Raise e, w') => w' = w
  | (Stuck, w') => w' = w
  end.
Proof.
  unfold create_item, known_id, asset_document, view_item_of, bind, lift.
  simpl fst. simpl snd.
  destruct (ObjectId_of_string k) as [oid| |] eqn:Hoid; try done.
  destruct (find_one av [("_id", POid oid)] ["name"] None) as [doc|] eqn:Hdoc.
  2:{ simpl. unfold log_warning, ret, missing_id_warnings. simpl.
      by rewrite <- app_assoc. }
  destruct (truthy (doc_value (Some doc))) eqn:Htr; simpl.
  2:{ unfold log_warning, ret, missing_id_warnings. simpl.
      by rewrite <- app_assoc. }
  pose proof (fetch_looks_world av (PDict doc) w) as Hw.
  destruct (fetch_looks av (PDict doc) w) as [[looks| |] w1] eqn:Hlooks;
    simpl in Hw; subst w1; try done.
  destruct (index0 ns) as [first| |] eqn:Hfirst; try done.
  unfold get_namespace_from_node.
  destruct (ls_showNamespace sc first) as [|a [|namespace [|c l]]] eqn:Hns; try done.
  unfold ret at 1.
  destruct (dict_get "name" doc) as [name|] eqn:Hname; try done.
  unfold ret. split; [done|]. split; [done|].
  exists doc, name, looks, first, a, namespace.
  split; [unfold asset_document; by rewrite Hoid|]. split; [done|].
  split; [|done]. intros w'. rewrite (fetch_looks_pure av (PDict doc) w w').
  by rewrite Hlooks.
Qed.

Lemma create_items_loop_shape sc av groups : forall acc w r w',
  create_items_loop sc av groups acc w = (r, w') ->
  only_warned w w'
  /\ forall items, r = Ok items ->
       exists news,
         items = acc ++ news
         /\ Forall2 (view_item_of sc av) (List.filter (group_known av) groups) news
         /\ w' = {| logged := logged w ++
                      flat_map (fun g => missing_id_warnings (fst g) (snd g))
                        (List.filter (fun g => negb (group_known av g)) groups);
                    assigned := assigned w; removed := removed w |}.
Proof.
  induction groups as [|[k ns] groups IH]; intros acc w r w'; simpl.
  - unfold ret. intros [= <- <-]. split; [apply only_warned_refl|].
    intros items [= <-]. exists []. rewrite !app_nil_r.
    split; [done|]. split; [constructor|by destruct w].
  - unfold bind. pose proof (create_item_shape sc av k ns w) as Hcase.
    change (group_known av (k, ns)) with (known_id av k).
    destruct (create_item sc av k ns w) as [[[item|]| |] w1].
    + destruct Hcase as (-> & Hk & Hitem). rewrite Hk. simpl.
      intros Hrun. destruct (IH _ _ _ _ Hrun) as [Hw Hok].
      split; [done|]. intros items Hr.
      destruct (Hok items Hr) as (news & -> & Hnews & Hw').
      exists (item :: news). rewrite <- app_assoc. split; [done|].
      split; [by constructor|done].
    + destruct Hcase as (Hk & ->). rewrite Hk. simpl.
      intros Hrun. destruct (IH _ _ _ _ Hrun) as [Hw Hok].
      split; [by eapply only_warned_trans; [apply only_warned_missing|]|].
      intros items Hr.
      destruct (Hok items Hr) as (news & -> & Hnews & Hw').
      exists news. split; [done|]. split; [done|].
      rewrite Hw'. simpl. by rewrite <- app_assoc.
    + intros [= <- <-]. subst w1. split; [apply only_warned_refl|done].
    + intros [= <- <-]. subst w1. split; [apply only_warned_refl|done].
Qed.

Lemma create_items_from_selection_shape sc av content w r w' :
  create_items_from_selection sc av content w = (r, w') ->
  only_warned w w'
  /\ forall items, r = Ok items ->
       exists groups,
         create_asset_id_hash sc content = Ok groups
         /\ Forall2 (view_item_of sc av) (List.filter (group_known av) groups) items
         /\ w' = {| logged := logged w ++
                      flat_map (fun g => missing_id_warnings (fst g) (snd g))
                        (List.filter (fun g => negb (group_known av g)) groups);
                    assigned := assigned w; removed := removed w |}.
Proof.
  unfold create_items_from_selection, bind, lift.
  destruct (create_asset_id_hash sc content) as [groups| |] eqn:Hh.
  - destruct groups as [|g groups].
    + unfold ret. intros [= <- <-]. split; [apply only_warned_refl|].
      intros items [= <-]. exists []. split; [done|]. split; [constructor|].
      simpl. rewrite app_nil_r. by destruct w.
    + intros Hrun.
      destruct (create_items_loop_shape sc av (g :: groups) [] w r w' Hrun) as [Hw Hok].
      split; [done|]. intros items Hr.
      destruct (Hok items Hr) as (news & -> & Hnews & Hw').
      exists (g :: groups). done.
  - intros [= <- <-]. split; [apply only_warned_refl|done].
  - intros [= <- <-]. split; [apply only_warned_refl|done].
Qed.

(** X4. Whenever [create_items_from_selection] returns, its items are, in
    the order of the asset-id hash, the view items of the groups whose id
    has a document: each holds the document reduced to id and name, the
    looks fetched for it, the id, the nodes of the group, and a label made
    of the namespace of the group's first node and the asset's name. For
    every other group the two warnings are logged, in the same order, and
    nothing else happens. *)
Theorem create_items_from_selection_items
  (sc : scene) (av : avalon) (nodes : list node) (w : world) :
  exists groups,
    create_asset_id_hash sc (Some nodes) = Ok groups
    /\ forall items w',
         create_items_from_selection sc av (Some nodes) w = (Ok items, w') ->
         Forall2 (view_item_of sc av) (List.filter (group_known av) groups) items
         /\ w' = {| logged := logged w ++
                      flat_map (fun g => missing_id_warnings (fst g) (snd g))
                        (List.filter (fun g => negb (group_known av g)) groups);
                    assigned := assigned w; removed := removed w |}.
Proof.
  destruct (create_asset_id_hash_total sc nodes) as (groups & Hh & _).
  exists groups. split; [done|]. intros items w' Hrun.
  destruct (create_items_from_selection_shape sc av _ w _ w' Hrun) as [_ Hok].
  destruct (Hok items eq_refl) as (groups' & Hh' & Hitems & Hw).
  rewrite Hh in Hh'. injection Hh' as <-. done.
Qed.

(** X6. Content in which no node has an identifier, the empty content
    included, yields no item: the hash of the asset ids is empty, and
    [create_items_from_selection] returns the empty list and leaves the
    world as it was, nothing logged, whatever the database holds. *)
Theorem create_items_from_selection_without_ids
  (sc : scene) (av : avalon) (nodes : list node) (w : world) :
  (forall n, In n nodes -> get_id sc n = None) ->
  create_asset_id_hash sc (Some nodes) = Ok []
  /\ create_items_from_selection sc av (Some nodes) w = (Ok [], w).
Proof.
  intros Hno.
  assert (create_asset_id_hash sc (Some nodes) = Ok []) as Hh.
  { simpl. induction nodes as [|n nodes IH]; simpl; [done|].
    rewrite (Hno n) by (by left). apply IH. intros x Hx. apply Hno. by right. }
  split; [done|].
  unfold create_items_from_selection, bind, lift. by rewrite Hh.
Qed.

Lemma create_items_from_selection_without_ids_witness :
  create_asset_id_hash Demo.sc (Some ["|plain"; "|grp"]) = Ok []
  /\ create_items_from_selection Demo.sc Demo.av (Some ["|plain"; "|grp"]) Demo.w0
     = (Ok [], Demo.w0).
Proof.
  apply (create_items_from_selection_without_ids Demo.sc Demo.av
           ["|plain"; "|grp"] Demo.w0).
  intros n [<-|[<-|[]]]; reflexivity.
Defined.

Lemma well_formed_id_cases text :
  well_formed_id text \/ ~ well_formed_id text.
Proof.
  unfold well_formed_id. destruct (ObjectId_of_string text) as [o| |]; eauto;
    right; by intros [o Ho].
Qed.

Lemma ObjectId_of_string_malformed text :
  ~ well_formed_id text -> ObjectId_of_string text = Raise InvalidId.
Proof.
  unfold well_formed_id, ObjectId_of_string. intros Hbad.
  destruct (Nat.eqb _ 24); [|done].
  destruct (bytes_from_hex text); [|done]. exfalso. apply Hbad. eauto.
Qed.

Lemma create_items_loop_app sc av pre rest : forall acc w,
  create_items_loop sc av (pre ++ rest) acc w =
    match create_items_loop sc av pre acc w with
    | (Ok items, w1) => create_items_loop sc av rest items w1
    | other => other
    end.
Proof.
  induction pre as [|[k ns] pre IH]; intros acc w; simpl; [done|].
  unfold bind. destruct (create_item sc av k ns w) as [[[item|]| |] w1]; try done.
Qed.

(** X18. An asset id that the constructor of database ids does not
    accept stops [create_items_from_selection]: when the groups before it
    in the hash have ids the constructor accepts and can be built, the
    constructor raises [InvalidId] at that group; the items built for the
    groups before it are lost, the warnings logged for them stay, and the
    groups after it are never looked at. A text is not accepted when it is
    not 24 characters long or [bytes.fromhex] refuses it. *)
Theorem create_items_from_selection_aborts_on_malformed_id
  (sc : scene) (av : avalon) (nodes : list node)
  (pre post : list (string * list node)) (k : string) (ns : list node)
  (w : world) :
  create_asset_id_hash sc (Some nodes) = Ok (pre ++ (k, ns) :: post) ->
  Forall (fun g => well_formed_id (fst g)) pre ->
  Forall (fun g => buildable sc av (fst g) (snd g)) pre ->
  ~ well_formed_id k ->
  create_items_from_selection sc av (Some nodes) w =
    (Raise InvalidId,
     {| logged := logged w ++
          flat_map (fun g => missing_id_warnings (fst g) (snd g))
            (List.filter (fun g => negb (group_known av g)) pre);
        assigned := assigned w; removed := removed w |}).
Proof.
  intros Hh Hwf Hb Hbad.
  assert (Forall (fun g : string * list node => exists n ns', snd g = n :: ns') pre) as Hne.
  { apply List.Forall_forall. intros [k0 ns0] Hin.
    destruct (group_members sc nodes _ k0 ns0 Hh) as [_ Hnil].
    { apply in_app_iff. by left. }
    simpl. destruct ns0; [done|eauto]. }
  destruct (create_items_loop_spec sc av pre [] w Hne Hwf Hb) as (items & Hloop & _).
  unfold create_items_from_selection, bind, lift. rewrite Hh.
  destruct (pre ++ (k, ns) :: post) as [|g l] eqn:Hl; [by destruct pre|].
  rewrite <- Hl, create_items_loop_app, Hloop. simpl.
  unfold bind, create_item, bind, lift.
  by rewrite (ObjectId_of_string_malformed k Hbad).
Qed.

Lemma create_items_from_selection_aborts_on_malformed_id_witness :
  create_items_from_selection Demo.sc Demo.av (Some ["|c1"; "|b1"; "|bad"; "|grp|a1"])
    Demo.w0 =
    (Raise InvalidId,
     {| logged := logged Demo.w0 ++
          flat_map (fun g => missing_id_warnings (fst g) (snd g))
            (List.filter (fun g => negb (group_known Demo.av g))
               [(Demo.id_c, ["|c1"]); (Demo.id_b, ["|b1"])]);
        assigned := assigned Demo.w0; removed := removed Demo.w0 |}).
Proof.
  apply (create_items_from_selection_aborts_on_malformed_id Demo.sc Demo.av
           ["|c1"; "|b1"; "|bad"; "|grp|a1"]
           [(Demo.id_c, ["|c1"]); (Demo.id_b, ["|b1"])]
           [(Demo.id_a, ["|grp|a1"])] "A1B2" ["|bad"] Demo.w0).
  - reflexivity.
  - repeat constructor; eexists; vm_compute; reflexivity.
  - apply List.Forall_forall. intros g _. apply demo_buildable.
  - intros [o Ho]. vm_compute in Ho. discriminate.
Defined.

Lemma gather_view_items_only_warn sc av cs : forall w,
  only_warned w (snd (gather_view_items sc av cs w)).
Proof.
  induction cs as [|c cs IH]; intros w; simpl; [apply only_warned_refl|].
  unfold bind, ret.
  destruct (create_items_from_selection sc av _ w) as [r w1] eqn:Hrun.
  destruct (create_items_from_selection_shape sc av _ w r w1 Hrun) as [Hw _].
  destruct r as [view_items| |]; simpl; try done.
  pose proof (IH w1) as Hw1.
  destruct (gather_view_items sc av cs w1) as [[more| |] w2]; simpl in *;
    by eapply only_warned_trans.
Qed.

(** X5. Building view items reads the scene and the database and may log
    warnings, nothing else: however [create_items_from_selection],
    [get_all_assets] and [get_items_from_selection] end, with a result or
    with an exception, no look has been assigned, no container has been
    removed, and every record added to the log is a warning. *)
Theorem view_item_builders_only_warn
  (sc : scene) (av : avalon) (content : option (list node))
  (ls_selection : list node) (list_of_set : list node -> list node)
  (fuel : nat) (w : world) :
  only_warned w (snd (create_items_from_selection sc av content w))
  /\ only_warned w (snd (get_all_assets sc av w))
  /\ only_warned w
       (snd (get_items_from_selection sc av ls_selection list_of_set fuel w)).
Proof.
  split; [|split].
  - destruct (create_items_from_selection sc av content w) as [r w1] eqn:Hrun.
    by destruct (create_items_from_selection_shape sc av _ w r w1 Hrun).
  - unfold get_all_assets. rewrite get_all_assets_loop_gather.
    pose proof (gather_view_items_only_warn sc av
                  (List.filter (fun c => negb (is_look_container c)) (host_ls av)) w) as Hw.
    by destruct (gather_view_items sc av _ w) as [[more| |] w1].
  - unfold get_items_from_selection, bind, lift, ret.
    destruct (list_descendents sc fuel ls_selection) as [hierarchy| |];
      simpl; try apply only_warned_refl.
    destruct (create_items_from_selection sc av _ w) as [r w1] eqn:Hrun.
    destruct (create_items_from_selection_shape sc av _ w r w1 Hrun) as [Hw _].
    by destruct r.
Qed.

(** ** Assignment, once more *)

Lemma view_item_entry sc av g item :
  view_item_of sc av g item ->
  exists fields n ns,
    item = PDict fields
    /\ dict_get "nodes" fields = Some (node_values (n :: ns))
    /\ snd g = n :: ns
    /\ dict_get "version" fields = None.
Proof.
  intros (doc & name & looks & first & a & namespace & _ & _ & _ & Hfirst & _ & ->).
  destruct (snd g) as [|n ns]; [done|].
  eexists _, n, ns. split; [reflexivity|]. done.
Qed.

(** X9. A view item as [create_items_from_selection] returns it is not yet
    an entry [process_queued_item] can assign: it lists its looks but
    names no version, so that [process_queued_item], once its assertion on
    the nodes has passed, raises [KeyError] for the key [version] and
    assigns nothing. *)
Theorem process_queued_item_needs_a_version
  (sc : scene) (av : avalon) (content : option (list node))
  (w w' : world) (items : list pyval) :
  create_items_from_selection sc av content w = (Ok items, w') ->
  Forall (fun item =>
            forall w0, process_queued_item item w0 = (Raise (KeyError "version"), w0))
    items.
Proof.
  intros Hrun.
  destruct (create_items_from_selection_shape sc av _ w _ w' Hrun) as [_ Hok].
  destruct (Hok items eq_refl) as (groups & _ & Hitems & _).
  clear Hrun Hok. induction Hitems as [|g item gs items Hitem _ IH]; constructor; [|done].
  destruct (view_item_entry sc av g item Hitem) as (fields & n & ns & -> & Hnodes & _ & Hv).
  intros w0. unfold process_queued_item, bind, lift, ret, raise.
  rewrite Hnodes. simpl. by rewrite Hv.
Qed.

Lemma process_queued_item_needs_a_version_witness :
  Forall (fun item =>
            forall w0, process_queued_item item w0 = (Raise (KeyError "version"), w0))
    (match create_items_from_selection Demo.sc Demo.av
             (sets_query Demo.sc "modelA_CON") Demo.w0 with
     | (Ok items, _) => items
     | _ => []
     end).
Proof.
  apply (process_queued_item_needs_a_version Demo.sc Demo.av
           (sets_query Demo.sc "modelA_CON") Demo.w0
           (snd (create_items_from_selection Demo.sc Demo.av
                   (sets_query Demo.sc "modelA_CON") Demo.w0))).
  vm_compute. reflexivity.
Defined.

(** X8. [process_queued_item] calls the assignment collaborator exactly
    when the entry holds a non-empty value under [nodes] and a version
    with an id: then it makes that one call, with the nodes and the id,
    and nothing else. In every other case it raises and leaves no trace:
    the assertion error for missing or empty nodes, [KeyError] for a
    missing version or a version without id, [TypeError] for the null
    version of a look subset without published version. *)
Theorem process_queued_item_assigns_once
  (fields : list (string * pyval)) (w : world) :
  let run := process_queued_item (PDict fields) w in
  (forall nodes version vid,
      dict_get "nodes" fields = Some nodes -> truthy nodes = true ->
      dict_get "version" fields = Some version ->
      getitem version "_id" = Ok vid ->
      run = (Ok tt, {| logged := logged w;
                       assigned := assigned w ++ [(nodes, vid)];
                       removed := removed w |}))
  /\ (fst run = Ok tt ->
      exists nodes version vid,
        dict_get "nodes" fields = Some nodes /\ truthy nodes = true
        /\ dict_get "version" fields = Some version
        /\ getitem version "_id" = Ok vid)
  /\ (fst run <> Ok tt -> snd run = w /\ exists e, fst run = Raise e)
  /\ (forall nodes, dict_get "nodes" fields = Some nodes -> truthy nodes = true ->
        (dict_get "version" fields = None -> run = (Raise (KeyError "version"), w))
        /\ (dict_get "version" fields = Some PNone -> run = (Raise TypeError, w))
        /\ (forall d, dict_get "version" fields = Some (PDict d) ->
                      dict_get "_id" d = None -> run = (Raise (KeyError "_id"), w))).
Proof.
  intros run. subst run.
  unfold process_queued_item, bind, lift, ret, raise, assign_look_by_version.
  split; [|split; [|split]].
  - intros nodes version vid Hn Ht Hv Hid. rewrite Hn. simpl. rewrite Ht. simpl.
    rewrite Hv, Hid. done.
  - destruct (dict_get "nodes" fields) as [nodes|] eqn:Hn; [|done].
    destruct (truthy nodes) eqn:Ht; [|done]. simpl.
    destruct (dict_get "version" fields) as [version|] eqn:Hv; [|done].
    destruct (getitem version "_id") as [vid| |] eqn:Hid; try done.
    intros _. by exists nodes, version, vid.
  - destruct (dict_get "nodes" fields) as [nodes|] eqn:Hn; [|by eauto].
    destruct (truthy nodes) eqn:Ht; [|by eauto]. simpl.
    destruct (dict_get "version" fields) as [version|] eqn:Hv; [|by eauto].
    destruct (getitem version "_id") as [vid|e|] eqn:Hid; simpl; [done|by eauto|].
    exfalso. destruct version as [a|l|d]; simpl in Hid; try done.
    by destruct (dict_get "_id" d).
  - intros nodes Hn Ht. rewrite Hn. simpl. rewrite Ht. simpl.
    split; [by intros ->|]. split; [by intros ->|].
    intros d -> Hd. simpl. by rewrite Hd.
Qed.

(** ** Assets of the scene, once more *)

Lemma gather_view_items_stops sc av c rest l : forall w items w1,
  gather_view_items sc av l w = (Ok items, w1) ->
  sets_query sc (objectName c) = None ->
  gather_view_items sc av (l ++ c :: rest) w = (Raise TypeError, w1).
Proof.
  induction l as [|c0 l IH]; intros w items w1; simpl.
  - unfold ret. intros [= _ <-] Hc. unfold bind. rewrite Hc. done.
  - unfold bind, ret. intros Hrun Hc.
    destruct (create_items_from_selection sc av _ w) as [[view_items| |] w2]; try done.
    destruct (gather_view_items sc av l w2) as [[more| |] w3] eqn:Hl; try done.
    injection Hrun as _ <-. by rewrite (IH _ _ _ Hl Hc).
Qed.

(** X7. A container without members stops [get_all_assets]: for such a
    container, unless it is a look container, the scene answers the query
    of the members with [None], on which the grouping raises [TypeError];
    the items gathered from the containers before it are lost, the
    warnings logged for them stay. *)
Theorem get_all_assets_fails_on_empty_container
  (sc : scene) (av : avalon) (pre post : list container) (c : container)
  (w w1 : world) (items : list pyval) :
  host_ls av = pre ++ c :: post ->
  gather_view_items sc av
    (List.filter (fun c => negb (String.eqb (loader c) "LookLoader")) pre) w
    = (Ok items, w1) ->
  loader c <> "LookLoader" ->
  sets_query sc (objectName c) = None ->
  get_all_assets sc av w = (Raise TypeError, w1).
Proof.
  intros Hls Hpre Hc Hnone.
  unfold get_all_assets. rewrite get_all_assets_loop_gather, Hls.
  rewrite List.filter_app. simpl. unfold is_look_container at 2.
  apply String.eqb_neq in Hc. rewrite Hc. simpl.
  unfold is_look_container.
  by rewrite (gather_view_items_stops sc av c _ _ w items w1 Hpre Hnone).
Qed.

Lemma get_all_assets_fails_on_empty_container_witness :
  get_all_assets Demo.sc DemoMore.av_empty Demo.w0
  = (Raise TypeError,
     snd (create_items_from_selection Demo.sc DemoMore.av_empty
            (sets_query Demo.sc "modelA_CON") Demo.w0)).
Proof.
  apply (get_all_assets_fails_on_empty_container Demo.sc DemoMore.av_empty
           [Demo.look_a; Demo.model_a] [Demo.look_b] DemoMore.empty_c Demo.w0
           (snd (create_items_from_selection Demo.sc DemoMore.av_empty
                   (sets_query Demo.sc "modelA_CON") Demo.w0))
           (match create_items_from_selection Demo.sc DemoMore.av_empty
                    (sets_query Demo.sc "modelA_CON") Demo.w0 with
            | (Ok items, _) => items
            | _ => []
            end)).
  - reflexivity.
  - vm_compute. reflexivity.
  - discriminate.
  - reflexivity.
Defined.

(** Where every container that is not a look container has members, the
    code does what the specification says. *)
Lemma gather_view_items_members sc av cs : forall w,
  Forall (fun c => sets_query sc (objectName c) <> None) cs ->
  gather_view_items sc av cs w = view_items_of_members sc av cs w.
Proof.
  induction cs as [|c cs IH]; intros w Hall; [done|].
  apply List.Forall_cons_iff in Hall as [Hc Hcs].
  cbn [gather_view_items view_items_of_members]. unfold member_nodes, bind.
  destruct (sets_query sc (objectName c)) as [nodes|]; [|done].
  destruct (create_items_from_selection sc av (Some nodes) w) as [[items| |] w1];
    try done.
  by rewrite IH.
Qed.

Lemma get_all_assets_with_members sc av w :
  Forall (fun c => loader c <> "LookLoader" ->
                   sets_query sc (objectName c) <> None) (host_ls av) ->
  get_all_assets sc av w = get_all_assets_spec sc av w.
Proof.
  intros Hall. rewrite get_all_assets_skips_look_containers.
  unfold get_all_assets_spec. apply gather_view_items_members.
  apply List.Forall_forall. intros c Hin.
  apply filter_In in Hin as [Hin Hl].
  apply (proj1 (List.Forall_forall _ _) Hall c Hin).
  intros Heq. rewrite Heq in Hl. done.
Qed.

(** C9. [get_all_assets] does not get to the end of the host's list when
    a container that is not a look container has no members. Here the host
    lists a look container, a container with five member nodes, a
    container without members and another look container. The scene
    answers [None] for the members of the third; the concatenation of the
    view items of the member nodes is the two items of the second
    container, but [get_all_assets] raises [TypeError] and returns
    nothing. *)
Theorem get_all_assets_empty_container_divergence :
  host_ls DemoMore.av_empty
  = [Demo.look_a; Demo.model_a; DemoMore.empty_c; Demo.look_b]
  /\ loader DemoMore.empty_c <> "LookLoader"
  /\ sets_query Demo.sc (objectName DemoMore.empty_c) = None
  /\ member_nodes Demo.sc DemoMore.empty_c = []
  /\ (exists items,
        fst (get_all_assets_spec Demo.sc DemoMore.av_empty Demo.w0) = Ok items
        /\ fst (create_items_from_selection Demo.sc DemoMore.av_empty
                  (Some (member_nodes Demo.sc Demo.model_a)) Demo.w0) = Ok items
        /\ length items = 2)
  /\ fst (get_all_assets Demo.sc DemoMore.av_empty Demo.w0) = Raise TypeError.
Proof.
  split; [reflexivity|]. split; [discriminate|].
  split; [reflexivity|]. split; [reflexivity|].
  split; [|vm_compute; reflexivity].
  exists (match fst (get_all_assets_spec Demo.sc DemoMore.av_empty Demo.w0) with
          | Ok items => items
          | _ => []
          end).
  split; [vm_compute; reflexivity|]. split; vm_compute; reflexivity.
Qed.

(** ** The selection *)

Lemma NoDup_flat_map_filter {A B} (f : A -> list B) (p : A -> bool) l :
  NoDup (flat_map f l) -> NoDup (flat_map f (List.filter p l)).
Proof.
  induction l as [|x l IH]; simpl; [done|].
  intros Hnd. apply NoDup_app in Hnd as (Hx & Hdisj & Hl).
  destruct (p x); simpl; [|by apply IH].
  apply NoDup_app. split; [done|]. split; [|by apply IH].
  intros y Hy Hy'. apply (Hdisj y Hy).
  apply list_elem_of_In. apply list_elem_of_In in Hy'.
  apply in_flat_map in Hy' as (z & Hz & Hyz). apply in_flat_map.
  exists z. split; [|done]. by apply filter_In in Hz as [Hz _].
Qed.

Lemma view_items_nodes sc av gs items :
  Forall2 (view_item_of sc av) gs items ->
  flat_map nodes_of items = map (fun n => PStr n) (flat_map snd gs).
Proof.
  induction 1 as [|g item gs items Hitem _ IH]; simpl; [done|].
  rewrite IH, map_app. f_equal.
  destruct Hitem as (doc & name & looks & first & a & namespace & _ & _ & _ & _ & _ & ->).
  reflexivity.
Qed.

Lemma group_known_members sc av nodes groups n :
  create_asset_id_hash sc (Some nodes) = Ok groups ->
  In n (flat_map snd (List.filter (group_known av) groups))
  <-> In n nodes /\ exists k, asset_key sc n = Some k /\ known_id av k = true.
Proof.
  intros Hh. rewrite in_flat_map. split.
  - intros ([k ns] & Hg & Hn). apply filter_In in Hg as [Hg Hk].
    destruct (group_members sc nodes groups k ns Hh Hg) as [-> _].
    apply filter_In in Hn as [Hn Hkey]. split; [done|].
    exists k. split; [by apply has_asset_key_iff|done].
  - intros (Hn & k & Hkey & Hk).
    destruct (create_asset_id_hash_total sc nodes) as (h' & Hh' & Hnd & Hget).
    rewrite Hh in Hh'. injection Hh' as <-.
    assert (In n (List.filter (has_asset_key sc k) nodes)) as Hin.
    { apply filter_In. split; [done|]. by apply has_asset_key_iff. }
    pose proof (Hget k) as Hgk. unfold grouping_of in Hgk.
    destruct (List.filter (has_asset_key sc k) nodes) as [|x l] eqn:Hf; [done|].
    exists (k, x :: l). split; [|done].
    apply filter_In. split; [|done]. by apply HeapFacts.dict_get_In.
Qed.

(** X2. [get_items_from_selection] hands each node to the items at most
    once, also when a node is both selected and below a selected node:
    taken over all returned items the listed nodes are pairwise distinct,
    and a node is listed if and only if it is selected or among the
    descendants found by [list_descendents], has an identifier, and the
    prefix of that identifier is the id of a document. *)
Theorem get_items_from_selection_lists_each_node_once
  (sc : scene) (av : avalon) (ls_selection : list node)
  (list_of_set : list node -> list node) (fuel : nat)
  (w w' : world) (items : list pyval) :
  yields_each_once list_of_set ->
  get_items_from_selection sc av ls_selection list_of_set fuel w = (Ok items, w') ->
  exists hierarchy,
    list_descendents sc fuel ls_selection = Ok hierarchy
    /\ NoDup (flat_map nodes_of items)
    /\ forall n, In (PStr n) (flat_map nodes_of items)
                 <-> (In n ls_selection \/ In n hierarchy)
                     /\ exists k, asset_key sc n = Some k /\ known_id av k = true.
Proof.
  intros Hset Hrun. unfold get_items_from_selection, bind, lift, ret in Hrun.
  destruct (list_descendents sc fuel ls_selection) as [hierarchy| |]; try done.
  exists hierarchy. split; [done|].
  destruct (create_items_from_selection sc av _ w) as [[view_items| |] w1] eqn:Hitems;
    try done.
  injection Hrun as <- <-. simpl.
  destruct (create_items_from_selection_shape sc av _ w _ w1 Hitems) as [_ Hok].
  destruct (Hok view_items eq_refl) as (groups & Hh & Hview & _).
  rewrite (view_items_nodes sc av _ _ Hview).
  destruct (Hset (ls_selection ++ hierarchy)) as [Hnd Hmem].
  split.
  - apply NoDup_fmap_2; [by intros x y [= ->]|].
    apply NoDup_flat_map_filter.
    rewrite (create_asset_id_hash_loop_flat sc _ [] groups Hh). simpl.
    by apply NoDup_ListNoDup, List.NoDup_filter, NoDup_ListNoDup.
  - intros n. rewrite in_map_iff. split.
    + intros (x & [= ->] & Hx).
      apply (group_known_members sc av _ groups n Hh) in Hx as [Hn Hk].
      apply Hmem, in_app_iff in Hn. done.
    + intros [Hn Hk]. exists n. split; [done|].
      apply (group_known_members sc av _ groups n Hh). split; [|done].
      apply Hmem, in_app_iff. done.
Qed.

Lemma demo_yields_each_once : yields_each_once DemoMore.list_of_set.
Proof.
  intros l. split; [apply NoDup_ListNoDup, List.NoDup_nodup|].
  intros x. apply nodup_In.
Qed.

Lemma get_items_from_selection_witness :
  exists hierarchy,
    list_descendents Demo.sc 3 DemoMore.selection = Ok hierarchy
    /\ NoDup (flat_map nodes_of
                (match get_items_from_selection Demo.sc Demo.av DemoMore.selection
                         DemoMore.list_of_set 3 Demo.w0 with
                 | (Ok items, _) => items
                 | _ => []
                 end))
    /\ forall n, In (PStr n)
                   (flat_map nodes_of
                      (match get_items_from_selection Demo.sc Demo.av
                               DemoMore.selection DemoMore.list_of_set 3 Demo.w0 with
                       | (Ok items, _) => items
                       | _ => []
                       end))
                 <-> (In n DemoMore.selection \/ In n hierarchy)
                     /\ exists k, asset_key Demo.sc n = Some k
                                  /\ known_id Demo.av k = true.
Proof.
  apply (get_items_from_selection_lists_each_node_once Demo.sc Demo.av
           DemoMore.selection DemoMore.list_of_set 3 Demo.w0
           (snd (get_items_from_selection Demo.sc Demo.av DemoMore.selection
                   DemoMore.list_of_set 3 Demo.w0))).
  - exact demo_yields_each_once.
  - vm_compute. reflexivity.
Defined.

Example get_items_from_selection_demo :
  map nodes_of
    (match get_items_from_selection Demo.sc Demo.av DemoMore.selection
             DemoMore.list_of_set 3 Demo.w0 with
     | (Ok items, _) => items
     | _ => []
     end)
  = [[PStr "|b1"]; [PStr "|grp|a1"; PStr "|grp|a2"]].
Proof. vm_compute. reflexivity. Qed.

(** ** The scene file *)

Lemma rfind_none c s : str_mem c s = false -> rfind c s = (-1)%Z.
Proof.
  induction s as [|c' s IH]; simpl; [done|].
  intros H. apply orb_false_iff in H as [Hc Hs]. rewrite (IH Hs). simpl.
  by rewrite Ascii.eqb_sym, Hc.
Qed.

Lemma str_app_cons c s t : String c s +:+ t = String c (s +:+ t).
Proof. reflexivity. Qed.

Lemma str_app_nil t : "" +:+ t = t.
Proof. reflexivity. Qed.

Lemma rfind_last c s t :
  str_mem c t = false ->
  rfind c (s +:+ String c t) = Z.of_nat (String.length s).
Proof.
  intros Ht. induction s as [|c' s IH].
  - rewrite str_app_nil. cbn [rfind]. rewrite (rfind_none c t Ht). simpl.
    by rewrite Ascii.eqb_refl.
  - rewrite str_app_cons. cbn [rfind]. rewrite IH.
    destruct (Z.eqb_spec (Z.of_nat (String.length s)) (-1)) as [E|_]; [lia|].
    cbn [String.length]. lia.
Qed.

Lemma str_drop_app s t : str_drop (String.length s) (s +:+ t) = t.
Proof.
  induction s as [|c s IH]; [rewrite str_app_nil; by destruct t|].
  rewrite str_app_cons. done.
Qed.

Lemma str_take_app s t : str_take (String.length s) (s +:+ t) = s.
Proof.
  induction s as [|c s IH]; [rewrite str_app_nil; by destruct t|].
  rewrite str_app_cons. cbn [String.length str_take]. by rewrite IH.
Qed.

Lemma str_app_length s t :
  String.length (s +:+ t) = String.length s + String.length t.
Proof.
  induction s as [|c s IH]; [done|].
  rewrite str_app_cons. cbn [String.length]. by rewrite IH.
Qed.

Lemma str_app_assoc s t u : (s +:+ t) +:+ u = s +:+ (t +:+ u).
Proof.
  induction s as [|c s IH]; [done|]. rewrite !str_app_cons. by rewrite IH.
Qed.

Lemma rstrip_sep c s : rstrip c (s +:+ String c "") = rstrip c s.
Proof.
  induction s as [|c' s IH].
  - rewrite str_app_nil. simpl. by rewrite Ascii.eqb_refl.
  - rewrite str_app_cons. cbn [rstrip]. by rewrite IH.
Qed.

Lemma rstrip_repeat c n : rstrip c (str_repeat c n) = "".
Proof.
  induction n as [|n IH]; simpl; [done|]. by rewrite IH, Ascii.eqb_refl.
Qed.

Lemma repeat_sep c s n :
  s +:+ String c "" = str_repeat c n -> s = str_repeat c (String.length s).
Proof.
  revert n. induction s as [|c' s IH]; intros n; [done|].
  rewrite str_app_cons. destruct n as [|n]; simpl; [done|].
  intros [= -> Hs]. by rewrite <- (IH n Hs).
Qed.

(** X1. For a scene that was never saved [get_workfile] answers
    [untitled] and [get_workfolder] the empty text. For a scene saved as
    [folder/file], where [file] holds no slash and [folder] is not empty
    and does not end in a slash, [get_workfile] answers [file] and
    [get_workfolder] answers [folder]; for a scene name without any slash
    the file is the whole name and the folder is empty. *)
Theorem get_workfile_and_workfolder_split (folder file : string) :
  str_mem "/" file = false ->
  folder <> "" ->
  rstrip "/" folder = folder ->
  (get_workfile (folder +:+ "/" +:+ file) = file
   /\ get_workfolder (folder +:+ "/" +:+ file) = folder)
  /\ (file <> "" -> get_workfile file = file /\ get_workfolder file = "")
  /\ (get_workfile "" = "untitled" /\ get_workfolder "" = "").
Proof.
  intros Hfile Hne Hstrip. split; [|split; [|done]].
  - assert (folder +:+ "/" +:+ file <> "") as Hpath by (by destruct folder).
    assert (Z.to_nat (rfind "/" (folder +:+ "/" +:+ file) + 1)
            = String.length (folder +:+ "/")) as Hi.
    { change (folder +:+ "/" +:+ file) with (folder +:+ String "/" file).
      rewrite (rfind_last "/" folder file Hfile), str_app_length. simpl. lia. }
    split.
    + unfold get_workfile, basename. apply String.eqb_neq in Hpath.
      rewrite Hpath. simpl negb. cbv iota. rewrite Hi.
      rewrite <- (str_app_assoc folder "/" file). apply str_drop_app.
    + unfold get_workfolder, dirname. rewrite Hi.
      rewrite <- (str_app_assoc folder "/" file), str_take_app.
      assert (String.eqb (folder +:+ "/") "" = false) as ->
        by (apply String.eqb_neq; by destruct folder).
      destruct (String.eqb_spec (folder +:+ "/")
                  (str_repeat "/" (String.length (folder +:+ "/")))) as [E|_]; simpl.
      * exfalso. apply repeat_sep in E.
        assert (rstrip "/" folder = "") as Hs by (rewrite E; apply rstrip_repeat).
        apply Hne. congruence.
      * by rewrite rstrip_sep.
  - intros Hf. unfold get_workfile, get_workfolder, basename, dirname.
    apply String.eqb_neq in Hf. rewrite Hf. simpl negb. cbv iota.
    rewrite (rfind_none "/" file Hfile). simpl. done.
Qed.

Lemma get_workfile_and_workfolder_split_witness :
  (get_workfile ("/projects/hero/work" +:+ "/" +:+ "shot_010.ma") = "shot_010.ma"
   /\ get_workfolder ("/projects/hero/work" +:+ "/" +:+ "shot_010.ma")
      = "/projects/hero/work")
  /\ ("shot_010.ma" <> "" ->
      get_workfile "shot_010.ma" = "shot_010.ma" /\ get_workfolder "shot_010.ma" = "")
  /\ (get_workfile "" = "untitled" /\ get_workfolder "" = "").
Proof.
  apply (get_workfile_and_workfolder_split "/projects/hero/work" "shot_010.ma").
  - reflexivity.
  - discriminate.
  - reflexivity.
Defined.

(** ** The queue conversions, once more *)

Module QueueFacts.
Import Heap QueueSpec HeapFacts.

Lemma mapM_Forall2_eq {A B C} (f : A -> option C) (g : B -> option C) l1 l2 :
  Forall2 (fun a b => f a = g b) l1 l2 -> mapM f l1 = mapM g l2.
Proof.
  induction 1 as [|a b l1 l2 Hab _ IH]; [done|].
  cbn. by rewrite Hab, IH.
Qed.

Lemma rewritten_nil dd : rewritten [] dd = dd.
Proof.
  unfold rewritten. rewrite <- (map_id dd) at 2. by apply map_ext.
Qed.

Lemma rewritten_same c dd :
  NoDup (map fst dd) ->
  (forall k w, dict_get k c = Some w -> forall v, dict_get k dd = Some v -> v = w) ->
  rewritten c dd = dd.
Proof.
  intros Hnd Hsame. unfold rewritten.
  rewrite <- (map_id dd) at 2. apply map_ext_in. intros [k v] Hin. simpl.
  destruct (dict_get k c) as [w|] eqn:Hk; [|done].
  by rewrite (Hsame k w Hk v (In_dict_get k v dd Hnd Hin)).
Qed.

Lemma rewrite_document_lookup h x c l o :
  h !! l = Some o ->
  rewrite_document h x c !! l =
    Some (match o with
          | ODict d =>
              ODict (rewritten (if decide (document_of h x = Some l) then c else []) d)
          | OList items => o
          end).
Proof.
  intros Hl. unfold rewrite_document.
  destruct (document_of h x) as [ld|] eqn:Hdoc.
  - destruct (decide (ld = l)) as [->|Hne].
    + rewrite Hl. rewrite decide_True by done. destruct o as [d|items]; [|done].
      apply list_lookup_insert_eq. by eapply lookup_lt_Some.
    + rewrite decide_False by congruence.
      destruct (h !! ld) as [[dd|]|]; rewrite ?list_lookup_insert_ne by done;
        rewrite Hl; destruct o; by rewrite ?rewritten_nil.
  - rewrite decide_False by done. rewrite Hl. destruct o; by rewrite ?rewritten_nil.
Qed.

Lemma rewrite_document_None h x c l :
  h !! l = None -> rewrite_document h x c !! l = None.
Proof.
  intros Hl. unfold rewrite_document.
  destruct (document_of h x) as [ld|]; [|done].
  destruct (h !! ld) as [[dd|]|] eqn:Hld; try done.
  rewrite list_lookup_insert_ne; [done|]. intros ->. congruence.
Qed.

Lemma rewrite_document_same h x c ld dd :
  wf_heap h ->
  document_of h x = Some ld -> h !! ld = Some (ODict dd) ->
  (forall k w, dict_get k c = Some w -> forall v, dict_get k dd = Some v -> v = w) ->
  rewrite_document h x c = h.
Proof.
  intros Hwf Hdoc Hld Hsame. unfold rewrite_document. rewrite Hdoc, Hld.
  pose proof (wf_heap_lookup _ _ _ Hwf Hld) as [Hnd _].
  rewrite rewritten_same by done. by apply list_insert_id.
Qed.

Lemma atoms_get c k w : atoms c -> dict_get k c = Some w -> exists a, w = HAtom a.
Proof.
  intros Hc Hk. apply dict_get_In in Hk.
  unfold atoms in Hc. rewrite List.Forall_forall in Hc. apply (Hc _ Hk).
Qed.

Section ReifyCopy.
Variable h0 : heap.
Variable N : nat.
Variable h1 : heap.
Variables (x y : hval) (m : memo) (c : list (string * hval)).
Hypothesis Hinv : item_inv h0 N h1 x y m c.
Hypothesis Hc : atoms c.

(** The copy of a converted item unfolds as the item itself would, had its
    document been rewritten in place. *)
Lemma reify_copy : forall n v v',
  vrel m v v' -> reify n h1 v' = reify n (rewrite_document h0 x c) v.
Proof.
  destruct Hinv as (_ & _ & Hent).
  induction n as [|n IH]; intros [a|l] [a'|l'] Hv; try done.
  - simpl in Hv. by subst.
  - simpl in Hv. by subst.
  - simpl in Hv. destruct (Hent l l' Hv) as (_ & o & o' & Ho & Ho' & Hrel).
    cbn [reify]. rewrite Ho', (rewrite_document_lookup h0 x c l o Ho).
    destruct o as [d|items], o' as [d'|items']; try done; simpl in Hrel.
    + assert (mapM (fun kv => match reify n h1 (snd kv) with
                              | Some t => Some (fst kv, t)
                              | None => None
                              end) d'
              = mapM (fun kv => match reify n (rewrite_document h0 x c) (snd kv) with
                                | Some t => Some (fst kv, t)
                                | None => None
                                end)
                  (rewritten (if decide (document_of h0 x = Some l) then c else []) d))
        as ->; [|done].
      apply mapM_Forall2_eq. unfold rewritten. apply Forall2_fmap_r.
      apply Forall2_flip. eapply Forall2_impl; [exact Hrel|].
      intros [k v] [k' v'] [Hk Hval]. simpl in Hk, Hval. subst k'. simpl.
      destruct (decide (document_of h0 x = Some l)) as [_|_].
      * destruct (dict_get k c) as [w|] eqn:Hkc; simpl.
        -- subst v'. destruct (atoms_get c k w Hc Hkc) as [a ->].
           by destruct n.
        -- by rewrite (IH v v' Hval).
      * simpl in Hval. by rewrite (IH v v' Hval).
    + assert (mapM (reify n h1) items'
              = mapM (reify n (rewrite_document h0 x c)) items) as ->; [|done].
      apply mapM_Forall2_eq. apply Forall2_flip.
      eapply Forall2_impl; [exact Hrel|]. intros v v' Hval. by apply IH.
Qed.
End ReifyCopy.

(** Rewriting a document in place with atoms leaves the item unfoldable. *)
Lemma reify_rewritten h x c : atoms c ->
  forall n v t, reify n h v = Some t ->
  exists t', reify n (rewrite_document h x c) v = Some t'.
Proof.
  intros Hc. induction n as [|n IH]; intros [a|l] t; simpl; try done; eauto.
  destruct (h !! l) as [o|] eqn:Hl; [|done].
  rewrite (rewrite_document_lookup h x c l o Hl).
  destruct o as [d|items].
  - destruct (mapM _ d) as [ts|] eqn:Hts; [|done]. intros _.
    apply reify_fields_Some in Hts.
    match goal with
    | |- context [mapM ?f ?l'] =>
        assert (is_Some (mapM f l')) as [ts' ->]; [|by eauto]
    end.
    apply mapM_is_Some. unfold rewritten. apply Forall_fmap.
    clear Hl. induction Hts as [|[k v] [k' t'] d ts [Hk Hv] _ IHd]; constructor; [|done].
    simpl in *. destruct (dict_get k (if decide _ then c else [])) as [w|] eqn:Hkc; simpl.
    + assert (exists a, w = HAtom a) as [a ->].
      { destruct (decide _); [by eapply atoms_get|done]. }
      by destruct n.
    + destruct (IH v t' Hv) as [t2 ->]. done.
  - destruct (mapM _ items) as [ts|] eqn:Hts; [|done]. intros _.
    apply mapM_Some in Hts.
    match goal with
    | |- context [mapM ?f ?l'] =>
        assert (is_Some (mapM f l')) as [ts' ->]; [|by eauto]
    end.
    apply mapM_is_Some.
    clear Hl. induction Hts as [|v t' items ts Hv _ IHd]; constructor; [|done].
    simpl. destruct (IH v t' Hv) as [t2 ->]. done.
Qed.

Lemma document_ids_inv s x vi vp :
  document_ids s x vi vp ->
  exists li d ld dd,
    x = HRef li
    /\ store s !! li = Some (ODict d)
    /\ dict_get "document" d = Some (HRef ld)
    /\ store s !! ld = Some (ODict dd)
    /\ dict_get "_id" dd = Some vi
    /\ dict_get "parent" dd = Some vp.
Proof.
  intros (dv & Hd & Hi & Hp).
  destruct (getitem_Ok _ _ _ _ _ Hd) as (li & d & -> & Hli & Hdoc).
  destruct (getitem_Ok _ _ _ _ _ Hi) as (ld & dd & -> & Hld & Hvi).
  destruct (getitem_Ok _ _ _ _ _ Hp) as (ld2 & dd2 & [= <-] & Hld2 & Hvp).
  rewrite Hld in Hld2. injection Hld2 as <-.
  exists li, d, ld, dd. done.
Qed.

Lemma document_ids_intro s x li d ld dd vi vp :
  x = HRef li ->
  store s !! li = Some (ODict d) ->
  dict_get "document" d = Some (HRef ld) ->
  store s !! ld = Some (ODict dd) ->
  dict_get "_id" dd = Some vi ->
  dict_get "parent" dd = Some vp ->
  document_ids s x vi vp.
Proof.
  intros -> Hli Hdoc Hld Hvi Hvp. exists (HRef ld).
  split; [by eapply getitem_run|]. split; by eapply getitem_run.
Qed.

(** The document of a converted copy. *)
Lemma converted_document R h0 h1 x y :
  converted R h0 h1 x y ->
  exists m li d ld dd vi vp vi' vp' li' ld' d' dd',
    x = HRef li /\ h0 !! li = Some (ODict d)
    /\ dict_get "document" d = Some (HRef ld) /\ h0 !! ld = Some (ODict dd)
    /\ dict_get "_id" dd = Some vi /\ dict_get "parent" dd = Some vp
    /\ R vi vi' /\ R vp vp'
    /\ item_inv h0 (length h0) h1 x y m [("parent", vp'); ("_id", vi')]
    /\ y = HRef li' /\ h1 !! li' = Some (ODict d')
    /\ dict_get "document" d' = Some (HRef ld') /\ h1 !! ld' = Some (ODict dd')
    /\ dict_get "_id" dd' = Some vi' /\ dict_get "parent" dd' = Some vp'
    /\ m !! li = Some li' /\ m !! ld = Some ld'.
Proof.
  intros (m & li & d & ld & dd & vi & vp & vi' & vp' & H).
  destruct H as (-> & Hli & Hdoc & Hld & Hvi & Hvp & HRi & HRp & Hinv).
  destruct (copied_document h0 (length h0) (HRef li) y m li ld d dd eq_refl Hli Hdoc Hld
              h1 _ Hinv eq_refl)
    as (li' & ld' & d' & dd' & -> & Hmli & Hmld & _ & Hli' & Hdoc' & Hld' & Hrel).
  destruct (frelc_dict_get _ _ _ _ "_id" _ Hrel Hvi) as (wi & Hwi & Hwi').
  destruct (frelc_dict_get _ _ _ _ "parent" _ Hrel Hvp) as (wp & Hwp & Hwp').
  cbn [dict_get] in Hwi', Hwp'.
  change (String.eqb "_id" "parent") with false in Hwi'.
  rewrite String.eqb_refl in Hwi', Hwp'. subst wi wp.
  exists m, li, d, ld, dd, vi, vp, vi', vp', li', ld', d', dd'. done.
Qed.

(** Rewriting the document of the copy once more. *)
Lemma item_inv_rewrite h0 N h1 x y m c1 c2 li ld d dd :
  x = HRef li -> h0 !! li = Some (ODict d) ->
  dict_get "document" d = Some (HRef ld) -> h0 !! ld = Some (ODict dd) ->
  item_inv h0 N h1 x y m c1 ->
  dict_get "document" c1 = None ->
  (forall k, dict_get k c2 = None -> dict_get k c1 = None) ->
  item_inv h0 N (rewrite_document h1 y c2) x y m c2.
Proof.
  intros Hx Hli Hdoc Hld Hinv Hc1 Hkeys.
  destruct (copied_document h0 N x y m li ld d dd Hx Hli Hdoc Hld h1 _ Hinv Hc1)
    as (li' & ld' & d' & dd' & -> & Hmli & Hmld & _ & Hli' & Hdoc' & Hld' & Hrel).
  assert (document_of h1 (HRef li') = Some ld') as Hdocof'
    by (simpl; by rewrite Hli', Hdoc').
  assert (document_of h0 x = Some ld) as Hdocof
    by (subst x; simpl; by rewrite Hli, Hdoc).
  destruct Hinv as (Hv & Hinj & Hent).
  split; [done|]. split; [done|]. intros l l' Hl.
  destruct (Hent l l' Hl) as (HN & o & o' & Ho & Ho' & Hrel').
  split; [done|]. exists o.
  rewrite (rewrite_document_lookup h1 (HRef li') c2 l' o' Ho').
  eexists. split; [done|]. split; [reflexivity|].
  destruct (decide (l = ld)) as [->|Hne].
  - assert (l' = ld') as -> by congruence.
    rewrite Hld in Ho. injection Ho as <-.
    rewrite Hld' in Ho'. injection Ho' as <-.
    rewrite decide_True by done. rewrite decide_True by done.
    simpl. unfold rewritten. apply Forall2_fmap_r.
    eapply Forall2_impl; [exact Hrel|].
    intros [k v] [k' v'] [Hk Hval]. simpl in Hk, Hval. subst k'.
    unfold compose, frelc. cbn [fst snd].
    destruct (dict_get k c2) as [w|] eqn:Hkc; cbn [fst snd]; rewrite ?Hkc; [done|].
    by rewrite (Hkeys k Hkc) in Hval.
  - assert (l' <> ld') as Hne' by (intros ->; apply Hne; by eapply Hinj).
    rewrite decide_False in Hrel' by congruence.
    rewrite decide_False by congruence. rewrite decide_False by congruence.
    destruct o' as [d0'|items']; [|done]. by rewrite rewritten_nil.
Qed.

Lemma str_total container_str v s :
  exists v' s1, str container_str v s = (Ok v', s1).
Proof. destruct v; simpl; eauto. Qed.

Lemma ObjectId_new_oid_str generate o s :
  valid_oid o ->
  ObjectId_new generate (HAtom (AStr (oid_str o))) s = (Ok (HAtom (AOid o)), s).
Proof. intros Ho. simpl. by rewrite ObjectId_of_string_oid_str. Qed.

Lemma ObjectId_new_oid generate o s :
  ObjectId_new generate (HAtom (AOid o)) s = (Ok (HAtom (AOid o)), s).
Proof. done. Qed.

(** *** The loops over the queue, for any relation the conversion of a
    field value satisfies *)

Section QueueLoopsAny.
Variable h0 : heap.
Hypothesis Hwf0 : wf_heap h0.
Variable R : hval -> hval -> Prop.

Lemma create_queue_out_data_loop_any container_str fuel queue_items :
  conv_ok (str container_str) R ->
  forall acc s r s',
    unchanged h0 (store s) -> wf_heap (store s) ->
    Forall (wf_val (length h0)) queue_items ->
    create_queue_out_data_loop container_str fuel queue_items acc s = (r, s') ->
    loop_goal h0 (str container_str) R fuel queue_items acc s r s'.
Proof.
  intros Hconv.
  induction queue_items as [|item rest IH]; intros acc s r s' Hun Hwf Hitems Hrun.
  { simpl in Hrun. injection Hrun as <- <-. split; [apply extends_refl|]. split.
    - intros out [= <-]. split; [done|]. exists []. by rewrite app_nil_r.
    - eauto. }
  apply Forall_cons in Hitems as [Hitem Hrest].
  pose proof (unchanged_length _ _ Hun) as Hlen0.
  cbn [create_queue_out_data_loop] in Hrun. unfold bind at 1 in Hrun.
  destruct (deepcopy fuel item ∅ s) as [rc s1] eqn:Hcopy.
  destruct (deepcopy_item h0 Hwf0 fuel item s rc s1 Hun Hwf Hitem Hcopy) as (Hext1 & Hpost1 & Hterm1).
  destruct rc as [[y m]| |]; cycle 1.
  { injection Hrun as <- <-. apply loop_goal_fail; [done|done|].
    intros [[Ht _] _]%Forall_cons. by destruct (Hterm1 Ht) as (? & ? & ?). }
  { injection Hrun as <- <-. apply loop_goal_fail; [done|done|].
    intros [[Ht _] _]%Forall_cons. by destruct (Hterm1 Ht) as (? & ? & ?). }
  destruct (Hpost1 y m eq_refl) as (Hwf1 & Hinv1). cbn [fst] in Hrun.
  assert (unchanged h0 (store s1)) as Hun1 by (by eapply extends_unchanged).
  (* item["document"] *)
  unfold bind at 1 in Hrun.
  destruct (getitem item "document" s1) as [rd s1'] eqn:Hrd.
  pose proof (getitem_state _ _ _ _ _ Hrd) as ->.
  destruct rd as [dv| |]; cycle 1.
  { injection Hrun as <- <-. apply loop_goal_fail; [done|done|].
    by eapply not_convertible_read. }
  { injection Hrun as <- <-. apply loop_goal_fail; [done|done|].
    by eapply not_convertible_read. }
  destruct (read_document h0 Hwf0 (str container_str) fuel item rest s1 dv Hun1 Hitem Hrd)
    as (li & d & -> & Hli & Hdoc & [(ld & dd & -> & Hld)|[Hbad Hno]]); cycle 1.
  { unfold bind at 1 in Hrun.
    destruct (getitem dv "_id" s1) as [rv sv] eqn:Hrv.
    destruct (Hbad _ _ _ Hrv) as [Hnv ->].
    destruct rv as [v| |]; [by destruct (Hnv v)| |];
      injection Hrun as <- <-; by apply loop_goal_fail. }
  (* new_item["document"]["_id"] = str(item["document"]["_id"]) *)
  eapply (convert_step (str container_str) R Hconv h0 Hwf0 (length (store s)) Hlen0
            y m li ld d dd Hli Hdoc Hld
            (loop_goal h0 (str container_str) R fuel (HRef li :: rest) acc s)
            _ "_id" [] s1 r s' Hun1 Hwf1 Hinv1 eq_refl Hrun).
  { intros Hfail Hst Hwhy. apply loop_goal_fail; [by eapply extends_same|done|].
    apply (not_convertible_field h0 _ fuel li d ld dd rest s1 "_id"); auto. }
  intros vi vi' s2 Hvi HRi Hun2 Hwf2 Hinv2 Hlen2 Hsame2 Hrun2.
  assert (extends (store s) (store s2)) as Hext2.
  { eapply extends_below; [exact Hext1|done|done]. }
  (* item["document"], again *)
  unfold bind at 1 in Hrun2.
  rewrite (getitem_run li "document" s2 d (HRef ld)) in Hrun2; [|by apply Hun2|done].
  (* new_item["document"]["parent"] = str(item["document"]["parent"]) *)
  eapply (convert_step (str container_str) R Hconv h0 Hwf0 (length (store s)) Hlen0
            y m li ld d dd Hli Hdoc Hld
            (loop_goal h0 (str container_str) R fuel (HRef li :: rest) acc s)
            _ "parent" _ s2 r s' Hun2 Hwf2 Hinv2 eq_refl Hrun2).
  { intros Hfail Hst Hwhy. apply loop_goal_fail; [by eapply extends_same|done|].
    apply (not_convertible_field h0 _ fuel li d ld dd rest s2 "parent"); auto. }
  intros vp vp' s3 Hvp HRp Hun3 Hwf3 Hinv3 Hlen3 Hsame3 Hrun3.
  assert (extends (store s) (store s3)) as Hext3.
  { eapply extends_below; [exact Hext2|done|].
    intros l Hl. apply Hsame3. done. }
  eapply (loop_goal_step h0 _ _ fuel (HRef li) rest acc s s3 r s' li d ld dd vi vp vi' vp' y m);
    try done.
  by apply IH.
Qed.

Lemma create_queue_in_data_loop_any generate fuel queue_items :
  conv_ok (ObjectId_new generate) R ->
  forall acc s r s',
    unchanged h0 (store s) -> wf_heap (store s) ->
    Forall (wf_val (length h0)) queue_items ->
    create_queue_in_data_loop generate fuel queue_items acc s = (r, s') ->
    loop_goal h0 (ObjectId_new generate) R fuel queue_items acc s r s'.
Proof.
  intros Hconv.
  induction queue_items as [|item rest IH]; intros acc s r s' Hun Hwf Hitems Hrun.
  { simpl in Hrun. injection Hrun as <- <-. split; [apply extends_refl|]. split.
    - intros out [= <-]. split; [done|]. exists []. by rewrite app_nil_r.
    - eauto. }
  apply Forall_cons in Hitems as [Hitem Hrest].
  pose proof (unchanged_length _ _ Hun) as Hlen0.
  cbn [create_queue_in_data_loop] in Hrun. unfold bind at 1 in Hrun.
  destruct (deepcopy fuel item ∅ s) as [rc s1] eqn:Hcopy.
  destruct (deepcopy_item h0 Hwf0 fuel item s rc s1 Hun Hwf Hitem Hcopy) as (Hext1 & Hpost1 & Hterm1).
  destruct rc as [[y m]| |]; cycle 1.
  { injection Hrun as <- <-. apply loop_goal_fail; [done|done|].
    intros [[Ht _] _]%Forall_cons. by destruct (Hterm1 Ht) as (? & ? & ?). }
  { injection Hrun as <- <-. apply loop_goal_fail; [done|done|].
    intros [[Ht _] _]%Forall_cons. by destruct (Hterm1 Ht) as (? & ? & ?). }
  destruct (Hpost1 y m eq_refl) as (Hwf1 & Hinv1). cbn [fst] in Hrun.
  assert (unchanged h0 (store s1)) as Hun1 by (by eapply extends_unchanged).
  (* document = item["document"] *)
  unfold bind at 1 in Hrun.
  destruct (getitem item "document" s1) as [rd s1'] eqn:Hrd.
  pose proof (getitem_state _ _ _ _ _ Hrd) as ->.
  destruct rd as [dv| |]; cycle 1.
  { injection Hrun as <- <-. apply loop_goal_fail; [done|done|].
    by eapply not_convertible_read. }
  { injection Hrun as <- <-. apply loop_goal_fail; [done|done|].
    by eapply not_convertible_read. }
  destruct (read_document h0 Hwf0 (ObjectId_new generate) fuel item rest s1 dv Hun1 Hitem Hrd)
    as (li & d & -> & Hli & Hdoc & [(ld & dd & -> & Hld)|[Hbad Hno]]); cycle 1.
  { unfold bind at 1 in Hrun.
    destruct (getitem dv "_id" s1) as [rv sv] eqn:Hrv.
    destruct (Hbad _ _ _ Hrv) as [Hnv ->].
    destruct rv as [v| |]; [by destruct (Hnv v)| |];
      injection Hrun as <- <-; by apply loop_goal_fail. }
  (* new_item["document"]["_id"] = io.ObjectId(document["_id"]) *)
  eapply (convert_step (ObjectId_new generate) R Hconv h0 Hwf0 (length (store s)) Hlen0
            y m li ld d dd Hli Hdoc Hld
            (loop_goal h0 (ObjectId_new generate) R fuel (HRef li :: rest) acc s)
            _ "_id" [] s1 r s' Hun1 Hwf1 Hinv1 eq_refl Hrun).
  { intros Hfail Hst Hwhy. apply loop_goal_fail; [by eapply extends_same|done|].
    apply (not_convertible_field h0 _ fuel li d ld dd rest s1 "_id"); auto. }
  intros vi vi' s2 Hvi HRi Hun2 Hwf2 Hinv2 Hlen2 Hsame2 Hrun2.
  assert (extends (store s) (store s2)) as Hext2.
  { eapply extends_below; [exact Hext1|done|done]. }
  (* new_item["document"]["parent"] = io.ObjectId(document["parent"]) *)
  eapply (convert_step (ObjectId_new generate) R Hconv h0 Hwf0 (length (store s)) Hlen0
            y m li ld d dd Hli Hdoc Hld
            (loop_goal h0 (ObjectId_new generate) R fuel (HRef li :: rest) acc s)
            _ "parent" _ s2 r s' Hun2 Hwf2 Hinv2 eq_refl Hrun2).
  { intros Hfail Hst Hwhy. apply loop_goal_fail; [by eapply extends_same|done|].
    apply (not_convertible_field h0 _ fuel li d ld dd rest s2 "parent"); auto. }
  intros vp vp' s3 Hvp HRp Hun3 Hwf3 Hinv3 Hlen3 Hsame3 Hrun3.
  assert (extends (store s) (store s3)) as Hext3.
  { eapply extends_below; [exact Hext2|done|].
    intros l Hl. apply Hsame3. done. }
  eapply (loop_goal_step h0 _ _ fuel (HRef li) rest acc s s3 r s' li d ld dd vi vp vi' vp' y m);
    try done.
  by apply IH.
Qed.

End QueueLoopsAny.

Lemma conv_ok_returns conv R : conv_ok conv R -> conv_ok conv (returns conv).
Proof.
  intros Hok v s r s' Hrun. destruct (Hok v s r s' Hrun) as [Hst Hres].
  split; [done|]. intros v' ->. destruct (Hres v' eq_refl) as [Ha _].
  split; [done|]. by exists s, s'.
Qed.

Lemma returns_str container_str a v' :
  returns (str container_str) (HAtom a) v' -> v' = HAtom (AStr (atom_str a)).
Proof. intros (s & s' & H). simpl in H. congruence. Qed.

Lemma returns_ObjectId_text generate text v' :
  returns (ObjectId_new generate) (HAtom (AStr text)) v' ->
  exists o, ObjectId_of_string text = Ok o /\ v' = HAtom (AOid o).
Proof.
  intros (s & s' & H). simpl in H.
  destruct (ObjectId_of_string text) as [o| |]; try done.
  exists o. split; [done|]. unfold ret in H. congruence.
Qed.

Lemma returns_ObjectId_oid generate o v' :
  returns (ObjectId_new generate) (HAtom (AOid o)) v' -> v' = HAtom (AOid o).
Proof. intros (s & s' & H). simpl in H. unfold ret in H. congruence. Qed.

Lemma create_queue_out_data_run container_str n items s r s1 :
  wf_heap (store s) ->
  Forall (wf_val (length (store s))) items ->
  create_queue_out_data container_str n items s = (r, s1) ->
  extends (store s) (store s1)
  /\ (forall out, r = Ok out ->
        wf_heap (store s1)
        /\ Forall2 (converted (returns (str container_str)) (store s) (store s1))
             items out)
  /\ (Forall (convertible (str container_str) n (store s)) items ->
      exists out, r = Ok out).
Proof.
  intros Hwf Hitems Hrun.
  destruct (create_queue_out_data_loop_any (store s) Hwf _ container_str n items
              (conv_ok_returns _ _ (str_conv_ok container_str))
              [] s r s1 (unchanged_refl _) Hwf Hitems Hrun)
    as (Hext & Hok & Hterm).
  split; [done|]. split; [|done].
  intros out Hr. destruct (Hok out Hr) as (Hwf1 & news & -> & Hall). done.
Qed.

Lemma create_queue_in_data_run generate n items s r s1 :
  wf_heap (store s) ->
  Forall (wf_val (length (store s))) items ->
  create_queue_in_data generate n items s = (r, s1) ->
  extends (store s) (store s1)
  /\ (forall out, r = Ok out ->
        wf_heap (store s1)
        /\ Forall2 (converted (returns (ObjectId_new generate)) (store s) (store s1))
             items out)
  /\ (Forall (convertible (ObjectId_new generate) n (store s)) items ->
      exists out, r = Ok out).
Proof.
  intros Hwf Hitems Hrun.
  destruct (create_queue_in_data_loop_any (store s) Hwf _ generate n items
              (conv_ok_returns _ _ (ObjectId_new_conv_ok generate))
              [] s r s1 (unchanged_refl _) Hwf Hitems Hrun)
    as (Hext & Hok & Hterm).
  split; [done|]. split; [|done].
  intros out Hr. destruct (Hok out Hr) as (Hwf1 & news & -> & Hall). done.
Qed.

Lemma document_ids_wf_val s x vi vp :
  document_ids s x vi vp -> wf_val (length (store s)) x.
Proof.
  intros H. destruct (document_ids_inv _ _ _ _ H) as (li & d & ld & dd & -> & Hli & _).
  simpl. by eapply lookup_lt_Some.
Qed.

Lemma convertible_intro conv n (s : state) x t vi vp :
  reify n (store s) x = Some t ->
  document_ids s x vi vp ->
  (forall s0, exists v' s1, conv vi s0 = (Ok v', s1)) ->
  (forall s0, exists v' s1, conv vp s0 = (Ok v', s1)) ->
  convertible conv n (store s) x.
Proof.
  intros Ht Hids Hci Hcp.
  destruct (document_ids_inv _ _ _ _ Hids)
    as (li & d & ld & dd & -> & Hli & Hdoc & Hld & Hvi & Hvp).
  split; [eauto|]. exists li, d, ld, dd, vi, vp. done.
Qed.

Lemma atoms_two a1 a2 : atoms [("parent", HAtom a2); ("_id", HAtom a1)].
Proof. repeat constructor; simpl; eauto. Qed.

Lemma two_fields_same (dd : list (string * hval)) v1 v2 :
  dict_get "_id" dd = Some v1 -> dict_get "parent" dd = Some v2 ->
  forall k w, dict_get k [("parent", v2); ("_id", v1)] = Some w ->
              forall v, dict_get k dd = Some v -> v = w.
Proof.
  intros H1 H2 k w Hk v Hv. cbn [dict_get] in Hk.
  destruct (String.eqb k "parent") eqn:E1.
  { apply String.eqb_eq in E1. subst k. congruence. }
  destruct (String.eqb k "_id") eqn:E2; [|done].
  apply String.eqb_eq in E2. subst k. congruence.
Qed.

(** A conversion that writes the values the document already holds makes
    a copy with the tree of the original. *)
Lemma converted_same_tree R (s : state) h1 x y n a1 a2 :
  wf_heap (store s) ->
  converted R (store s) h1 x y ->
  document_ids s x (HAtom a1) (HAtom a2) ->
  (forall v', R (HAtom a1) v' -> v' = HAtom a1) ->
  (forall v', R (HAtom a2) v' -> v' = HAtom a2) ->
  reify n h1 y = reify n (store s) x.
Proof.
  intros Hwf0 Hconv Hids H1 H2.
  destruct (converted_document R _ h1 x y Hconv)
    as (m & li & d & ld & dd & vi & vp & vi' & vp' & li' & ld' & d' & dd' & H).
  destruct H as (-> & Hli & Hdoc & Hld & Hvi & Hvp & HRi & HRp & Hinv & -> & _).
  destruct (document_ids_inv _ _ _ _ Hids)
    as (li0 & d0 & ld0 & dd0 & [= <-] & Hli0 & Hdoc0 & Hld0 & Hvi0 & Hvp0).
  assert (d0 = d) as -> by congruence. assert (ld0 = ld) as -> by congruence.
  assert (dd0 = dd) as -> by congruence.
  assert (vi = HAtom a1) as -> by congruence.
  assert (vp = HAtom a2) as -> by congruence.
  apply H1 in HRi. apply H2 in HRp. subst vi' vp'.
  rewrite (reify_copy _ (length (store s)) h1 (HRef li) (HRef li') m _ Hinv
             (atoms_two a1 a2) n (HRef li) (HRef li')) by apply Hinv.
  rewrite (rewrite_document_same (store s) (HRef li) _ ld dd Hwf0); try done.
  - simpl. by rewrite Hli, Hdoc.
  - by apply two_fields_same.
Qed.

Lemma Forall2_chain {A B C} (P : A -> B -> Prop) (Q : A -> C -> Prop)
  (R : B -> C -> Prop) l1 l2 l3 :
  Forall2 P l1 l2 -> Forall2 Q l1 l3 ->
  (forall x y z, P x y -> Q x z -> R y z) ->
  Forall2 R l2 l3.
Proof.
  intros HP. revert l3. induction HP as [|x y l1 l2 Hxy _ IH]; intros l3 HQ HR.
  - inversion HQ. constructor.
  - inversion HQ as [|? z ? l3' Hxz HQ']; subst. constructor; eauto.
Qed.

Lemma Forall2_Forall_left {A B} (P : A -> B -> Prop) (Q : A -> Prop) l k :
  Forall2 P l k -> (forall x y, P x y -> Q x) -> Forall Q l.
Proof. induction 1; intros HPQ; constructor; eauto. Qed.

(** X13. Applied to items that are already in the form it produces,
    [create_queue_out_data] is a plain deep copy: for queue items that
    unfold to trees and whose document holds texts under [_id] and
    [parent], it returns items that unfold to the same trees, and the
    store keeps every object it held. *)
Theorem create_queue_out_data_idempotent
  (container_str : heap -> loc -> string)
  (n : nat) (queue_items : list hval) (ts : list pyval) (s : state) :
  wf_heap (store s) ->
  Forall2 (fun x t => reify n (store s) x = Some t
                      /\ exists ti tp,
                           document_ids s x (HAtom (AStr ti)) (HAtom (AStr tp)))
    queue_items ts ->
  exists out s',
    create_queue_out_data container_str n queue_items s = (Ok out, s')
    /\ unchanged (store s) (store s')
    /\ Forall2 (fun t y => reify n (store s') y = Some t) ts out.
Proof.
  intros Hwf Hts.
  assert (Forall (wf_val (length (store s))) queue_items) as Hvals.
  { eapply Forall2_Forall_left; [exact Hts|]. intros x t (_ & ti & tp & H).
    by eapply document_ids_wf_val. }
  destruct (create_queue_out_data container_str n queue_items s) as [r s'] eqn:Hrun.
  destruct (create_queue_out_data_run _ _ _ _ _ _ Hwf Hvals Hrun) as (Hext & Hok & Hterm).
  destruct Hterm as [out ->].
  { eapply Forall2_Forall_left; [exact Hts|]. intros x t (Ht & ti & tp & Hx).
    eapply convertible_intro; [exact Ht|exact Hx| |]; intros s0; apply str_total. }
  destruct (Hok out eq_refl) as [Hwf1 Hconv].
  exists out, s'. split; [done|]. split; [by apply extends_is_unchanged|].
  eapply (Forall2_chain _ _ _ queue_items ts out Hts Hconv).
  intros x t y (Ht & ti & tp & Hx) Hc.
  rewrite (converted_same_tree _ s (store s') x y n _ _ Hwf Hc Hx); [done| |];
    intros v' Hv'; by apply returns_str in Hv'.
Qed.

(** X14. Likewise [create_queue_in_data] is a plain deep copy of items
    whose document already holds database ids under [_id] and [parent]:
    the constructor of the id accepts an id and returns it. *)
Theorem create_queue_in_data_idempotent
  (generate : nat -> ObjectId)
  (n : nat) (queue_items : list hval) (ts : list pyval) (s : state) :
  wf_heap (store s) ->
  Forall2 (fun x t => reify n (store s) x = Some t
                      /\ exists a b,
                           document_ids s x (HAtom (AOid a)) (HAtom (AOid b)))
    queue_items ts ->
  exists out s',
    create_queue_in_data generate n queue_items s = (Ok out, s')
    /\ unchanged (store s) (store s')
    /\ Forall2 (fun t y => reify n (store s') y = Some t) ts out.
Proof.
  intros Hwf Hts.
  assert (Forall (wf_val (length (store s))) queue_items) as Hvals.
  { eapply Forall2_Forall_left; [exact Hts|]. intros x t (_ & ti & tp & H).
    by eapply document_ids_wf_val. }
  destruct (create_queue_in_data generate n queue_items s) as [r s'] eqn:Hrun.
  destruct (create_queue_in_data_run _ _ _ _ _ _ Hwf Hvals Hrun) as (Hext & Hok & Hterm).
  destruct Hterm as [out ->].
  { eapply Forall2_Forall_left; [exact Hts|]. intros x t (Ht & a & b & Hx).
    eapply convertible_intro; [exact Ht|exact Hx| |]; intros s0; eauto. }
  destruct (Hok out eq_refl) as [Hwf1 Hconv].
  exists out, s'. split; [done|]. split; [by apply extends_is_unchanged|].
  eapply (Forall2_chain _ _ _ queue_items ts out Hts Hconv).
  intros x t y (Ht & a & b & Hx) Hc.
  rewrite (converted_same_tree _ s (store s') x y n _ _ Hwf Hc Hx); [done| |];
    intros v' Hv'; by apply returns_ObjectId_oid in Hv'.
Qed.

Lemma Forall2_compose {A B C} (P : A -> B -> Prop) (Q : B -> C -> Prop)
  (T : A -> C -> Prop) l1 l2 l3 :
  Forall2 P l1 l2 -> Forall2 Q l2 l3 ->
  (forall x y z, P x y -> Q y z -> T x z) ->
  Forall2 T l1 l3.
Proof.
  intros HP. revert l3. induction HP as [|x y l1 l2 Hxy _ IH]; intros l3 HQ HT.
  - inversion HQ. constructor.
  - inversion HQ as [|? z ? l3' Hyz HQ']; subst. constructor; eauto.
Qed.

Lemma Forall2_Forall_right {A B} (P : A -> B -> Prop) (Q : B -> Prop) l k :
  Forall2 P l k -> (forall x y, P x y -> Q y) -> Forall Q k.
Proof. induction 1; intros HPQ; constructor; eauto. Qed.

Lemma same_keys_two (v1 v2 w1 w2 : hval) k :
  dict_get k [("parent", w2); ("_id", w1)] = None ->
  dict_get k [("parent", v2); ("_id", v1)] = None.
Proof.
  cbn [dict_get]. destruct (String.eqb k "parent"); [done|].
  by destruct (String.eqb k "_id").
Qed.

(** What [create_queue_out_data] makes of an item with database ids. *)
Lemma out_item_ids container_str (s : state) h1 x y a b :
  converted (returns (str container_str)) (store s) h1 x y ->
  document_ids s x (HAtom (AOid a)) (HAtom (AOid b)) ->
  exists m li d ld dd li' ld' d' dd',
    x = HRef li /\ store s !! li = Some (ODict d)
    /\ dict_get "document" d = Some (HRef ld) /\ store s !! ld = Some (ODict dd)
    /\ dict_get "_id" dd = Some (HAtom (AOid a))
    /\ dict_get "parent" dd = Some (HAtom (AOid b))
    /\ item_inv (store s) (length (store s)) h1 x y m
         [("parent", HAtom (AStr (oid_str b))); ("_id", HAtom (AStr (oid_str a)))]
    /\ y = HRef li' /\ h1 !! li' = Some (ODict d')
    /\ dict_get "document" d' = Some (HRef ld') /\ h1 !! ld' = Some (ODict dd')
    /\ dict_get "_id" dd' = Some (HAtom (AStr (oid_str a)))
    /\ dict_get "parent" dd' = Some (HAtom (AStr (oid_str b))).
Proof.
  intros Hconv Hids.
  destruct (converted_document _ _ h1 x y Hconv)
    as (m & li & d & ld & dd & vi & vp & vi' & vp' & li' & ld' & d' & dd' & H).
  destruct H as (-> & Hli & Hdoc & Hld & Hvi & Hvp & HRi & HRp & Hinv & -> & H').
  destruct H' as (Hli' & Hdoc' & Hld' & Hvi' & Hvp' & _).
  destruct (document_ids_inv _ _ _ _ Hids)
    as (li0 & d0 & ld0 & dd0 & [= <-] & Hli0 & Hdoc0 & Hld0 & Hvi0 & Hvp0).
  assert (d0 = d) as -> by congruence. assert (ld0 = ld) as -> by congruence.
  assert (dd0 = dd) as -> by congruence.
  assert (vi = HAtom (AOid a)) as -> by congruence.
  assert (vp = HAtom (AOid b)) as -> by congruence.
  apply returns_str in HRi, HRp. simpl in HRi, HRp. subst vi' vp'.
  exists m, li, d, ld, dd, li', ld', d', dd'. done.
Qed.

Lemma out_then_in_item generate container_str (s : state) h1 h2 x y z a b n :
  wf_heap (store s) ->
  converted (returns (str container_str)) (store s) h1 x y ->
  converted (returns (ObjectId_new generate)) h1 h2 y z ->
  document_ids s x (HAtom (AOid a)) (HAtom (AOid b)) ->
  valid_oid a -> valid_oid b ->
  reify n h2 z = reify n (store s) x.
Proof.
  intros Hwf Hc1 Hc2 Hids Ha Hb.
  destruct (out_item_ids _ _ _ _ _ _ _ Hc1 Hids)
    as (m & li & d & ld & dd & li' & ld' & d' & dd' & H).
  destruct H as (-> & Hli & Hdoc & Hld & Hvi & Hvp & Hinv1 & -> & H').
  destruct H' as (Hli' & Hdoc' & Hld' & Hvi' & Hvp').
  destruct (converted_document _ _ h2 _ z Hc2)
    as (m2 & li2 & d2 & ld2 & dd2 & vi2 & vp2 & vi2' & vp2' & li3 & ld3 & d3 & dd3 & H).
  destruct H as ([= <-] & Hli2 & Hdoc2 & Hld2 & Hvi2 & Hvp2 & HRi & HRp & Hinv2 & -> & _).
  assert (d2 = d') as -> by congruence. assert (ld2 = ld') as -> by congruence.
  assert (dd2 = dd') as -> by congruence.
  assert (vi2 = HAtom (AStr (oid_str a))) as -> by congruence.
  assert (vp2 = HAtom (AStr (oid_str b))) as -> by congruence.
  apply returns_ObjectId_text in HRi as (oa & Hoa & ->).
  apply returns_ObjectId_text in HRp as (ob & Hob & ->).
  rewrite ObjectId_of_string_oid_str in Hoa, Hob by done.
  injection Hoa as <-. injection Hob as <-.
  rewrite (reify_copy h1 (length h1) h2 (HRef li') (HRef li3) m2 _ Hinv2
             (atoms_two _ _) n (HRef li') (HRef li3)) by apply Hinv2.
  assert (item_inv (store s) (length (store s))
            (rewrite_document h1 (HRef li')
               [("parent", HAtom (AOid b)); ("_id", HAtom (AOid a))])
            (HRef li) (HRef li') m
            [("parent", HAtom (AOid b)); ("_id", HAtom (AOid a))]) as Hinv3.
  { eapply (item_inv_rewrite _ _ h1 (HRef li) (HRef li') m _ _ li ld d dd
              eq_refl Hli Hdoc Hld Hinv1 eq_refl).
    intros k. apply same_keys_two. }
  rewrite (reify_copy _ _ _ (HRef li) (HRef li') m _ Hinv3
             (atoms_two _ _) n (HRef li) (HRef li')) by apply Hinv3.
  rewrite (rewrite_document_same (store s) (HRef li) _ ld dd Hwf); try done.
  - simpl. by rewrite Hli, Hdoc.
  - by apply two_fields_same.
Qed.

(** X12. Without the JSON text in between the two conversions undo each
    other for any item whose document holds database ids under [_id] and
    [parent], whatever else the item holds: [create_queue_in_data] applied
    to the result of [create_queue_out_data] returns items that unfold to
    the trees of the original items, and the store keeps every object it
    held. *)
Theorem create_queue_in_data_inverts_out_data
  (generate : nat -> ObjectId) (container_str : heap -> loc -> string)
  (n : nat) (queue_items : list hval) (ts : list pyval) (s : state) :
  wf_heap (store s) ->
  Forall2 (fun x t => reify n (store s) x = Some t
                      /\ exists a b,
                           valid_oid a /\ valid_oid b
                           /\ document_ids s x (HAtom (AOid a)) (HAtom (AOid b)))
    queue_items ts ->
  exists out s1 res s2,
    create_queue_out_data container_str n queue_items s = (Ok out, s1)
    /\ create_queue_in_data generate n out s1 = (Ok res, s2)
    /\ Forall2 (fun t r => reify n (store s2) r = Some t) ts res
    /\ unchanged (store s) (store s2).
Proof.
  intros Hwf Hts.
  assert (Forall (wf_val (length (store s))) queue_items) as Hvals.
  { eapply Forall2_Forall_left; [exact Hts|]. intros x t (_ & a & b & _ & _ & H).
    by eapply document_ids_wf_val. }
  destruct (create_queue_out_data container_str n queue_items s) as [r s1] eqn:Hrun.
  destruct (create_queue_out_data_run _ _ _ _ _ _ Hwf Hvals Hrun) as (Hext & Hok & Hterm).
  destruct Hterm as [out ->].
  { eapply Forall2_Forall_left; [exact Hts|]. intros x t (Ht & a & b & _ & _ & Hx).
    eapply convertible_intro; [exact Ht|exact Hx| |]; intros s0; apply str_total. }
  destruct (Hok out eq_refl) as [Hwf1 Hconv1].
  (* what the converted items are *)
  assert (Forall2 (fun t y =>
            exists x a b,
              reify n (store s) x = Some t /\ valid_oid a /\ valid_oid b
              /\ document_ids s x (HAtom (AOid a)) (HAtom (AOid b))
              /\ converted (returns (str container_str)) (store s) (store s1) x y)
            ts out) as Hmid.
  { eapply (Forall2_chain _ _ _ queue_items ts out Hts Hconv1).
    intros x t y (Ht & a & b & Ha & Hb & Hx) Hc. by exists x, a, b. }
  assert (Forall (wf_val (length (store s1))) out) as Hvals1.
  { eapply Forall2_Forall_right; [exact Hmid|].
    intros t y (x & a & b & _ & _ & _ & Hx & Hc).
    destruct (out_item_ids _ _ _ _ _ _ _ Hc Hx)
      as (m & li & d & ld & dd & li' & ld' & d' & dd' & H).
    destruct H as (_ & _ & _ & _ & _ & _ & _ & -> & Hli' & _).
    simpl. by eapply lookup_lt_Some. }
  destruct (create_queue_in_data generate n out s1) as [r2 s2] eqn:Hrun2.
  destruct (create_queue_in_data_run _ _ _ _ _ _ Hwf1 Hvals1 Hrun2)
    as (Hext2 & Hok2 & Hterm2).
  destruct Hterm2 as [res ->].
  { eapply Forall2_Forall_right; [exact Hmid|].
    intros t y (x & a & b & Ht & Ha & Hb & Hx & Hc).
    destruct (out_item_ids _ _ _ _ _ _ _ Hc Hx)
      as (m & li & d & ld & dd & li' & ld' & d' & dd' & H).
    destruct H as (-> & Hli & Hdoc & Hld & Hvi & Hvp & Hinv1 & -> & H').
    destruct H' as (Hli' & Hdoc' & Hld' & Hvi' & Hvp').
    split.
    - rewrite (reify_copy _ _ _ (HRef li) (HRef li') m _ Hinv1
                 (atoms_two _ _) n (HRef li) (HRef li')) by apply Hinv1.
      eapply reify_rewritten; [apply atoms_two|exact Ht].
    - exists li', d', ld', dd', (HAtom (AStr (oid_str a))), (HAtom (AStr (oid_str b))).
      repeat (split; [done|]).
      split; intros s0; eexists _, _; by apply ObjectId_new_oid_str. }
  destruct (Hok2 res eq_refl) as [Hwf2 Hconv2].
  exists out, s1, res, s2. split; [done|]. split; [done|]. split.
  - eapply (Forall2_compose _ _ _ ts out res Hmid Hconv2).
    intros t y z (x & a & b & Ht & Ha & Hb & Hx & Hc1) Hc2.
    by rewrite (out_then_in_item generate container_str s (store s1) (store s2)
                  x y z a b n Hwf Hc1 Hc2 Hx Ha Hb).
  - apply extends_is_unchanged. by eapply extends_trans.
Qed.

Lemma returns_id_rel generate v v' :
  returns (ObjectId_new generate) v v' -> id_rel v v'.
Proof.
  intros H. split.
  - intros text ->. by apply returns_ObjectId_text in H.
  - intros o ->. by apply returns_ObjectId_oid in H.
Qed.

Lemma returns_str_rel container_str v v' :
  returns (str container_str) v v' -> str_rel v v'.
Proof. intros H a ->. by apply returns_str in H. Qed.

Lemma converted_ids R (s s' : state) x y :
  converted R (store s) (store s') x y ->
  exists vi vp vi' vp',
    document_ids s x vi vp /\ document_ids s' y vi' vp' /\ R vi vi' /\ R vp vp'.
Proof.
  intros Hconv.
  destruct (converted_document _ _ _ x y Hconv)
    as (m & li & d & ld & dd & vi & vp & vi' & vp' & li' & ld' & d' & dd' & H).
  destruct H as (-> & Hli & Hdoc & Hld & Hvi & Hvp & HRi & HRp & Hinv & -> & H').
  destruct H' as (Hli' & Hdoc' & Hld' & Hvi' & Hvp' & _).
  exists vi, vp, vi', vp'.
  split; [by eapply document_ids_intro|].
  split; [by eapply document_ids_intro|]. done.
Qed.

(** X11. What the two fields hold afterwards: in every item that
    [create_queue_out_data] returns, the document holds under [_id] and
    [parent] the text of the value the original holds there, whatever kind
    of atom that is (the hexadecimal text of a database id, [None] for the
    null value); in every item [create_queue_in_data] returns, it holds the
    database id the original's text denotes, or the database id that was
    there already. *)
Theorem queue_conversions_convert_ids
  (generate : nat -> ObjectId) (container_str : heap -> loc -> string)
  (fuel : nat) (queue_items : list hval) (s : state) :
  wf_heap (store s) ->
  Forall (wf_val (length (store s))) queue_items ->
  (forall out s',
      create_queue_out_data container_str fuel queue_items s = (Ok out, s') ->
      Forall2 (fun x y =>
                 exists vi vp vi' vp',
                   document_ids s x vi vp /\ document_ids s' y vi' vp'
                   /\ (forall a, vi = HAtom a -> vi' = HAtom (AStr (atom_str a)))
                   /\ (forall a, vp = HAtom a -> vp' = HAtom (AStr (atom_str a))))
        queue_items out)
  /\ (forall out s',
        create_queue_in_data generate fuel queue_items s = (Ok out, s') ->
        Forall2 (fun x y =>
                   exists vi vp vi' vp',
                     document_ids s x vi vp /\ document_ids s' y vi' vp'
                     /\ id_rel vi vi' /\ id_rel vp vp')
          queue_items out).
Proof.
  intros Hwf Hvals. split; intros out s' Hrun.
  - destruct (create_queue_out_data_run _ _ _ _ _ _ Hwf Hvals Hrun) as (_ & Hok & _).
    destruct (Hok out eq_refl) as [_ Hconv].
    eapply Forall2_impl; [exact Hconv|]. intros x y Hc.
    destruct (converted_ids _ s s' x y Hc) as (vi & vp & vi' & vp' & H1 & H2 & H3 & H4).
    exists vi, vp, vi', vp'. split; [done|]. split; [done|].
    split; [exact (returns_str_rel _ _ _ H3)|exact (returns_str_rel _ _ _ H4)].
  - destruct (create_queue_in_data_run _ _ _ _ _ _ Hwf Hvals Hrun) as (_ & Hok & _).
    destruct (Hok out eq_refl) as [_ Hconv].
    eapply Forall2_impl; [exact Hconv|]. intros x y Hc.
    destruct (converted_ids _ s s' x y Hc) as (vi & vp & vi' & vp' & H1 & H2 & H3 & H4).
    exists vi, vp, vi', vp'. split; [done|]. split; [done|].
    split; [exact (returns_id_rel _ _ _ H3)|exact (returns_id_rel _ _ _ H4)].
Qed.

(** *** The statements on the demo stores *)

Lemma demo_store_out_wf : wf_heap QueueDemo.store_out.
Proof.
  unfold wf_heap, QueueDemo.store_out. cbn [length].
  repeat (apply List.Forall_cons); try apply List.Forall_nil; cbn [wf_obj];
    try split;
    try match goal with
        | |- NoDup _ => apply (bool_decide_unpack _); vm_compute; exact I
        end;
    repeat (apply List.Forall_cons); try apply List.Forall_nil;
    cbn [wf_val snd]; try lia; try exact I.
Qed.

Lemma demo_item0_ids :
  document_ids (HeapDemo.state_of HeapDemo.store0) HeapDemo.item0
    (HAtom (AOid HeapDemo.oid_a)) (HAtom (AOid HeapDemo.oid_b)).
Proof. exists (HRef 0). repeat split. Qed.

Lemma queue_conversions_convert_ids_witness :
  (forall out s',
      create_queue_out_data HeapDemo.container_str 3 [HeapDemo.item0]
        (HeapDemo.state_of HeapDemo.store0) = (Ok out, s') ->
      Forall2 (fun x y =>
                 exists vi vp vi' vp',
                   document_ids (HeapDemo.state_of HeapDemo.store0) x vi vp
                   /\ document_ids s' y vi' vp'
                   /\ (forall a, vi = HAtom a -> vi' = HAtom (AStr (atom_str a)))
                   /\ (forall a, vp = HAtom a -> vp' = HAtom (AStr (atom_str a))))
        [HeapDemo.item0] out)
  /\ (forall out s',
        create_queue_in_data HeapDemo.generate 3 [HeapDemo.item0]
          (HeapDemo.state_of HeapDemo.store0) = (Ok out, s') ->
        Forall2 (fun x y =>
                   exists vi vp vi' vp',
                     document_ids (HeapDemo.state_of HeapDemo.store0) x vi vp
                     /\ document_ids s' y vi' vp'
                     /\ id_rel vi vi' /\ id_rel vp vp')
          [HeapDemo.item0] out).
Proof.
  apply (queue_conversions_convert_ids HeapDemo.generate HeapDemo.container_str 3
           [HeapDemo.item0] (HeapDemo.state_of HeapDemo.store0)).
  - exact demo_store0_wf.
  - apply List.Forall_cons; [cbn; lia|apply List.Forall_nil].
Defined.

Lemma create_queue_out_data_idempotent_witness :
  exists out s',
    create_queue_out_data HeapDemo.container_str 2 [QueueDemo.item_out]
      (HeapDemo.state_of QueueDemo.store_out) = (Ok out, s')
    /\ unchanged QueueDemo.store_out (store s')
    /\ Forall2 (fun t y => reify 2 (store s') y = Some t) [QueueDemo.tree_out] out.
Proof.
  apply (create_queue_out_data_idempotent HeapDemo.container_str 2
           [QueueDemo.item_out] [QueueDemo.tree_out]
           (HeapDemo.state_of QueueDemo.store_out)).
  - exact demo_store_out_wf.
  - apply List.Forall2_cons; [|apply List.Forall2_nil].
    split; [vm_compute; reflexivity|].
    exists Demo.id_a, Demo.id_b. exists (HRef 0). repeat split.
Defined.

Lemma create_queue_in_data_idempotent_witness :
  exists out s',
    create_queue_in_data HeapDemo.generate 3 [HeapDemo.item0]
      (HeapDemo.state_of HeapDemo.store0) = (Ok out, s')
    /\ unchanged HeapDemo.store0 (store s')
    /\ Forall2 (fun t y => reify 3 (store s') y = Some t) [HeapDemo.tree0] out.
Proof.
  apply (create_queue_in_data_idempotent HeapDemo.generate 3
           [HeapDemo.item0] [HeapDemo.tree0] (HeapDemo.state_of HeapDemo.store0)).
  - exact demo_store0_wf.
  - apply List.Forall2_cons; [|apply List.Forall2_nil].
    split; [vm_compute; reflexivity|].
    exists HeapDemo.oid_a, HeapDemo.oid_b. exact demo_item0_ids.
Defined.

Lemma demo_item1_ids :
  document_ids (HeapDemo.state_of HeapDemo.store1) HeapDemo.item1
    (HAtom (AOid HeapDemo.oid_a)) (HAtom (AOid HeapDemo.oid_b)).
Proof. exists (HRef 0). repeat split. Qed.

Lemma create_queue_in_data_inverts_out_data_witness :
  exists out s1 res s2,
    create_queue_out_data HeapDemo.container_str 5 [HeapDemo.item1]
      (HeapDemo.state_of HeapDemo.store1) = (Ok out, s1)
    /\ create_queue_in_data HeapDemo.generate 5 out s1 = (Ok res, s2)
    /\ Forall2 (fun t r => reify 5 (store s2) r = Some t) [QueueDemo.tree1] res
    /\ unchanged HeapDemo.store1 (store s2).
Proof.
  apply (create_queue_in_data_inverts_out_data HeapDemo.generate
           HeapDemo.container_str 5 [HeapDemo.item1] [QueueDemo.tree1]
           (HeapDemo.state_of HeapDemo.store1)).
  - exact demo_store1_wf.
  - apply List.Forall2_cons; [|apply List.Forall2_nil].
    split; [vm_compute; reflexivity|].
    exists HeapDemo.oid_a, HeapDemo.oid_b.
    split; [reflexivity|]. split; [reflexivity|]. exact demo_item1_ids.
Defined.

(** *** Encoding what unfolds to a tree *)

Lemma encode_items_trees (rec : hval -> outcome pyval) items ts :
  Forall2 (fun v t => rec v = if no_oid t then Ok t else Raise TypeError) items ts ->
  encode_items rec items = if forallb no_oid ts then Ok ts else Raise TypeError.
Proof.
  induction 1 as [|v t items ts Hv _ IH]; simpl; [done|].
  rewrite Hv. destruct (no_oid t); simpl; [|done].
  rewrite IH. by destruct (forallb no_oid ts).
Qed.

Lemma encode_fields_trees (rec : hval -> outcome pyval) d ts :
  Forall2 (fun kv kt => fst kv = fst kt
                        /\ rec (snd kv) = if no_oid (snd kt) then Ok (snd kt)
                                          else Raise TypeError) d ts ->
  encode_fields rec d
  = if forallb (fun kt => no_oid (snd kt)) ts then Ok ts else Raise TypeError.
Proof.
  induction 1 as [|[k v] [k' t] d ts [Hk Hv] _ IH]; simpl; [done|].
  simpl in Hk, Hv. subst k'. rewrite Hv. destruct (no_oid t); simpl; [|done].
  rewrite IH. by destruct (forallb _ ts).
Qed.

(** A value that unfolds to a tree is encoded as that tree, unless the
    tree holds a database id: then the encoder raises [TypeError]. *)
Lemma json_encode_reify h : forall n v t,
  reify n h v = Some t ->
  json_encode n h v = if no_oid t then Ok t else Raise TypeError.
Proof.
  induction n as [|n IH]; intros [a|l] t; simpl; try done.
  - intros [= <-]. by destruct a.
  - intros [= <-]. by destruct a.
  - destruct (h !! l) as [[d|items]|] eqn:Hl; [| |done].
    + destruct (mapM _ d) as [ts|] eqn:Hts; [|done]. intros [= <-].
      apply reify_fields_Some in Hts.
      rewrite (encode_fields_trees (json_encode n h) d ts).
      * simpl. by destruct (forallb _ ts).
      * eapply Forall2_impl; [exact Hts|]. intros kv kt [Hk Hv]. split; [done|].
        by apply IH.
    + destruct (mapM _ items) as [ts|] eqn:Hts; [|done]. intros [= <-].
      apply mapM_Some in Hts.
      rewrite (encode_items_trees (json_encode n h) items ts).
      * simpl. by destruct (forallb _ ts).
      * eapply Forall2_impl; [exact Hts|]. intros v t. apply IH.
Qed.

(** X15. [save_to_json] logs that it starts and opens the file, which
    empties it. If the items unfold to trees without database id, the file
    then holds their JSON text and the success is logged. If one of the
    trees holds a database id, as the items do before
    [create_queue_out_data], the encoder raises [TypeError]: the success is
    not logged and the file is left with an unfinished text, its earlier
    content lost. If the file cannot be opened, only the first record is
    logged. No other file and no object of the store changes. *)
Theorem save_to_json_writes_or_truncates
  (can_open : string -> bool) (fuel : nat) (filepath : string)
  (items : list hval) (ts : list pyval) (st : Files.fstate) :
  Forall2 (fun v t => reify fuel (store (Files.mem st)) v = Some t) items ts ->
  exists st',
    Files.save_to_json can_open fuel filepath items st
    = (if can_open filepath
       then if forallb no_oid ts then Files.Written else Files.Raised TypeError
       else Files.OpenFailed, st')
    /\ Files.after_saving st
         (if can_open filepath && forallb no_oid ts
          then [Files.info "Writing queue file ..."; Files.info "Successfully written file"]
          else [Files.info "Writing queue file ..."])
         filepath
         (if can_open filepath
          then Some (if forallb no_oid ts then Files.Json ts else Files.Unfinished)
          else None)
         st'.
Proof.
  intros Hts. unfold Files.save_to_json.
  destruct (can_open filepath); cbn [andb].
  - cbn [Files.set_file Files.log_info Files.mem].
    rewrite (encode_items_trees (json_encode fuel (store (Files.mem st))) items ts).
    2:{ eapply Forall2_impl; [exact Hts|]. intros v t. apply json_encode_reify. }
    destruct (forallb no_oid ts); eexists; (split; [reflexivity|]);
      unfold Files.after_saving, Files.log_info, Files.set_file, Files.info;
      cbn [Files.mem Files.records Files.files];
      (split; [done|]).
    + split; [by rewrite <- app_assoc|]. rewrite !dict_get_set, String.eqb_refl.
      split; [done|]. intros p Hp. rewrite !dict_get_set.
      apply String.eqb_neq in Hp. by rewrite Hp.
    + split; [done|]. rewrite !dict_get_set, String.eqb_refl.
      split; [done|]. intros p Hp. rewrite !dict_get_set.
      apply String.eqb_neq in Hp. by rewrite Hp.
  - eexists. split; [reflexivity|]. unfold Files.after_saving. simpl. done.
Qed.

(** X16. A queue written with [save_to_json] after [create_queue_out_data]
    can be read back: for items as in the round-trip law (a finite tree, a
    document with database ids under [_id] and [parent], no other database
    id) the file ends up holding a JSON text, and decoding that text and
    applying [create_queue_in_data] yields items whose document holds the
    original ids. *)
Theorem saved_queue_restores_ids
  (can_open : string -> bool) (generate : nat -> ObjectId)
  (container_str : heap -> loc -> string) (filepath : string)
  (n : nat) (queue_items : list hval) (ts : list pyval) (s : state)
  (rs : list log_record) (fs : list (string * Files.content)) :
  can_open filepath = true ->
  wf_heap (store s) ->
  Forall2 (fun x t => reify n (store s) x = Some t
                      /\ exists a b, queue_item_tree a b t) queue_items ts ->
  exists out s1 st' texts res s3,
    create_queue_out_data container_str n queue_items s = (Ok out, s1)
    /\ Files.save_to_json can_open n filepath out
         {| Files.mem := s1; Files.records := rs; Files.files := fs |}
       = (Files.Written, st')
    /\ dict_get filepath (Files.files st') = Some (Files.Json texts)
    /\ (let! loaded := json_loads texts in
        create_queue_in_data generate n loaded) (Files.mem st') = (Ok res, s3)
    /\ Forall2 (fun t r =>
                  forall a b, queue_item_tree a b t ->
                    document_ids s3 r (HAtom (AOid a)) (HAtom (AOid b)))
         ts res.
Proof.
  intros Hopen Hwf Hall.
  destruct (round_trip_out container_str n s queue_items ts Hwf Hall)
    as (out & s1 & texts & Hout & Hext1 & Hwf1 & Hdumps & Htexts).
  destruct (json_loads_spec texts s1) as (loaded & s2 & Hloads & Hext2 & Hdec).
  unfold json_dumps in Hdumps. injection Hdumps as Hdumps.
  assert (Forall2 (fun y text => json_encode n (store s1) y = Ok text) out texts) as Henc
    by (by apply encode_items_Ok).
  assert (Forall (fun text => depth text <= n /\ wf_tree text) texts) as Hfacts.
  { clear -Henc Hwf1. induction Henc as [|y text ? ? Hy _ IH]; constructor; [|done].
    by eapply json_encode_tree. }
  destruct Hdec as (Hwf2 & _ & Hreify); [done| |].
  { eapply Forall_impl; [exact Hfacts|]. by intros t [_ ?]. }
  destruct (round_trip_in generate n s2 loaded ts texts Hwf2 Htexts)
    as (res & s3 & Hin & Hext3 & Hres).
  { apply Hreify. eapply Forall_impl; [exact Hfacts|]. by intros t [? _]. }
  eexists out, s1, _, texts, res, s3. split; [done|]. split.
  { unfold Files.save_to_json. rewrite Hopen.
    cbn [Files.set_file Files.log_info Files.mem]. rewrite Hdumps. reflexivity. }
  cbn [Files.files Files.mem Files.log_info Files.set_file].
  split; [by rewrite dict_get_set, String.eqb_refl|]. split.
  - unfold bind. rewrite Hloads. done.
  - exact Hres.
Qed.

(** *** Where the conversions fail *)

Section FirstItem.
Variable s : state.
Hypothesis Hwf : wf_heap (store s).
Variables (li ld : loc) (d dd : list (string * hval)).
Hypothesis Hli : store s !! li = Some (ODict d).
Hypothesis Hdoc : dict_get "document" d = Some (HRef ld).
Hypothesis Hld : store s !! ld = Some (ODict dd).
Variable n : nat.
Variable t : pyval.
Hypothesis Ht : reify n (store s) (HRef li) = Some t.

(** The first statement of the loop body, on the first item. *)
Lemma first_item_copied :
  exists y m s1,
    deepcopy n (HRef li) ∅ s = (Ok (y, m), s1)
    /\ extends (store s) (store s1)
    /\ wf_heap (store s1)
    /\ item_inv (store s) (length (store s)) (store s1) (HRef li) y m [].
Proof.
  destruct (deepcopy n (HRef li) ∅ s) as [rc s1] eqn:Hcopy.
  destruct (deepcopy_item (store s) Hwf n (HRef li) s rc s1 (unchanged_refl _) Hwf)
    as (Hext1 & Hpost1 & Hterm1); [|done|].
  { simpl. by eapply lookup_lt_Some. }
  destruct Hterm1 as (y & m & ->); [eauto|].
  destruct (Hpost1 y m eq_refl) as [Hwf1 Hinv1].
  exists y, m, s1. done.
Qed.

Lemma out_data_missing_parent container_str rest vi :
  dict_get "_id" dd = Some vi ->
  dict_get "parent" dd = None ->
  fst (create_queue_out_data container_str n (HRef li :: rest) s)
  = Raise (KeyError "parent").
Proof.
  intros Hvi Hvp.
  destruct first_item_copied as (y & m & s1 & Hcopy & Hext1 & Hwf1 & Hinv1).
  assert (unchanged (store s) (store s1)) as Hun1 by (by apply extends_is_unchanged).
  unfold create_queue_out_data. cbn [create_queue_out_data_loop].
  unfold bind at 1. rewrite Hcopy. cbn [fst].
  unfold bind at 1.
  rewrite (getitem_run li "document" s1 d (HRef ld)); [|by apply Hun1|done].
  match goal with
  | |- fst (?K s1) = _ => destruct (K s1) as [r s'] eqn:Hrun
  end.
  destruct (convert_field_run (str container_str) str_rel (str_conv_ok container_str)
              (store s) (length (store s)) (HRef li) y m li ld d dd
              eq_refl Hli Hdoc Hld _ "_id" [] s1 r s' Hun1 Hwf1 Hinv1 eq_refl Hrun)
    as [(v & v' & s2 & ld' & dd' & Hv & Hcv & _ & Hmld & HN & Hld' & _ & HK)
       |(_ & _ & Hwhy)].
  - assert (li < length (store s)) as Hlilt by (by eapply lookup_lt_Some).
    assert (ld < length (store s)) as Hldlt by (by eapply lookup_lt_Some).
    unfold bind at 1 in HK.
    rewrite (getitem_run li "document" _ d (HRef ld)) in HK; [| |done].
    2:{ simpl. rewrite list_lookup_insert_ne by lia. by apply Hun1. }
    unfold bind at 1 in HK. rewrite getitem_ref in HK. simpl in HK.
    rewrite list_lookup_insert_ne in HK by lia.
    rewrite (Hun1 ld _ Hld), Hvp in HK. by injection HK as <- _.
  - destruct (Hwhy vi Hvi) as (e & s2 & He & Hne).
    destruct (str_total container_str vi s1) as (v' & s2' & Hok).
    rewrite Hok in He. injection He as <- _. by destruct (Hne v').
Qed.

Lemma ObjectId_new_fails generate text s0 :
  ~ well_formed_id text ->
  ObjectId_new generate (HAtom (AStr text)) s0 = (Raise InvalidId, s0).
Proof.
  intros Hbad. simpl. unfold ObjectId_of_string in *.
  unfold well_formed_id, ObjectId_of_string in Hbad.
  destruct (Nat.eqb _ 24); [|done].
  destruct (bytes_from_hex text); [|done]. exfalso. apply Hbad. eauto.
Qed.

Lemma ObjectId_new_text generate text s0 :
  well_formed_id text ->
  exists o, ObjectId_new generate (HAtom (AStr text)) s0 = (Ok (HAtom (AOid o)), s0).
Proof. intros [o Ho]. exists o. simpl. by rewrite Ho. Qed.

Lemma in_data_malformed_id generate rest ti tp :
  dict_get "_id" dd = Some (HAtom (AStr ti)) ->
  dict_get "parent" dd = Some (HAtom (AStr tp)) ->
  ~ well_formed_id ti \/ ~ well_formed_id tp ->
  fst (create_queue_in_data generate n (HRef li :: rest) s) = Raise InvalidId.
Proof.
  intros Hvi Hvp Hbad.
  destruct first_item_copied as (y & m & s1 & Hcopy & Hext1 & Hwf1 & Hinv1).
  assert (unchanged (store s) (store s1)) as Hun1 by (by apply extends_is_unchanged).
  unfold create_queue_in_data. cbn [create_queue_in_data_loop].
  unfold bind at 1. rewrite Hcopy. cbn [fst].
  unfold bind at 1.
  rewrite (getitem_run li "document" s1 d (HRef ld)); [|by apply Hun1|done].
  destruct (well_formed_id_cases ti) as [Hti|Hti].
  - destruct Hbad as [Hbad|Hbad]; [done|].
    match goal with
    | |- fst (?K s1) = _ => destruct (K s1) as [r s'] eqn:Hrun
    end.
    destruct (convert_field_run (ObjectId_new generate) oid_rel
                (ObjectId_new_conv_ok generate)
                (store s) (length (store s)) (HRef li) y m li ld d dd
                eq_refl Hli Hdoc Hld _ "_id" [] s1 r s' Hun1 Hwf1 Hinv1 eq_refl Hrun)
      as [(v & v' & s2 & ld' & dd' & Hv & Hcv & _ & Hmld & HN & Hld' & _ & HK)
         |(_ & _ & Hwhy)].
    + assert (ld < length (store s)) as Hldlt by (by eapply lookup_lt_Some).
      unfold bind at 1 in HK. rewrite getitem_ref in HK. simpl in HK.
      rewrite list_lookup_insert_ne in HK by lia.
      rewrite (Hun1 ld _ Hld), Hvp in HK.
      unfold bind at 1 in HK.
      rewrite (ObjectId_new_fails generate tp _ Hbad) in HK. by injection HK as <- _.
    + destruct (Hwhy _ Hvi) as (e & s2 & He & Hne).
      destruct (ObjectId_new_text generate ti s1 Hti) as (o & Hok).
      rewrite Hok in He. injection He as <- _. by destruct (Hne (HAtom (AOid o))).
  - unfold bind at 1.
    rewrite (getitem_run ld "_id" s1 dd (HAtom (AStr ti))); [|by apply Hun1|done].
    unfold bind at 1. by rewrite (ObjectId_new_fails generate ti s1 Hti).
Qed.
End FirstItem.

(** X17. A queue read from a file in which an id is not a text the
    constructor of database ids accepts is refused: if the document of the
    first item holds texts under [_id] and [parent] and the constructor
    does not accept one of them (it is not 24 characters long, or
    [bytes.fromhex] refuses it), [create_queue_in_data] raises
    [InvalidId], whatever the other items are. *)
Theorem create_queue_in_data_rejects_malformed_ids
  (generate : nat -> ObjectId) (n : nat) (x : hval) (rest : list hval)
  (t : pyval) (ti tp : string) (s : state) :
  wf_heap (store s) ->
  reify n (store s) x = Some t ->
  document_ids s x (HAtom (AStr ti)) (HAtom (AStr tp)) ->
  ~ well_formed_id ti \/ ~ well_formed_id tp ->
  fst (create_queue_in_data generate n (x :: rest) s) = Raise InvalidId.
Proof.
  intros Hwf Ht Hids Hbad.
  destruct (document_ids_inv _ _ _ _ Hids)
    as (li & d & ld & dd & -> & Hli & Hdoc & Hld & Hvi & Hvp).
  by eapply (in_data_malformed_id s Hwf li ld d dd Hli Hdoc Hld n t Ht).
Qed.

Lemma dict_get_filter {V} (p : string -> bool) k (d : list (string * V)) :
  dict_get k (List.filter (fun '(k', _) => p k') d)
  = if p k then dict_get k d else None.
Proof.
  induction d as [|[k0 v0] d IH]; simpl; [by destruct (p k)|].
  destruct (p k0) eqn:Hp0; simpl.
  - destruct (String.eqb k k0) eqn:E; [|done].
    apply String.eqb_eq in E. subst k0. by rewrite Hp0.
  - rewrite IH. destruct (String.eqb k k0) eqn:E; [|done].
    apply String.eqb_eq in E. subst k0. by rewrite Hp0.
Qed.

(** The document [create_items_from_selection] fetches has an id and no
    parent: it is reduced to its id and name. *)
Lemma asset_document_fields av k doc :
  asset_document av k = Some doc ->
  (exists v, dict_get "_id" doc = Some v) /\ dict_get "parent" doc = None.
Proof.
  unfold asset_document, find_one.
  destruct (ObjectId_of_string k) as [oid| |]; try done.
  destruct (List.filter _ (documents av)) as [|d0 l] eqn:Hf; [done|].
  intros [= <-].
  assert (doc_matches [("_id", POid oid)] d0 = true) as Hm.
  { eapply (proj1 (filter_In _ _ _)). rewrite Hf. by left. }
  unfold project. rewrite !(dict_get_filter
    (fun k => String.eqb k "_id" || existsb (String.eqb k) ["name"])).
  split; [|done].
  change (String.eqb "_id" "_id" || _) with true. cbv iota.
  simpl in Hm. destruct (dict_get "_id" d0) as [v|]; [eauto|done].
Qed.

Lemma view_item_document sc av g item :
  view_item_of sc av g item ->
  exists fields doc v,
    item = PDict fields
    /\ dict_get "document" fields = Some (PDict doc)
    /\ dict_get "_id" doc = Some v
    /\ dict_get "parent" doc = None.
Proof.
  intros (doc & name & looks & first & a & namespace & Hdoc & _ & _ & _ & _ & ->).
  destruct (asset_document_fields av _ doc Hdoc) as [[v Hv] Hp].
  eexists _, doc, v. split; [reflexivity|]. done.
Qed.

(** X10. A view item as [create_items_from_selection] returns it cannot be
    written to a queue file: its document was fetched with the name alone
    and has no [parent], so that [create_queue_out_data], having copied the
    item and converted the [_id], raises [KeyError] for the key
    [parent]. *)
Theorem create_queue_out_data_rejects_view_items
  (sc : scene) (av : avalon) (content : option (list node)) (w w' : world)
  (items : list pyval) (item : pyval)
  (container_str : heap -> loc -> string) (n : nat)
  (x : hval) (rest : list hval) (s : state) :
  create_items_from_selection sc av content w = (Ok items, w') ->
  In item items ->
  wf_heap (store s) ->
  reify n (store s) x = Some item ->
  fst (create_queue_out_data container_str n (x :: rest) s)
  = Raise (KeyError "parent").
Proof.
  intros Hrun Hin Hwf Ht.
  destruct (create_items_from_selection_shape sc av _ w _ w' Hrun) as [_ Hok].
  destruct (Hok items eq_refl) as (groups & _ & Hitems & _).
  assert (exists g, view_item_of sc av g item) as [g Hitem].
  { clear -Hitems Hin. induction Hitems as [|g i gs its Hi _ IH]; [done|].
    destruct Hin as [<-|Hin]; eauto. }
  destruct (view_item_document sc av g item Hitem)
    as (fields & doc & v & -> & Hdocf & Hidf & Hpf).
  destruct (reify_dict_inv _ _ _ _ Ht) as (li & d & n1 & -> & -> & Hli & Hfields).
  destruct (tree_fields_get _ _ _ _ _ _ Hfields Hdocf) as (dv & Hdv & Hrdv).
  destruct (reify_dict_inv _ _ _ _ Hrdv) as (ld & dd & n2 & -> & -> & Hld & Hdfields).
  destruct (tree_fields_get _ _ _ _ _ _ Hdfields Hidf) as (vi & Hvi & _).
  assert (dict_get "parent" dd = None) as Hvp.
  { destruct (dict_get "parent" dd) as [vp|] eqn:Hvp; [|done].
    destruct (tree_fields_get_l _ _ _ _ _ _ Hdfields Hvp) as (tp & Htp & _).
    congruence. }
  by eapply (out_data_missing_parent s Hwf li ld d dd Hli Hdv Hld _ _ Ht).
Qed.

(** *** The statements on the demo stores, continued *)

Ltac wf_demo_heap :=
  unfold wf_heap; cbn [length];
  repeat (apply List.Forall_cons); try apply List.Forall_nil; cbn [wf_obj];
  try split;
  try match goal with
      | |- NoDup _ => apply (bool_decide_unpack _); vm_compute; exact I
      end;
  repeat (apply List.Forall_cons); try apply List.Forall_nil;
  cbn [wf_val snd]; try lia; try exact I.

Lemma demo_store_bad_wf : wf_heap QueueDemo.store_bad.
Proof. unfold QueueDemo.store_bad. wf_demo_heap. Qed.

Lemma create_queue_in_data_rejects_malformed_ids_witness :
  fst (create_queue_in_data HeapDemo.generate 2 [QueueDemo.item_bad]
         (HeapDemo.state_of QueueDemo.store_bad)) = Raise InvalidId.
Proof.
  apply (create_queue_in_data_rejects_malformed_ids HeapDemo.generate 2
           QueueDemo.item_bad [] QueueDemo.tree_bad "A1B2" Demo.id_b
           (HeapDemo.state_of QueueDemo.store_bad)).
  - exact demo_store_bad_wf.
  - vm_compute. reflexivity.
  - exists (HRef 0). repeat split.
  - left. intros [o Ho]. vm_compute in Ho. discriminate.
Defined.

Lemma demo_view_item_state_wf : wf_heap (store QueueDemo.view_item_state).
Proof.
  assert (exists h, store QueueDemo.view_item_state = h /\ wf_heap h) as (h & -> & Hh);
    [|done].
  eexists. split; [vm_compute; reflexivity|]. wf_demo_heap.
Qed.

Lemma create_queue_out_data_rejects_view_items_witness :
  fst (create_queue_out_data HeapDemo.container_str 4
         [QueueDemo.view_item_value] QueueDemo.view_item_state)
  = Raise (KeyError "parent").
Proof.
  apply (create_queue_out_data_rejects_view_items Demo.sc Demo.av (Some ["|b1"])
           Demo.w0
           (snd (create_items_from_selection Demo.sc Demo.av (Some ["|b1"]) Demo.w0))
           QueueDemo.view_items QueueDemo.view_item
           HeapDemo.container_str 4 QueueDemo.view_item_value []
           QueueDemo.view_item_state).
  - vm_compute. reflexivity.
  - vm_compute. left. reflexivity.
  - exact demo_view_item_state_wf.
  - vm_compute. reflexivity.
Defined.

Lemma save_to_json_writes_or_truncates_witness :
  exists st',
    Files.save_to_json Files.always 5 "queue.json" [HeapDemo.item1]
      (Files.demo_state (HeapDemo.state_of HeapDemo.store1))
    = (if Files.always "queue.json"
       then if forallb no_oid [QueueDemo.tree1]
            then Files.Written else Files.Raised TypeError
       else Files.OpenFailed, st')
    /\ Files.after_saving (Files.demo_state (HeapDemo.state_of HeapDemo.store1))
         (if Files.always "queue.json" && forallb no_oid [QueueDemo.tree1]
          then [Files.info "Writing queue file ...";
                Files.info "Successfully written file"]
          else [Files.info "Writing queue file ..."])
         "queue.json"
         (if Files.always "queue.json"
          then Some (if forallb no_oid [QueueDemo.tree1]
                     then Files.Json [QueueDemo.tree1] else Files.Unfinished)
          else None)
         st'.
Proof.
  apply (save_to_json_writes_or_truncates Files.always 5 "queue.json"
           [HeapDemo.item1] [QueueDemo.tree1]
           (Files.demo_state (HeapDemo.state_of HeapDemo.store1))).
  apply List.Forall2_cons; [|apply List.Forall2_nil]. vm_compute. reflexivity.
Defined.

Example save_to_json_demo :
  fst (Files.save_to_json Files.always 5 "queue.json" [HeapDemo.item1]
         (Files.demo_state (HeapDemo.state_of HeapDemo.store1)))
  = Files.Raised TypeError
  /\ Files.files
       (snd (Files.save_to_json Files.always 5 "queue.json" [HeapDemo.item1]
               (Files.demo_state (HeapDemo.state_of HeapDemo.store1))))
     = [("queue.json", Files.Unfinished)].
Proof. split; vm_compute; reflexivity. Qed.

Lemma saved_queue_restores_ids_witness :
  exists out s1 st' texts res s3,
    create_queue_out_data HeapDemo.container_str 3 [HeapDemo.item0]
      (HeapDemo.state_of HeapDemo.store0) = (Ok out, s1)
    /\ Files.save_to_json Files.always 3 "queue.json" out
         {| Files.mem := s1; Files.records := []; Files.files := [] |}
       = (Files.Written, st')
    /\ dict_get "queue.json" (Files.files st') = Some (Files.Json texts)
    /\ (let! loaded := json_loads texts in
        create_queue_in_data HeapDemo.generate 3 loaded) (Files.mem st') = (Ok res, s3)
    /\ Forall2 (fun t r =>
                  forall a b, queue_item_tree a b t ->
                    document_ids s3 r (HAtom (AOid a)) (HAtom (AOid b)))
         [HeapDemo.tree0] res.
Proof.
  apply (saved_queue_restores_ids Files.always HeapDemo.generate
           HeapDemo.container_str "queue.json" 3 [HeapDemo.item0] [HeapDemo.tree0]
           (HeapDemo.state_of HeapDemo.store0) [] []).
  - reflexivity.
  - exact demo_store0_wf.
  - apply List.Forall2_cons; [|apply List.Forall2_nil]. split; [vm_compute; reflexivity|].
    exists HeapDemo.oid_a, HeapDemo.oid_b. exact demo_tree0.
Defined.

End QueueFacts.
